(** * Avocado: reference-graph validator and incremental diff engine

    A shallow embedding of [src/index.ts] and the properties its
    specification states about it.

    Conventions of the embedding.
    - JavaScript strings are [string]; the string built-ins the program
      calls ([split], [includes], [indexOf], [substr], [replace], [trim],
      [toLowerCase]) are written out below.  [trim] and [toLowerCase] know
      the ASCII white space and letters only.
    - [Set<string>] (the gray and black sets) is [gset string]: the program
      only adds, deletes and tests membership.  [Set<Specification>] holds
      object references, is never probed with [has] and is only iterated in
      insertion order: it is a [list Specification].  A [Set<string>] that
      is iterated is a list without duplicates, in insertion order.
    - [Map<string, Error>] is iterated in insertion order: it is an
      association list, and [ErrorMap.set] keeps the position of a key it
      overwrites.
    - An async generator is the list of values it yields, the way it stopped
      ([Finished], [Threw] or, for the model only, [OutOfFuel]) and the
      state it leaves behind; its recursion and its [while] loop take a
      budget [fuel].
    - The asynchronous sequence of paths a directory listing gives is the
      list of paths it yields and whether it then rejects, as it does for a
      directory that cannot be read.
    - Everything the program imports from other packages (file system, JSON
      and markdown parsers, YAML loader, path functions, object hash, regular
      expressions) and from [./dev-ops] is a field of [Environment]. *)

From Stdlib Require Import Ascii String.
From stdpp Require Import gmap strings list pretty.

Open Scope string_scope.
Open Scope nat_scope.
Open Scope list_scope.

(** ** JavaScript string built-ins *)

Module Js.

(** [s.split(sep)] for a one-character separator. *)
Fixpoint split (sep : ascii) (s : string) : list string :=
  match s with
  | EmptyString => [EmptyString]
  | String c rest =>
      if Ascii.eqb c sep then EmptyString :: split sep rest
      else match split sep rest with
           | [] => [String c EmptyString]
           | seg :: segs => String c seg :: segs
           end
  end.

(** [segs.join(sep)]. *)
Fixpoint join (sep : string) (segs : list string) : string :=
  match segs with
  | [] => EmptyString
  | [seg] => seg
  | seg :: rest => seg +:+ sep +:+ join sep rest
  end.

(** [s.includes(sub)]: [sub] occurs somewhere in [s]. *)
Fixpoint includes (s sub : string) : bool :=
  String.prefix sub s ||
  match s with
  | EmptyString => false
  | String _ rest => includes rest sub
  end.

(** [s.indexOf(c)] for a one-character needle; [None] stands for [-1]. *)
Fixpoint indexOf (c : ascii) (s : string) : option nat :=
  match s with
  | EmptyString => None
  | String d rest =>
      if Ascii.eqb d c then Some 0 else S <$> indexOf c rest
  end.

(** [s.substr(from)] and [s.substr(0, len)]. *)
Fixpoint substrFrom (from : nat) (s : string) : string :=
  match from, s with
  | S n, String _ rest => substrFrom n rest
  | _, _ => s
  end.

Fixpoint substrTo (len : nat) (s : string) : string :=
  match len, s with
  | S n, String c rest => String c (substrTo n rest)
  | _, _ => EmptyString
  end.

Definition isWhiteSpace (c : ascii) : bool :=
  let n := nat_of_ascii c in
  ((n =? 32) || ((9 <=? n) && (n <=? 13)))%nat.

Fixpoint trimStart (s : string) : string :=
  match s with
  | String c rest => if isWhiteSpace c then trimStart rest else s
  | EmptyString => EmptyString
  end.

(** [s.trim()]. *)
Definition trim (s : string) : string :=
  String.rev (trimStart (String.rev (trimStart s))).

Definition lowerChar (c : ascii) : ascii :=
  let n := nat_of_ascii c in
  if ((65 <=? n) && (n <=? 90))%nat then ascii_of_nat (n + 32) else c.

(** [s.toLowerCase()]. *)
Fixpoint toLowerCase (s : string) : string :=
  match s with
  | EmptyString => EmptyString
  | String c rest => String (lowerChar c) (toLowerCase rest)
  end.

(** [s.replace(pattern, replacement)] for a string pattern: the first
    occurrence only. *)
Fixpoint replace (pattern replacement s : string) : string :=
  if String.prefix pattern s
  then replacement +:+ substrFrom (String.length pattern) s
  else match s with
       | EmptyString => EmptyString
       | String c rest => String c (replace pattern replacement rest)
       end.

Definition isDigit (c : ascii) : bool :=
  let n := nat_of_ascii c in ((48 <=? n) && (n <=? 57))%nat.

End Js.

(** ** JSON values

    The values [jsonParser.parse] and [YAML.safeLoad] hand to the program.
    A number is kept as the text JavaScript prints for it, the only thing the
    program can observe of it; an object is the list of its entries in
    [Object.entries] order. *)

#[warnings="-register-all"]
Inductive Json :=
| JNull
| JBool (b : bool)
| JNumber (text : string)
| JString (s : string)
| JArray (items : list Json)
| JObject (entries : list (string * Json)).

Module JsonOps.

(** [j.k] for a property name no prototype defines; [None] is [undefined]. *)
Definition getProp (j : Json) (k : string) : option Json :=
  match j with
  | JObject entries => snd <$> find (fun kv => String.eqb (fst kv) k) entries
  | _ => None
  end.

(** JavaScript truthiness. *)
Definition truthy (j : Json) : bool :=
  match j with
  | JNull => false
  | JBool b => b
  | JNumber text => negb (String.eqb text "0") && negb (String.eqb text "NaN")
  | JString s => negb (String.eqb s "")
  | JArray _ | JObject _ => true
  end.

(** [String(j)], the conversion [includes] applies to its argument. *)
Fixpoint toString (j : Json) : string :=
  match j with
  | JNull => "null"
  | JBool true => "true"
  | JBool false => "false"
  | JNumber text => text
  | JString s => s
  | JArray items =>
      Js.join "," (map (fun x => match x with
                                 | JNull => ""
                                 | _ => toString x
                                 end) items)
  | JObject _ => "[object Object]"
  end.

(** [String(v)] for a property read that may be [undefined]. *)
Definition toStringOpt (v : option Json) : string :=
  match v with
  | None => "undefined"
  | Some j => toString j
  end.

End JsonOps.

(** ** Findings ([err.Error])

    [./errors] declares the type; the shapes below are the object literals
    [index.ts] builds, one constructor per shape. *)

Inductive Level := LevelError | LevelWarning.

Record FilePosition := { line : Z; column : Z }.

(** [jsonParser.ParseError]. *)
Record ParseError := {
  pe_kind : string;
  pe_code : string;
  pe_message : string;
  pe_token : string;
  pe_position : FilePosition;
  pe_url : string;
}.

Inductive Code :=
| UNREFERENCED_JSON_FILE
| NO_JSON_FILE_FOUND
| NOT_AUTOREST_MARKDOWN
| JSON_PARSE
| CIRCULAR_REFERENCE
| MISSING_README
| INCONSISTENT_API_VERSION
| MULTIPLE_API_VERSION
| INVALID_FILE_LOCATION.

(** The codes whose finding carries [readMeUrl], [jsonUrl] and [path]. *)
Inductive JsonFileCode :=
| NoJsonFileFound
| UnreferencedJsonFile
| CircularReference
| InconsistentApiVersion
| InvalidFileLocation.

Inductive Error :=
| JsonParseError (message : string) (error : ParseError) (level : Level)
                 (path : string)
| JsonFileError (code : JsonFileCode) (message readMeUrl : string)
                (level : Level) (jsonUrl path : string)
| NotAutoRestMarkDown (message readMeUrl : string) (level : Level)
                      (path helpUrl : string)
| MultipleApiVersion (message readMeUrl : string) (tag : option Json)
                     (path : string) (level : Level)
| MissingReadme (level : Level) (message path folderUrl : string).

Module Err.

Definition jsonFileCode (c : JsonFileCode) : Code :=
  match c with
  | NoJsonFileFound => NO_JSON_FILE_FOUND
  | UnreferencedJsonFile => UNREFERENCED_JSON_FILE
  | CircularReference => CIRCULAR_REFERENCE
  | InconsistentApiVersion => INCONSISTENT_API_VERSION
  | InvalidFileLocation => INVALID_FILE_LOCATION
  end.

Definition code (e : Error) : Code :=
  match e with
  | JsonParseError _ _ _ _ => JSON_PARSE
  | JsonFileError c _ _ _ _ _ => jsonFileCode c
  | NotAutoRestMarkDown _ _ _ _ _ => NOT_AUTOREST_MARKDOWN
  | MultipleApiVersion _ _ _ _ _ => MULTIPLE_API_VERSION
  | MissingReadme _ _ _ _ => MISSING_README
  end.

Definition path (e : Error) : string :=
  match e with
  | JsonParseError _ _ _ p => p
  | JsonFileError _ _ _ _ _ p => p
  | NotAutoRestMarkDown _ _ _ p _ => p
  | MultipleApiVersion _ _ _ p _ => p
  | MissingReadme _ _ p _ => p
  end.

Definition level (e : Error) : Level :=
  match e with
  | JsonParseError _ _ l _ => l
  | JsonFileError _ _ _ l _ _ => l
  | NotAutoRestMarkDown _ _ l _ _ => l
  | MultipleApiVersion _ _ _ _ l => l
  | MissingReadme l _ _ _ => l
  end.

Definition message (e : Error) : string :=
  match e with
  | JsonParseError m _ _ _ => m
  | JsonFileError _ m _ _ _ _ => m
  | NotAutoRestMarkDown m _ _ _ _ => m
  | MultipleApiVersion m _ _ _ _ => m
  | MissingReadme _ m _ _ => m
  end.

#[global] Instance code_eq_dec : EqDecision Code.
Proof. solve_decision. Defined.

End Err.

(** ** The program's data *)

Inductive Kind := EXAMPLE | SWAGGER.

Record Specification := {
  path : string;
  readMePath : string;
  kind : Kind;
}.

(** [commonmark.Node]: the program reads [type], [literal], [info] and walks
    [firstChild] / [next], that is, the list of children. *)
#[warnings="-register-all"]
Inductive MdNode :=
| MkMdNode (type : string) (literal info : option string)
           (children : list MdNode).

Module Md.

Definition type (n : MdNode) : string :=
  match n with MkMdNode t _ _ _ => t end.

Definition literal (n : MdNode) : option string :=
  match n with MkMdNode _ l _ _ => l end.

Definition info (n : MdNode) : option string :=
  match n with MkMdNode _ _ i _ => i end.

Definition children (n : MdNode) : list MdNode :=
  match n with MkMdNode _ _ _ c => c end.

(** [n.firstChild]; [None] is [null]. *)
Definition firstChild (n : MdNode) : option MdNode := head (children n).

End Md.

(** [devOps.FileChange]: the program reads [path] only. *)
Record FileChange := { fc_path : string; fc_kind : string }.

(** ** What the program imports

    Node's [path], [fs] and [process], [@ts-common/fs],
    [@ts-common/json-parser], [@ts-common/commonmark-to-markdown],
    [@azure/openapi-markdown], [js-yaml], [node-object-hash],
    [String.prototype.search] with its regular expressions, and
    [devOps.isPRRelatedError] of [./dev-ops]. *)

(** The object [errorCorrelationId] hashes. *)
Record KeyObject := {
  ko_code : Code;
  ko_url : string;
  ko_position : option FilePosition;
}.

(** What iterating an asynchronous sequence of paths gives: the paths it
    yields, and whether it then rejects instead of ending. *)
Record Listing := { yielded : list string; rejects : bool }.

Module Listing.

(** [xs.filter(p)] and [xs.map(f)]: a rejection of [xs] is passed on. *)
Definition filter (p : string → bool) (xs : Listing) : Listing :=
  {| yielded := List.filter p (yielded xs); rejects := rejects xs |}.

Definition map (f : string → string) (xs : Listing) : Listing :=
  {| yielded := List.map f (yielded xs); rejects := rejects xs |}.

End Listing.

Record Environment := {
  (** [tscommonFs.readFile]; [None] when the promise rejects. *)
  readFile : string → option string;
  (** [tscommonFs.exists] and [fs.existsSync]. *)
  fsExists : string → bool;
  existsSync : string → bool;
  (** [tscommonFs.recursiveReaddir]: the files below a directory; the
      sequence rejects for a directory that cannot be read, as for a path
      that does not exist or is a file. *)
  recursiveReaddir : string → Listing;
  (** [process.cwd()]. *)
  processCwd : string;
  (** [path.sep], [path.dirname], [path.basename], [path.extname],
      [path.join(...)] and [path.resolve(...)]. *)
  pathSep : ascii;
  pathDirname : string → string;
  pathBasename : string → string;
  pathExtname : string → string;
  pathJoin : list string → string;
  pathResolve : list string → string;
  (** [jsonParser.parse(url, text, reportError)]: the errors it reports and
      the document it returns. *)
  jsonParserParse : string → string → list ParseError * Json;
  (** [md.parse(text).markDown]. *)
  mdParse : string → MdNode;
  (** [openApiMd.getCodeBlocksAndHeadings]: the entries of the object it
      returns, in [Object.keys] order. *)
  getCodeBlocksAndHeadings : MdNode → list (string * MdNode);
  (** [openApiMd.getInputFilesForTag]; [None] is [undefined]. *)
  getInputFilesForTag : MdNode → Json → option (list string);
  (** [openApiMd.getInputFiles]. *)
  getInputFiles : MdNode → list string;
  (** [YAML.safeLoad]: [None] when it throws, [Some None] for [undefined]. *)
  yamlSafeLoad : string → option (option Json);
  (** [nodeObjectHash().hash]. *)
  objectHash : KeyObject → string;
  (** [subject.search(pattern)]: [None] when the pattern is no regular
      expression (a [SyntaxError]), else the index or [-1]. *)
  stringSearch : string → string → option Z;
  (** [devOps.isPRRelatedError]. *)
  isPRRelatedError : list FileChange → Error → bool;
}.

(** ** [errorCorrelationId] *)

Definition toObject (error : Error) : KeyObject :=
  match error with
  | JsonFileError UnreferencedJsonFile _ _ _ jsonUrl _ =>
      {| ko_code := UNREFERENCED_JSON_FILE; ko_url := jsonUrl;
         ko_position := None |}
  | JsonFileError NoJsonFileFound _ readMeUrl _ _ _ =>
      {| ko_code := NO_JSON_FILE_FOUND; ko_url := readMeUrl;
         ko_position := None |}
  | NotAutoRestMarkDown _ readMeUrl _ _ _ =>
      {| ko_code := NOT_AUTOREST_MARKDOWN; ko_url := readMeUrl;
         ko_position := None |}
  | JsonParseError _ e _ _ =>
      {| ko_code := JSON_PARSE; ko_url := pe_url e;
         ko_position := Some (pe_position e) |}
  | JsonFileError CircularReference _ _ _ jsonUrl _ =>
      {| ko_code := CIRCULAR_REFERENCE; ko_url := jsonUrl;
         ko_position := None |}
  | MissingReadme _ _ _ folderUrl =>
      {| ko_code := MISSING_README; ko_url := folderUrl;
         ko_position := None |}
  | JsonFileError InconsistentApiVersion _ _ _ jsonUrl _ =>
      {| ko_code := INCONSISTENT_API_VERSION; ko_url := jsonUrl;
         ko_position := None |}
  | MultipleApiVersion _ readMeUrl _ _ _ =>
      {| ko_code := MULTIPLE_API_VERSION; ko_url := readMeUrl;
         ko_position := None |}
  | JsonFileError InvalidFileLocation _ _ _ jsonUrl _ =>
      {| ko_code := INVALID_FILE_LOCATION; ko_url := jsonUrl;
         ko_position := None |}
  end.

Definition errorCorrelationId (env : Environment) (error : Error) : string :=
  objectHash env (toObject error).

(** ** Manifest checks *)

(** [markDownIterate(node.firstChild)]: the first child of [node] and the
    nodes that follow it. *)
Definition markDownIterate (node : MdNode) : list MdNode := Md.children node.

Definition isAutoRestMd (m : MdNode) : bool :=
  existsb
    (fun v =>
       if negb (String.eqb (Md.type v) "block_quote") then false
       else match Md.firstChild v with
            | None => false
            | Some p =>
                if negb (String.eqb (Md.type p) "paragraph") then false
                else match Md.firstChild p with
                     | None => false
                     | Some t =>
                         if negb (String.eqb (Md.type t) "text") then false
                         else match Md.literal t with
                              | Some l =>
                                  String.eqb l "see https://aka.ms/autorest"
                              | None => false
                              end
                     end
            end)
    (markDownIterate m).

Definition safeLoad (env : Environment) (content : string) : option Json :=
  match yamlSafeLoad env content with
  | Some v => v
  | None => None
  end.

(** [latestDefinition && latestDefinition.tag], when truthy. *)
Definition definitionTag (latestDefinition : option Json) : option Json :=
  match latestDefinition with
  | Some d =>
      if JsonOps.truthy d then
        match JsonOps.getProp d "tag" with
        | Some t => if JsonOps.truthy t then Some t else None
        | None => None
        end
      else None
  | None => None
  end.

(** A string is truthy when it is not empty; [null] is not. *)
Definition truthyString (s : option string) : bool :=
  match s with
  | Some t => negb (String.eqb t "")
  | None => false
  end.

(** [/^(yaml|json)$/.test(info.trim().toLowerCase())]. *)
Definition isYamlOrJson (info : string) : bool :=
  let lang := Js.toLowerCase (Js.trim info) in
  String.eqb lang "yaml" || String.eqb lang "json".

(** [codeBlockMap[key]]. *)
Definition blockOf (codeBlockMap : list (string * MdNode)) (key : string)
  : option MdNode :=
  snd <$> find (fun kv => String.eqb (fst kv) key) codeBlockMap.

(** The [for (const idx of Object.keys(codeBlockMap))] loop of
    [getDefaultTag]. *)
Fixpoint firstTaggedBlock (env : Environment)
    (codeBlockMap : list (string * MdNode)) (keys : list string)
  : option Json :=
  match keys with
  | [] => None
  | idx :: rest =>
      match blockOf codeBlockMap idx with
      | Some block =>
          if negb (truthyString (Md.info block))
             || negb (truthyString (Md.literal block))
             || negb (isYamlOrJson (default "" (Md.info block)))
          then firstTaggedBlock env codeBlockMap rest
          else
            match definitionTag (safeLoad env (default "" (Md.literal block))) with
            | Some tag => Some tag
            | None => firstTaggedBlock env codeBlockMap rest
            end
      | None => firstTaggedBlock env codeBlockMap rest
      end
  end.

Definition getDefaultTag (env : Environment) (markDown : MdNode)
  : option Json :=
  let codeBlockMap := getCodeBlocksAndHeadings env markDown in
  let latestHeader := "Basic Information" in
  let fromHeader :=
    match blockOf codeBlockMap latestHeader with
    | Some headerBlock =>
        if truthyString (Md.literal headerBlock)
        then definitionTag (safeLoad env (default "" (Md.literal headerBlock)))
        else None
    | None => None
    end in
  match fromHeader with
  | Some tag => Some tag
  | None => firstTaggedBlock env codeBlockMap (map fst codeBlockMap)
  end.

(** [/^\d{4}-\d{2}-\d{2}(|-preview)$/.test(s)]. *)
Definition apiVersionRegex (s : string) : bool :=
  match String.list_ascii_of_string s with
  | y1 :: y2 :: y3 :: y4 :: d1 :: m1 :: m2 :: d2 :: a1 :: a2 :: suffix =>
      forallb Js.isDigit [y1; y2; y3; y4; m1; m2; a1; a2]
      && Ascii.eqb d1 "-" && Ascii.eqb d2 "-"
      && (String.eqb (String.string_of_list_ascii suffix) ""
          || String.eqb (String.string_of_list_ascii suffix) "-preview")
  | _ => false
  end.

Definition getVersionFromInputFile (filePath : string) : option string :=
  let segments := removelast (Js.split "/" filePath) in
  if (1 <? length segments)%nat then find apiVersionRegex segments else None.

(** The loop of [isContainsMultiVersion] over the input files, [versions]
    being the [Set] built so far. *)
Fixpoint multiVersionLoop (versions : gset string) (inputFiles : list string)
  : bool :=
  match inputFiles with
  | [] => false
  | file :: rest =>
      match getVersionFromInputFile file with
      | Some version =>
          if negb (String.eqb version "") then
            let versions' := versions ∪ {[version]} in
            if (1 <? size versions')%nat then true
            else multiVersionLoop versions' rest
          else multiVersionLoop versions rest
      | None => multiVersionLoop versions rest
      end
  end.

Definition isContainsMultiVersion (env : Environment) (m : MdNode) : bool :=
  match getDefaultTag env m with
  | None => false
  | Some defaultTag =>
      match getInputFilesForTag env m defaultTag with
      | Some inputFiles => multiVersionLoop ∅ inputFiles
      | None => false
      end
  end.

(** ** Generators

    An (async) generator function of the program is a [Gen S]: run from a
    state [S] (the sets and maps it mutates), it yields the findings
    [emitted] in order, stops in [status] and leaves the state [final].
    [Threw] is an uncaught exception; [OutOfFuel] means the model's recursion
    budget ran out before the program stopped. *)

Inductive Status := Finished | Threw | OutOfFuel.

Record Outcome (S : Type) := MkOutcome {
  status : Status;
  final : S;
  emitted : list Error;
}.

#[global] Instance status_eq_dec : EqDecision Status.
Proof. solve_decision. Defined.

Arguments MkOutcome {S} _ _ _.
Arguments status {S} _.
Arguments final {S} _.
Arguments emitted {S} _.

Definition Gen (S : Type) : Type := S → Outcome S.

Module Gen.

Definition skip {S} : Gen S := fun st => MkOutcome Finished st [].

(** [yield* es]. *)
Definition yieldAll {S} (es : list Error) : Gen S :=
  fun st => MkOutcome Finished st es.

(** [yield e]. *)
Definition yield {S} (e : Error) : Gen S := yieldAll [e].

Definition throw {S} : Gen S := fun st => MkOutcome Threw st [].

Definition outOfFuel {S} : Gen S := fun st => MkOutcome OutOfFuel st [].

(** A statement that only changes the state. *)
Definition modify {S} (f : S → S) : Gen S :=
  fun st => MkOutcome Finished (f st) [].

(** [m1; m2]: [m2] runs when [m1] has finished. *)
Definition andThen {S} (m1 m2 : Gen S) : Gen S :=
  fun st =>
    let o1 := m1 st in
    match status o1 with
    | Finished =>
        let o2 := m2 (final o1) in
        MkOutcome (status o2) (final o2) (emitted o1 ++ emitted o2)
    | _ => o1
    end.

(** [if (cond) { m }] with a condition on the state. *)
Definition when {S} (cond : S → bool) (m : Gen S) : Gen S :=
  fun st => if cond st then m st else skip st.

(** [for (const x of xs) { body }]. *)
Fixpoint forEach {S A} (body : A → Gen S) (xs : list A) : Gen S :=
  match xs with
  | [] => skip
  | x :: rest => andThen (body x) (forEach body rest)
  end.

(** [for await (const x of xs) { body }]: the rejection of [xs] is thrown
    after the rounds for what [xs] yields. *)
Definition forAwait {S} (body : string → Gen S) (xs : Listing) : Gen S :=
  andThen (forEach body (yielded xs)) (if rejects xs then throw else skip).

(** [yield*] of a generator that owns its state. *)
Definition delegate {S T} (o : Outcome T) : Gen S :=
  fun st => MkOutcome (status o) st (emitted o).

End Gen.

Declare Scope gen_scope.
Delimit Scope gen_scope with gen.
Notation "m1 ;; m2" := (Gen.andThen m1 m2)
  (at level 100, m2 at level 200, right associativity) : gen_scope.
Open Scope gen_scope.

(** A promise of the program: a value, a rejection, or no answer within the
    model's budget. *)
Inductive Result (A : Type) :=
| Ok (a : A)
| Exception
| NoFuel.

Arguments Ok {A} _.
Arguments Exception {A}.
Arguments NoFuel {A}.

Module Result.

Definition bind {A B} (r : Result A) (f : A → Result B) : Result B :=
  match r with
  | Ok a => f a
  | Exception => Exception
  | NoFuel => NoFuel
  end.

(** [xs.some(p)] where [p] may throw. *)
Fixpoint some {A} (p : A → Result bool) (xs : list A) : Result bool :=
  match xs with
  | [] => Ok false
  | x :: rest => bind (p x) (fun b => if b then Ok true else some p rest)
  end.

(** [await r] inside a generator. *)
Definition await {S A} (r : Result A) (k : A → Gen S) : Gen S :=
  match r with
  | Ok a => k a
  | Exception => Gen.throw
  | NoFuel => Gen.outOfFuel
  end.

End Result.

(** ** Graph extraction *)

Definition jsonParse (env : Environment) (fileName file : string)
  : list Error * Json :=
  let '(reported, document) := jsonParserParse env fileName file in
  (map (fun e => JsonParseError "The file is not a valid JSON file." e
                   LevelError fileName) reported,
   document).

Fixpoint getRefs (j : Json) : list string :=
  match j with
  | JObject entries =>
      flat_map (fun kv =>
                  match kv with
                  | (k, v) =>
                      match String.eqb k "$ref", v with
                      | true, JString s => [s]
                      | _, _ => getRefs v
                      end
                  end) entries
  | JArray items => flat_map getRefs items
  | _ => []
  end.

Record Ref := { url : string; pointer : string }.

Definition parseRef (ref : string) : Ref :=
  match Js.indexOf "#" ref with
  | None => {| url := ref; pointer := "" |}
  | Some i => {| url := Js.substrTo i ref; pointer := Js.substrFrom (i + 1) ref |}
  end.

Definition getReferencedFileNames (env : Environment) (fileName : string)
    (doc : Json) : list string :=
  let dir := pathDirname env fileName in
  map (fun u => pathResolve env [pathJoin env [dir; u]])
      (filter (fun u => u ≠ "")
              (map (fun v => url (parseRef v)) (getRefs doc))).

Definition moveTo (a b : gset string) (key : string)
  : gset string * gset string :=
  (a ∖ {[key]}, b ∪ {[key]}).

Definition isExample (env : Environment) (filePath : string) : bool :=
  existsb (fun name => String.eqb name "examples")
          (Js.split (pathSep env) filePath).

Definition containsReadme (env : Environment) (folder : string) : bool :=
  let readmePath := pathResolve env [folder; "readme.md"] in
  fsExists env readmePath.

(** ** Rule set *)

(** [None]: reading [info.version] of a [null] [info] throws a [TypeError]. *)
Definition validateSpecificationAPIVersion (current : Specification)
    (document : Json) : option (list Error) :=
  match JsonOps.getProp document "info" with
  | None => Some []
  | Some JNull => None
  | Some info =>
      if negb (Js.includes (path current)
                 (JsonOps.toStringOpt (JsonOps.getProp info "version")))
      then Some [JsonFileError InconsistentApiVersion
                   "The API version of the swagger is inconsistent with its file path."
                   (readMePath current) LevelError (path current)
                   (path current)]
      else Some []
  end.

Definition validateFileLocation (current : Specification) (document : Json)
  : list Error :=
  match JsonOps.getProp document "host" with
  | Some (JString host) =>
      if String.eqb host "management.azure.com"
         && negb (Js.includes (path current) "resource-manager")
      then [JsonFileError InvalidFileLocation
              "The management plane swagger JSON file does not match its folder path. Make sure management plane swagger located in resource-manager folder"
              (readMePath current) LevelWarning (path current) (path current)]
      else []
  | _ => []
  end.

(** ** The cycle-detecting walker *)

Record WalkState := {
  graySet : gset string;
  blackSet : gset string;
}.

Definition graySetAdd (key : string) : Gen WalkState :=
  Gen.modify (fun st =>
    {| graySet := graySet st ∪ {[key]}; blackSet := blackSet st |}).

(** [moveTo(graySet, blackSet, key)]. *)
Definition moveToBlack (key : string) : Gen WalkState :=
  Gen.modify (fun st =>
    let '(gray, black) := moveTo (graySet st) (blackSet st) key in
    {| graySet := gray; blackSet := black |}).

Definition circularReference (current : Specification) : Error :=
  JsonFileError CircularReference "The JSON file has a circular reference."
    (readMePath current) LevelWarning (path current) (path current).

Definition noJsonFileFound (current : Specification) : Error :=
  JsonFileError NoJsonFileFound
    "The JSON file is not found but it is referenced from the readme file."
    (readMePath current) LevelError (path current) (path current).

(** The body of [for (const refFileName of refFileNames)]; [recur] is the
    recursive call of [DFSTraversalValidate]. *)
Definition visitReference (env : Environment)
    (recur : Specification → Gen WalkState) (current : Specification)
    (refFileName : string) : Gen WalkState :=
  Gen.when (fun st => bool_decide (refFileName ∈ graySet st))
    (Gen.yield (circularReference current) ;; moveToBlack refFileName) ;;
  Gen.when (fun st => bool_decide (refFileName ∉ blackSet st))
    (recur {| path := refFileName;
              readMePath := readMePath current;
              kind := if isExample env refFileName then EXAMPLE
                      else SWAGGER |}).

Definition isSwagger (k : Kind) : bool :=
  match k with SWAGGER => true | EXAMPLE => false end.

Definition isNull (j : Json) : bool :=
  match j with JNull => true | _ => false end.

(** What [DFSTraversalValidate] does with a file it could read, up to the
    end of its loop over the references. *)
Definition walkDocument (env : Environment)
    (recur : Specification → Gen WalkState) (current : Specification)
    (file : string) : Gen WalkState :=
  let '(errors, document) := jsonParse env (path current) file in
  Gen.yieldAll errors ;;
  (if isSwagger (kind current) && negb (isNull document) then
     match validateSpecificationAPIVersion current document with
     | Some found => Gen.yieldAll found
     | None => Gen.throw
     end ;;
     Gen.yieldAll (validateFileLocation current document)
   else Gen.skip) ;;
  let refFileNames :=
    if isSwagger (kind current)
    then getReferencedFileNames env (path current) document
    else [] in
  Gen.forEach (visitReference env recur current) refFileNames.

Fixpoint DFSTraversalValidate (env : Environment) (fuel : nat)
    (current : Specification) : Gen WalkState :=
  match fuel with
  | O => Gen.outOfFuel
  | S fuel' =>
      Gen.when (fun st => bool_decide (path current ∉ blackSet st))
        (graySetAdd (path current)) ;;
      match readFile env (path current) with
      | None => Gen.yield (noJsonFileFound current)
      | Some file =>
          walkDocument env (DFSTraversalValidate env fuel') current file ;;
          moveToBlack (path current)
      end
  end.

Definition unreferencedJsonFile (spec : Specification) : Error :=
  JsonFileError UnreferencedJsonFile
    (match kind spec with
     | SWAGGER => "The swagger JSON file is not referenced from the readme file."
     | EXAMPLE => "The example JSON file is not referenced from the swagger file."
     end)
    (readMePath spec) LevelError (path spec) (path spec).

Definition emptySets : WalkState := {| graySet := ∅; blackSet := ∅ |}.

(** The first loop of [validateInputFiles]: the walker over every root. *)
Definition traverseRoots (env : Environment) (fuel : nat)
    (inputFileSet : list Specification) : Gen WalkState :=
  Gen.forEach (DFSTraversalValidate env fuel) inputFileSet.

(** The second step of [validateInputFiles]: the files left out of
    [blackSet]. *)
Definition reportUnreferenced (allInputFileSet : list Specification)
  : Gen WalkState :=
  fun st =>
    Gen.yieldAll
      (map unreferencedJsonFile
         (filter (fun spec => path spec ∉ blackSet st) allInputFileSet)) st.

Definition validateInputFiles (env : Environment) (fuel : nat)
    (inputFileSet allInputFileSet : list Specification) : Outcome WalkState :=
  (traverseRoots env fuel inputFileSet ;; reportUnreferenced allInputFileSet)
    emptySets.

(** ** Missing-manifest detector *)

Fixpoint findTheNearestReadme (env : Environment) (fuel : nat)
    (cwd curDir : string) : Result (option string) :=
  match fuel with
  | O => NoFuel
  | S fuel' =>
      if String.eqb curDir cwd then Ok None
      else if containsReadme env curDir then Ok (Some curDir)
      else findTheNearestReadme env fuel' cwd (pathDirname env curDir)
  end.

Definition missingReadme (item : string) : Error :=
  MissingReadme LevelError
    "Can not find readme.md in the folder. If no readme.md file, it will block SDK generation."
    item item.

Definition validDirs : list string := ["data-plane"; "resource-manager"].
Definition ignoredDirs : list string := ["common"].

Definition isRPJsonFile (env : Environment) (filePath : string) : bool :=
  String.eqb (pathExtname env filePath) ".json"
  && existsb
       (fun item =>
          Js.includes filePath item
          && negb (existsb
                     (fun ignoredItem =>
                        Js.includes (Js.toLowerCase filePath) ignoredItem)
                     ignoredDirs))
       validDirs.

(** The state is [allJsonSet]. *)
Definition validateRPFolderMustContainReadme (env : Environment)
    (fuel : nat) (dir : string) : Gen (gset string) :=
  let allJsonDir :=
    Listing.map (pathDirname env)
      (Listing.filter (isRPJsonFile env) (recursiveReaddir env dir)) in
  Gen.forAwait
    (fun item allJsonSet =>
       if bool_decide (item ∈ allJsonSet) then Gen.skip allJsonSet
       else
         (Gen.modify (fun set => set ∪ {[item]}) ;;
          Result.await (findTheNearestReadme env fuel (processCwd env) item)
            (fun nearestReadme =>
               match nearestReadme with
               | None => Gen.yield (missingReadme item)
               | Some _ => Gen.skip
               end)) allJsonSet)
    allJsonDir.

(** ** Manifest findings *)

Definition validateReadMeFile (env : Environment) (readMePath : string)
  : Gen unit :=
  match readFile env readMePath with
  | None => Gen.throw
  | Some file =>
      let m := mdParse env file in
      (if negb (isAutoRestMd m) then
         Gen.yield
           (NotAutoRestMarkDown
              "The `readme.md` is not an AutoRest markdown file."
              readMePath LevelError readMePath
              "http://azure.github.io/autorest/user/literate-file-formats/configuration.html#the-file-format")
       else Gen.skip) ;;
      (if isContainsMultiVersion env m then
         Gen.yield
           (MultipleApiVersion
              "The default tag contains multiple API versions swaggers."
              readMePath (getDefaultTag env m) readMePath LevelWarning)
       else Gen.skip)
  end.

(** ** File sets of a manifest *)

(** [it.uniq()]: later duplicates are dropped. *)
Fixpoint uniqFrom (seen : gset string) (xs : list string) : list string :=
  match xs with
  | [] => []
  | x :: rest =>
      if bool_decide (x ∈ seen) then uniqFrom seen rest
      else x :: uniqFrom (seen ∪ {[x]}) rest
  end.

Definition uniq (xs : list string) : list string := uniqFrom ∅ xs.

Definition specificationOf (env : Environment) (readMePath f : string)
  : Specification :=
  {| path := f; readMePath := readMePath;
     kind := if isExample env f then EXAMPLE else SWAGGER |}.

Definition getInputFilesFromReadme (env : Environment) (readMePath : string)
  : Result (list Specification) :=
  match readFile env readMePath with
  | None => Exception
  | Some file =>
      let m := mdParse env file in
      let dir := pathDirname env readMePath in
      Ok (map (specificationOf env readMePath)
            (map (fun f => pathResolve env
                             [pathJoin env (dir :: Js.split "\" f)])
               (uniq (map (fun f => Js.replace "$(this-folder)" "." f)
                        (getInputFiles env m)))))
  end.

Definition getAllInputFilesUnderReadme (env : Environment)
    (readMePath : string) : Result (list Specification) :=
  let dir := pathDirname env readMePath in
  let jsonFiles :=
    Listing.filter
      (fun filePath => String.eqb (pathExtname env filePath) ".json")
      (recursiveReaddir env dir) in
  if rejects jsonFiles then Exception
  else Ok (map (specificationOf env readMePath) (yielded jsonFiles)).

(** [f(readMe)] for every [readMe] of a list, in order, for an [f] that may
    reject. *)
Fixpoint collectSpecifications
    (f : string → Result (list Specification)) (readMes : list string)
  : Result (list Specification) :=
  match readMes with
  | [] => Ok []
  | readMe :: rest =>
      Result.bind (f readMe) (fun specs =>
      Result.bind (collectSpecifications f rest) (fun more =>
      Ok (specs ++ more)))
  end.

(** [await allReadMeFiles.flatMap(f).fold(...)]: the promise rejects when
    [f] does or when the sequence of manifests does. *)
Definition foldSpecifications
    (f : string → Result (list Specification)) (readMes : Listing)
  : Result (list Specification) :=
  Result.bind (collectSpecifications f (yielded readMes)) (fun specs =>
  if rejects readMes then Exception else Ok specs).

Definition validateFolder (env : Environment) (fuel : nat) (dir : string)
  : Outcome unit :=
  let allReadMeFiles :=
    Listing.filter
      (fun f => String.eqb (Js.toLowerCase (pathBasename env f)) "readme.md")
      (recursiveReaddir env dir) in
  (Gen.delegate (validateRPFolderMustContainReadme env fuel dir ∅) ;;
   Gen.forAwait (validateReadMeFile env) allReadMeFiles ;;
   Result.await
     (foldSpecifications (getInputFilesFromReadme env) allReadMeFiles)
     (fun referencedFiles =>
   Result.await
     (foldSpecifications (getAllInputFilesUnderReadme env) allReadMeFiles)
     (fun allFiles =>
        Gen.delegate (validateInputFiles env fuel referencedFiles allFiles))))
    tt.

(** ** [Map<string, Error>] *)

Definition ErrorMap : Type := list (string * Error).

Module ErrorMap.

(** [map.set(k, v)]: an existing key keeps its place. *)
Fixpoint set (k : string) (v : Error) (m : ErrorMap) : ErrorMap :=
  match m with
  | [] => [(k, v)]
  | (k', v') :: rest =>
      if String.eqb k' k then (k, v) :: rest else (k', v') :: set k v rest
  end.

(** [map.get(k)]; [None] is [undefined]. *)
Definition get (k : string) (m : ErrorMap) : option Error :=
  snd <$> find (fun kv => String.eqb (fst kv) k) m.

(** [map.delete(k)]. *)
Definition delete (k : string) (m : ErrorMap) : ErrorMap :=
  List.filter (fun kv => negb (String.eqb (fst kv) k)) m.

Definition keys (m : ErrorMap) : list string := map fst m.

Definition values (m : ErrorMap) : list Error := map snd m.

End ErrorMap.

(** ** Single-directory run *)

(** [exclude.some(item => v.path.search(item) !== -1)]. *)
Definition isExcluded (env : Environment) (exclude : list string)
    (subject : string) : Result bool :=
  Result.some
    (fun item =>
       match stringSearch env subject item with
       | Some i => Ok (negb (i =? -1)%Z)
       | None => Exception
       end)
    exclude.

(** [for (const [k, v] of map) { if (...) map.delete(k) }], [entries] being
    the entries still to visit. *)
Fixpoint removeExcluded (env : Environment) (exclude : list string)
    (entries : ErrorMap) (map : ErrorMap) : Result ErrorMap :=
  match entries with
  | [] => Ok map
  | (k, v) :: rest =>
      Result.bind (isExcluded env exclude (Err.path v)) (fun excluded =>
      removeExcluded env exclude rest
        (if excluded then ErrorMap.delete k map else map))
  end.

Definition collectErrors (env : Environment) (found : list Error) : ErrorMap :=
  fold_left (fun map e => ErrorMap.set (errorCorrelationId env e) e map)
            found [].

Definition avocadoForDir (env : Environment) (fuel : nat) (dir : string)
    (exclude : list string) : Result ErrorMap :=
  Result.bind
    (if existsSync env dir then
       let run := validateFolder env fuel dir in
       match status run with
       | Finished => Ok (collectErrors env (emitted run))
       | Threw => Exception
       | OutOfFuel => NoFuel
       end
     else Ok [])
    (fun map => removeExcluded env exclude map map).

(** ** Incremental diff engine *)

(** [devOps.PullRequestProperties]; [checkout b] is the working tree, with
    everything else the program imports, after [pr.checkout(b)]. *)
Record PullRequestProperties := {
  diff : list FileChange;
  workingDir : string;
  targetBranch : string;
  sourceBranch : string;
  checkout : string → Environment;
}.

(** [set.add(x)] on a [Set<string>] that is iterated afterwards. *)
Definition orderedAdd (x : string) (set : list string) : list string :=
  if bool_decide (x ∈ set) then set else set ++ [x].

(** The loop "remove existing errors" of [avocadoForDevOps]. *)
Definition removeExistingErrors (env : Environment)
    (fileChanges : list FileChange) (targetMap sourceMap : ErrorMap)
  : ErrorMap :=
  fold_left
    (fun sourceMap e =>
       match ErrorMap.get e sourceMap with
       | Some error =>
           if negb (isPRRelatedError env fileChanges error)
           then ErrorMap.delete e sourceMap
           else sourceMap
       | None => sourceMap
       end)
    (ErrorMap.keys targetMap) sourceMap.

(** The body of [for (const dir of readmeDirs)]. *)
Definition compareBranches {S} (env : Environment) (fuel : nat)
    (pr : PullRequestProperties) (exclude : list string) (dir : string)
  : Gen S :=
  Result.await
    (avocadoForDir (checkout pr (targetBranch pr)) fuel
       (pathResolve env [workingDir pr; dir]) exclude)
    (fun targetMap =>
  Result.await
    (avocadoForDir (checkout pr (sourceBranch pr)) fuel
       (pathResolve env [workingDir pr; dir]) exclude)
    (fun sourceMap =>
       let fileChanges := diff pr in
       Gen.yieldAll
         (ErrorMap.values
            (removeExistingErrors env fileChanges targetMap sourceMap)))).

(** The body of [for (const item of swaggerParentDirs)]; the state is
    [readmeDirs]. *)
Definition locateReadme (env : Environment) (fuel : nat)
    (pr : PullRequestProperties) (exclude : list string) (item : string)
  : Gen (list string) :=
  Result.await (findTheNearestReadme env fuel (workingDir pr) item)
    (fun readmeDir =>
       match readmeDir with
       | Some d => Gen.modify (orderedAdd d)
       | None =>
           Result.await (isExcluded env exclude item)
             (fun excluded =>
                if negb excluded then Gen.yield (missingReadme item)
                else Gen.skip)
       end).

Definition swaggerParentDirs (env : Environment)
    (pr : PullRequestProperties) : list string :=
  let changedSwaggerFilePath := map fc_path (diff pr) in
  fold_left (fun set item => orderedAdd item set)
    (filter (fun item => item ≠ workingDir pr)
       (map (fun item => pathDirname env (pathResolve env [workingDir pr; item]))
          changedSwaggerFilePath))
    [].

Definition avocadoForDevOps (env : Environment) (fuel : nat)
    (pr : PullRequestProperties) (exclude : list string)
  : Outcome (list string) :=
  (Gen.forEach (locateReadme env fuel pr exclude) (swaggerParentDirs env pr) ;;
   (fun readmeDirs =>
      Gen.forEach (compareBranches env fuel pr exclude) readmeDirs readmeDirs))
    [].

(** ** The entry point *)

(** [cli.Config]: the program reads [cwd], [args.dir] and
    [args.excludePaths]; [None] is [undefined]. *)
Record Args := {
  args_dir : option string;
  args_excludePaths : option (list string);
}.

Record Config := {
  config_cwd : string;
  config_args : option Args;
}.

(** [exclude]: [config.args.excludePaths] when [config.args] and it are
    truthy (an array is, even an empty one), else [[]]. *)
Definition excludeOf (config : Config) : list string :=
  match config_args config with
  | Some args => default [] (args_excludePaths args)
  | None => []
  end.

(** [dir]: [config.args.dir] when [config.args] and it are truthy, else
    ['.']. *)
Definition dirOf (config : Config) : string :=
  match config_args config with
  | Some args =>
      if truthyString (args_dir args) then default "." (args_dir args)
      else "."
  | None => "."
  end.

(** [createPullRequestProperties] is [devOps.createPullRequestProperties],
    of [./dev-ops]: what it answers for the configuration, [None] being
    [undefined], no pull request. *)
Definition avocado (env : Environment) (fuel : nat)
    (createPullRequestProperties :
       Config → Result (option PullRequestProperties))
    (config : Config) : Outcome unit :=
  Result.await (createPullRequestProperties config)
    (fun pr =>
       let exclude := excludeOf config in
       match pr with
       | Some pr => Gen.delegate (avocadoForDevOps env fuel pr exclude)
       | None =>
           let dir := dirOf config in
           Result.await
             (avocadoForDir env fuel
                (pathResolve env [config_cwd config; dir]) exclude)
             (fun map => Gen.yieldAll (ErrorMap.values map))
       end)
    tt.

(** ** Sample trees

    Environments for the examples below.  Paths are free of dot segments,
    so [path.join] and [path.resolve] amount to joining with [/];
    the text of a file is looked up in [files], what the parsers return for a
    text in [documents], [markdowns] and [yamls]; a directory exists when
    a file lies below it, and listing any other path rejects; exclusion
    patterns are plain text, for which [search] is a substring search. *)

Module Sample.

Definition dirname (p : string) : string :=
  Js.join "/" (removelast (Js.split "/" p)).

Definition basename (p : string) : string :=
  List.last (Js.split "/" p) "".

Definition extname (p : string) : string :=
  match Js.split "." (basename p) with
  | [] | [_] => ""
  | parts => "." +:+ List.last parts ""
  end.

(** [path.resolve]: a later absolute path replaces what precedes it. *)
Definition resolve (parts : list string) : string :=
  fold_left
    (fun resolved part =>
       if String.prefix "/" part || String.eqb resolved "" then part
       else resolved +:+ "/" +:+ part)
    parts "".

Definition lookup {A} (k : string) (table : list (string * A)) : option A :=
  snd <$> find (fun kv => String.eqb (fst kv) k) table.

Fixpoint searchFrom (i : Z) (subject pattern : string) : Z :=
  if String.prefix pattern subject then i
  else match subject with
       | EmptyString => (-1)%Z
       | String _ rest => searchFrom (i + 1)%Z rest pattern
       end.

Definition codeName (c : Code) : string :=
  match c with
  | UNREFERENCED_JSON_FILE => "UNREFERENCED_JSON_FILE"
  | NO_JSON_FILE_FOUND => "NO_JSON_FILE_FOUND"
  | NOT_AUTOREST_MARKDOWN => "NOT_AUTOREST_MARKDOWN"
  | JSON_PARSE => "JSON_PARSE"
  | CIRCULAR_REFERENCE => "CIRCULAR_REFERENCE"
  | MISSING_README => "MISSING_README"
  | INCONSISTENT_API_VERSION => "INCONSISTENT_API_VERSION"
  | MULTIPLE_API_VERSION => "MULTIPLE_API_VERSION"
  | INVALID_FILE_LOCATION => "INVALID_FILE_LOCATION"
  end.

Definition hash (o : KeyObject) : string :=
  codeName (ko_code o) +:+ "|" +:+ ko_url o +:+ "|" +:+
  match ko_position o with
  | Some p => pretty (line p) +:+ ":" +:+ pretty (column p)
  | None => ""
  end.

(** Modelled from the spec: [devOps.isPRRelatedError] of [./dev-ops], which
    is not among the sources.  A finding is related to the change when "the
    underlying changed-file set" intersects "the Finding's attributed
    paths"; the attributed path of a finding is its [path]. *)
Definition prRelated (fileChanges : list FileChange) (error : Error) : bool :=
  existsb (fun change => String.eqb (fc_path change) (Err.path error))
          fileChanges.

Record Tree := {
  files : list (string * string);
  documents : list (string * (list ParseError * Json));
  markdowns : list (string * MdNode);
  codeBlocks : list (string * MdNode);
  yamls : list (string * Json);
  tagInputFiles : list (string * list string);
  inputFiles : list string;
}.

Definition environment (t : Tree) : Environment :=
  {| readFile p := lookup p (files t);
     fsExists p := bool_decide (is_Some (lookup p (files t)));
     existsSync p :=
       existsb (fun kv => String.prefix (p +:+ "/") (fst kv)) (files t);
     recursiveReaddir dir :=
       {| yielded := List.filter (fun p => String.prefix (dir +:+ "/") p)
                       (map fst (files t));
          rejects :=
            negb (existsb (fun kv => String.prefix (dir +:+ "/") (fst kv))
                    (files t)) |};
     processCwd := "/repo";
     pathSep := "/";
     pathDirname := dirname;
     pathBasename := basename;
     pathExtname := extname;
     pathJoin := Js.join "/";
     pathResolve := resolve;
     jsonParserParse _ text := default ([], JNull) (lookup text (documents t));
     mdParse text :=
       default (MkMdNode "document" None None []) (lookup text (markdowns t));
     getCodeBlocksAndHeadings _ := codeBlocks t;
     getInputFilesForTag _ tag :=
       match tag with
       | JString name => lookup name (tagInputFiles t)
       | _ => None
       end;
     getInputFiles _ := inputFiles t;
     yamlSafeLoad text := Some (lookup text (yamls t));
     objectHash := hash;
     stringSearch subject pattern := Some (searchFrom 0 subject pattern);
     isPRRelatedError := prRelated |}.

(** A document with one property for each of [targets], named after it,
    whose value is a reference to it. *)
Definition refsTo (targets : list string) : Json :=
  JObject (map (fun target => (target, JObject [("$ref", JString target)]))
             targets).

Definition swagger (p : string) : Specification :=
  {| path := p; readMePath := "/s/readme.md"; kind := SWAGGER |}.

(** [A.json] refers to [B.json] and [C.json], [B.json] and [C.json] refer
    back to [A.json]; [D.json] does not exist. *)
Definition tree : Environment :=
  environment
    {| files := [("/s/A.json", "text of A"); ("/s/B.json", "text of B");
                 ("/s/C.json", "text of C")];
       documents := [("text of A", ([], refsTo ["B.json"; "C.json"]));
                     ("text of B", ([], refsTo ["A.json"]));
                     ("text of C", ([], refsTo ["A.json"]))];
       markdowns := []; codeBlocks := []; yamls := []; tagInputFiles := [];
       inputFiles := [] |}.

(** [A.json] and [B.json] refer to each other. *)
Definition pair : Environment :=
  environment
    {| files := [("/s/A.json", "text of A"); ("/s/B.json", "text of B")];
       documents := [("text of A", ([], refsTo ["B.json"]));
                     ("text of B", ([], refsTo ["A.json"]))];
       markdowns := []; codeBlocks := []; yamls := []; tagInputFiles := [];
       inputFiles := [] |}.

Definition autoRestMarkDown : MdNode :=
  MkMdNode "document" None None
    [MkMdNode "block_quote" None None
       [MkMdNode "paragraph" None None
          [MkMdNode "text" (Some "see https://aka.ms/autorest") None []]]].

(** A manifest that declares [a.json]; [orphan.json] lies beside it. *)
Definition repo : Environment :=
  environment
    {| files := [("/repo/rm/readme.md", "manifest");
                 ("/repo/rm/2020-01-01/a.json", "text of a");
                 ("/repo/rm/2020-01-01/orphan.json", "text of orphan")];
       documents :=
         [("text of a",
           ([], JObject [("info",
                          JObject [("version", JString "2020-01-01")])]));
          ("text of orphan", ([], JObject []))];
       markdowns := [("manifest", autoRestMarkDown)];
       codeBlocks := []; yamls := []; tagInputFiles := [];
       inputFiles := ["2020-01-01/a.json"] |}.

(** A pull request that touches [a.json] only, on a tree that is the same
    on both branches. *)
Definition pullRequest : PullRequestProperties :=
  {| diff := [{| fc_path := "rm/2020-01-01/a.json"; fc_kind := "Modified" |}];
     workingDir := "/repo";
     targetBranch := "main";
     sourceBranch := "feature";
     checkout _ := repo |}.

Definition basicInformation : list (string * MdNode) :=
  [("Basic Information",
    MkMdNode "code_block" (Some "tag: package-2021") (Some "yaml") [])].

(** The default tag lists two files, each directly under a directory named
    after a version. *)
Definition flatManifest : Environment :=
  environment
    {| files := [("/m/readme.md", "manifest")];
       documents := [];
       markdowns := [("manifest", autoRestMarkDown)];
       codeBlocks := basicInformation;
       yamls := [("tag: package-2021",
                  JObject [("tag", JString "package-2021")])];
       tagInputFiles :=
         [("package-2021", ["2020-01-01/a.json"; "2021-01-01/b.json"])];
       inputFiles := ["2020-01-01/a.json"; "2021-01-01/b.json"] |}.

(** The same two versions, each two directories deep. *)
Definition nestedManifest : Environment :=
  environment
    {| files := [("/m/readme.md", "manifest")];
       documents := [];
       markdowns := [("manifest", autoRestMarkDown)];
       codeBlocks := basicInformation;
       yamls := [("tag: package-2021",
                  JObject [("tag", JString "package-2021")])];
       tagInputFiles :=
         [("package-2021",
           ["stable/2020-01-01/a.json"; "stable/2021-01-01/b.json"])];
       inputFiles :=
         ["stable/2020-01-01/a.json"; "stable/2021-01-01/b.json"] |}.

End Sample.

(** ** More sample trees *)

Module Trees.

(** [A.json] refers to [B.json], which refers to nothing. *)
Definition chain : Environment :=
  Sample.environment
    {| Sample.files := [("/s/A.json", "text of A"); ("/s/B.json", "text of B")];
       Sample.documents :=
         [("text of A", ([], Sample.refsTo ["B.json#/definitions/Pet"]));
          ("text of B", ([], Sample.refsTo ["#/definitions/Pet"]))];
       Sample.markdowns := []; Sample.codeBlocks := []; Sample.yamls := [];
       Sample.tagInputFiles := []; Sample.inputFiles := [] |}.

(** [A.json] refers to an example, and the example refers to itself. *)
Definition withExample : Environment :=
  Sample.environment
    {| Sample.files := [("/s/A.json", "text of A");
                        ("/s/examples/e.json", "text of e")];
       Sample.documents :=
         [("text of A", ([], Sample.refsTo ["examples/e.json"]));
          ("text of e", ([], Sample.refsTo ["e.json"]))];
       Sample.markdowns := []; Sample.codeBlocks := []; Sample.yamls := [];
       Sample.tagInputFiles := []; Sample.inputFiles := [] |}.

(** [A.json] and [B.json] refer to each other, and [A.json] declares its
    [info] as [null]. *)
Definition nullInfo : Environment :=
  Sample.environment
    {| Sample.files := [("/s/A.json", "text of A"); ("/s/B.json", "text of B")];
       Sample.documents :=
         [("text of A",
           ([], JObject [("swagger", JString "2.0"); ("info", JNull);
                         ("b", JObject [("$ref", JString "B.json")])]));
          ("text of B",
           ([], JObject [("swagger", JString "2.0");
                         ("a", JObject [("$ref", JString "A.json")])]))];
       Sample.markdowns := []; Sample.codeBlocks := []; Sample.yamls := [];
       Sample.tagInputFiles := []; Sample.inputFiles := [] |}.

(** [Sample.repo] with files that are listed but cannot be read. *)
Definition locked : Environment :=
  {| readFile _ := None;
     fsExists := fsExists Sample.repo;
     existsSync := existsSync Sample.repo;
     recursiveReaddir := recursiveReaddir Sample.repo;
     processCwd := processCwd Sample.repo;
     pathSep := pathSep Sample.repo;
     pathDirname := pathDirname Sample.repo;
     pathBasename := pathBasename Sample.repo;
     pathExtname := pathExtname Sample.repo;
     pathJoin := pathJoin Sample.repo;
     pathResolve := pathResolve Sample.repo;
     jsonParserParse := jsonParserParse Sample.repo;
     mdParse := mdParse Sample.repo;
     getCodeBlocksAndHeadings := getCodeBlocksAndHeadings Sample.repo;
     getInputFilesForTag := getInputFilesForTag Sample.repo;
     getInputFiles := getInputFiles Sample.repo;
     yamlSafeLoad := yamlSafeLoad Sample.repo;
     objectHash := objectHash Sample.repo;
     stringSearch := stringSearch Sample.repo;
     isPRRelatedError := isPRRelatedError Sample.repo |}.

(** A resource provider: a manifest, and one specification in a folder
    beside it. *)
Definition provider : Environment :=
  Sample.environment
    {| Sample.files :=
         [("/repo/specification/compute/resource-manager/readme.md",
           "manifest");
          ("/repo/specification/compute/resource-manager/stable/api.json",
           "text of api")];
       Sample.documents := [("text of api", ([], JObject []))];
       Sample.markdowns := [("manifest", Sample.autoRestMarkDown)];
       Sample.codeBlocks := []; Sample.yamls := []; Sample.tagInputFiles := [];
       Sample.inputFiles := ["stable/api.json"] |}.

(** A pull request on [Sample.repo] that touches [orphan.json]. *)
Definition orphanChanged : PullRequestProperties :=
  {| diff := [{| fc_path := "/repo/rm/2020-01-01/orphan.json";
                 fc_kind := "Modified" |}];
     workingDir := "/repo";
     targetBranch := "main";
     sourceBranch := "feature";
     checkout _ := Sample.repo |}.

(** A pull request on [Sample.repo] that touches [a.json] and a file in a
    directory without a manifest; the tree is the same on both branches. *)
Definition notesChanged : PullRequestProperties :=
  {| diff := [{| fc_path := "docs/notes.txt"; fc_kind := "Added" |};
              {| fc_path := "rm/2020-01-01/a.json"; fc_kind := "Modified" |}];
     workingDir := "/repo";
     targetBranch := "main";
     sourceBranch := "feature";
     checkout _ := Sample.repo |}.

(** A pull request that touches a file of the working directory only. *)
Definition licenseChanged : PullRequestProperties :=
  {| diff := [{| fc_path := "LICENSE"; fc_kind := "Modified" |}];
     workingDir := "/repo";
     targetBranch := "main";
     sourceBranch := "feature";
     checkout _ := Sample.repo |}.

(** No pull request; the directory to check is [rm]. *)
Definition noPullRequest (config : Config)
  : Result (option PullRequestProperties) := Ok None.

Definition checkRm : Config :=
  {| config_cwd := "/repo";
     config_args := Some {| args_dir := Some "rm";
                            args_excludePaths := Some ["a.json"] |} |}.

End Trees.

(** * Vocabulary of the properties *)

(** [set_solver] clears hypotheses it has already consumed. *)
#[global] Set Warnings "-clear-no-such-hyp".

(** [c] does not occur in [s]. *)
Definition freeOf (c : ascii) (s : string) : Prop := Js.indexOf c s = None.

(** What every run of the walker, and of each of its parts, guarantees from
    the sets [st] it starts with to the outcome [o]. *)
Record Walked (env : Environment) (st : WalkState)
    (o : Outcome WalkState) : Prop := {
  walked_black : blackSet st ⊆ blackSet (final o);
  walked_coloured :
    graySet st ∪ blackSet st ⊆ graySet (final o) ∪ blackSet (final o);
  walked_disjoint :
    graySet st ## blackSet st → graySet (final o) ## blackSet (final o);
  walked_gray :
    status o = Finished →
    ∀ p, p ∈ graySet (final o) → p ∈ graySet st ∨ readFile env p = None;
  walked_codes :
    Forall (λ e, Err.code e ≠ UNREFERENCED_JSON_FILE) (emitted o);
}.

(** The sets after the first statement of [DFSTraversalValidate]. *)
Definition entered (current : Specification) (st : WalkState) : WalkState :=
  if bool_decide (path current ∉ blackSet st)
  then {| graySet := graySet st ∪ {[path current]}; blackSet := blackSet st |}
  else st.

(** The paths of [universe] that are neither gray nor black. *)
Definition uncoloured (universe : gset string) (st : WalkState)
  : gset string :=
  universe ∖ (graySet st ∪ blackSet st).

(** The budget that suffices for a visit. *)
Definition inBudget (env : Environment) (universe : gset string) (n : nat)
  : Prop :=
  ∀ current st,
    size (universe ∖ (graySet st ∪ blackSet st ∪ {[path current]})) < n →
    status (DFSTraversalValidate env n current st) ≠ OutOfFuel.

(** With a finite set of readable files, the references of all of them form
    a finite universe. *)
Definition referenceUniverse (env : Environment) (files : list string)
  : gset string :=
  list_to_set
    (flat_map
       (λ p, match readFile env p with
             | Some file =>
                 getReferencedFileNames env p (jsonParse env p file).2
             | None => []
             end) files).

(** [recur] does what [recur'] does wherever [recur'] has budget enough. *)
Definition extends (recur recur' : Specification → Gen WalkState) : Prop :=
  ∀ spec st, status (recur' spec st) ≠ OutOfFuel → recur spec st = recur' spec st.

(** What the rule set yields for a [SWAGGER] file whose [info] is not
    [null]. *)
Definition ruleFindings (current : Specification) (document : Json)
  : list Error :=
  if negb (isNull document) then
    default [] (validateSpecificationAPIVersion current document)
    ++ validateFileLocation current document
  else [].

(** The tag declared by the code block of the "Basic Information" section. *)
Definition basicInformationTag (env : Environment) (markDown : MdNode)
  : option Json :=
  match blockOf (getCodeBlocksAndHeadings env markDown) "Basic Information" with
  | Some block =>
      if truthyString (Md.literal block)
      then definitionTag (safeLoad env (default "" (Md.literal block)))
      else None
  | None => None
  end.

(** The tag declared by the code block under the key [idx], when the block
    is tagged yaml or json. *)
Definition yamlBlockTag (env : Environment) (markDown : MdNode)
    (idx : string) : option Json :=
  match blockOf (getCodeBlocksAndHeadings env markDown) idx with
  | Some block =>
      if truthyString (Md.info block) && truthyString (Md.literal block)
         && isYamlOrJson (default "" (Md.info block))
      then definitionTag (safeLoad env (default "" (Md.literal block)))
      else None
  | None => None
  end.

(** [v] is the version [getVersionFromInputFile] extracts from one of
    [files]. *)
Definition versionOf (files : list string) (v : string) : Prop :=
  ∃ f, f ∈ files ∧ getVersionFromInputFile f = Some v.

(** ** Further vocabulary *)

(** [s] is the string value of a [$ref] key somewhere in [j], at any depth
    of objects and arrays. *)
Inductive RefAt : Json → string → Prop :=
| RefAt_here (entries : list (string * Json)) (s : string) :
    ("$ref", JString s) ∈ entries → RefAt (JObject entries) s
| RefAt_entry (entries : list (string * Json)) (k : string) (v : Json)
    (s : string) :
    (k, v) ∈ entries → RefAt v s → RefAt (JObject entries) s
| RefAt_item (items : list Json) (x : Json) (s : string) :
    x ∈ items → RefAt x s → RefAt (JArray items) s.

(** The [k]-th directory above [p]: [path.dirname] applied [k] times, the
    value of [curDir] after [k] rounds of the loop of
    [findTheNearestReadme]. *)
Definition ancestor (env : Environment) (k : nat) (p : string) : string :=
  Nat.iter k (pathDirname env) p.

(** The loop of [findTheNearestReadme] has gone [k] rounds from [p] without
    stopping: none of the first [k] directories is [cwd] or holds a
    manifest. *)
Definition climbs (env : Environment) (cwd p : string) (k : nat) : Prop :=
  ∀ j, j < k →
    ancestor env j p ≠ cwd ∧ containsReadme env (ancestor env j p) = false.

(** The body of [for await (const item of allJsonDir)] in
    [validateRPFolderMustContainReadme]. *)
Definition checkFolder (env : Environment) (fuel : nat) (item : string)
  : Gen (gset string) :=
  fun allJsonSet =>
    if bool_decide (item ∈ allJsonSet) then Gen.skip allJsonSet
    else
      (Gen.modify (fun set => set ∪ {[item]}) ;;
       Result.await (findTheNearestReadme env fuel (processCwd env) item)
         (fun nearestReadme =>
            match nearestReadme with
            | None => Gen.yield (missingReadme item)
            | Some _ => Gen.skip
            end)) allJsonSet.

(** The kind [getInputFilesFromReadme], [getAllInputFilesUnderReadme] and
    the walker give the Specification of the path [p]. *)
Definition kindOf (env : Environment) (p : string) : Kind :=
  if isExample env p then EXAMPLE else SWAGGER.

(** What a visit yields for the file itself, before it follows the
    references of the file; [None] when the rule set throws. *)
Definition ownFindings (env : Environment) (current : Specification)
    (file : string) : option (list Error) :=
  let '(errors, document) := jsonParse env (path current) file in
  if isSwagger (kind current) && negb (isNull document) then
    match validateSpecificationAPIVersion current document with
    | Some found =>
        Some (errors ++ found ++ validateFileLocation current document)
    | None => None
    end
  else Some errors.

(** The value of [refFileNames] in a visit of [current]. *)
Definition followed (env : Environment) (current : Specification)
    (file : string) : list string :=
  if isSwagger (kind current)
  then getReferencedFileNames env (path current)
         (jsonParse env (path current) file).2
  else [].

(** The edges of the reference graph: the files the walker goes to from
    [p], which are the files [p] refers to when [p] can be read and is no
    example. *)
Definition refsOf (env : Environment) (p : string) : list string :=
  match readFile env p with
  | Some file =>
      if isExample env p then []
      else getReferencedFileNames env p (jsonParse env p file).2
  | None => []
  end.

(** [p] is one of [roots] or is reached from one through [refsOf]. *)
Inductive reachable (env : Environment) (roots : list Specification)
  : string → Prop :=
| reachable_root (root : Specification) :
    root ∈ roots → reachable env roots (path root)
| reachable_ref (p r : string) :
    reachable env roots p → r ∈ refsOf env p → reachable env roots r.

(** The paths that are gray or black. *)
Definition coloured (st : WalkState) : gset string :=
  graySet st ∪ blackSet st.

(** Every coloured path whose visit is not under way ([stack] holds the
    paths whose visit is) has all the files it refers to coloured. *)
Definition closedUnder (env : Environment) (stack : gset string)
    (st : WalkState) : Prop :=
  ∀ p, p ∈ coloured st → p ∉ stack →
    ∀ r, r ∈ refsOf env p → r ∈ coloured st.

(** Every coloured path is reachable from [roots]. *)
Definition withinReach (env : Environment) (roots : list Specification)
    (st : WalkState) : Prop :=
  ∀ p, p ∈ coloured st → reachable env roots p.

(** [r] is a file [p] refers to. *)
Definition refersTo (env : Environment) (p r : string) : Prop :=
  r ∈ refsOf env p.

(** A finding made for a file under the manifest [readMe]: a parse error
    of the file, or a finding that names the manifest as [readMeUrl] and
    the file as both [jsonUrl] and [path]. *)
Definition foundUnder (readMe : string) (e : Error) : Prop :=
  match e with
  | JsonParseError _ error level p => level = LevelError
  | JsonFileError _ _ readMeUrl _ jsonUrl p =>
      readMeUrl = readMe ∧ jsonUrl = p
  | _ => False
  end.

(** The file [p], when it can be read, has been validated: what a visit
    yields for [p] itself, under some manifest, is among [es]. *)
Definition validatedIn (env : Environment) (es : list Error) (p : string)
  : Prop :=
  ∀ file, readFile env p = Some file →
    ∃ readMe found,
      ownFindings env
        {| path := p; readMePath := readMe; kind := kindOf env p |} file
      = Some found
      ∧ ∀ e, e ∈ found → e ∈ es.

(** The paths of [black] can be ranked so that each of them refers to
    paths of [black] of lower rank only. *)
Definition ranked (env : Environment) (black : gset string) : Prop :=
  ∃ (rank : string → nat) (bound : nat),
    (∀ p, p ∈ black → rank p < bound)
    ∧ ∀ p r, p ∈ black → r ∈ refsOf env p → r ∈ black ∧ rank r < rank p.

(** The value of [allReadMeFiles] in [validateFolder]. *)
Definition allReadMeFilesOf (env : Environment) (dir : string)
  : list string :=
  List.filter
    (fun f => String.eqb (Js.toLowerCase (pathBasename env f)) "readme.md")
    (yielded (recursiveReaddir env dir)).

(** The value of [allJsonDir] in [validateRPFolderMustContainReadme], as
    far as it is yielded. *)
Definition allJsonDirOf (env : Environment) (dir : string) : list string :=
  map (pathDirname env)
    (List.filter (isRPJsonFile env) (yielded (recursiveReaddir env dir))).

(** The level the program gives the findings of a code. *)
Definition levelOf (c : Code) : Level :=
  match c with
  | CIRCULAR_REFERENCE | MULTIPLE_API_VERSION | INVALID_FILE_LOCATION =>
      LevelWarning
  | _ => LevelError
  end.

(** A finding as the program makes them: its level is the level of its
    code, and the url it carries is its path. *)
Definition wellFormed (e : Error) : Prop :=
  Err.level e = levelOf (Err.code e)
  ∧ match e with
    | JsonParseError _ _ _ _ => True
    | JsonFileError code _ _ _ jsonUrl p =>
        jsonUrl = p
        ∧ (code = InvalidFileLocation →
           Js.includes p "resource-manager" = false)
    | NotAutoRestMarkDown _ readMeUrl _ p _ => readMeUrl = p
    | MultipleApiVersion _ readMeUrl tag p _ =>
        readMeUrl = p ∧ ∃ t, tag = Some t ∧ JsonOps.truthy t = true
    | MissingReadme _ _ p folderUrl => folderUrl = p
    end.

#[global] Instance Result_eq_dec {A : Type} `{EqDecision A}
  : EqDecision (Result A).
Proof. solve_decision. Defined.

(** * Properties *)

(** ** Splitting and joining paths *)

Lemma freeOf_cons c d s :
  freeOf c (String d s) ↔ Ascii.eqb d c = false ∧ freeOf c s.
Proof.
  unfold freeOf. simpl. destruct (Ascii.eqb d c).
  - split; [done|]. by intros [? _].
  - destruct (Js.indexOf c s); simpl; split; try done. by intros [_ ?].
Qed.

Lemma split_free sep s : freeOf sep s → Js.split sep s = [s].
Proof.
  induction s as [|d s IH]; [done|].
  intros [Hd Hs]%freeOf_cons. simpl. by rewrite Hd, (IH Hs).
Qed.

Lemma split_app_sep sep s rest :
  freeOf sep s →
  Js.split sep (s +:+ String sep rest) = s :: Js.split sep rest.
Proof.
  induction s as [|d s IH]; intros Hfree; simpl.
  - by rewrite Ascii.eqb_refl.
  - apply freeOf_cons in Hfree as [Hd Hs]. by rewrite Hd, (IH Hs).
Qed.

Lemma split_join sep segs :
  segs ≠ [] → Forall (freeOf sep) segs →
  Js.split sep (Js.join (String sep "") segs) = segs.
Proof.
  induction segs as [|seg rest IH]; [done|]. intros _ Hfree.
  apply Forall_cons in Hfree as [Hseg Hrest].
  destruct rest as [|seg' rest']; simpl.
  - by apply split_free.
  - change (seg +:+ String sep "" +:+ ?r) with (seg +:+ String sep r).
    rewrite split_app_sep by done. f_equal. by apply IH.
Qed.

Lemma split_nonempty sep p : Js.split sep p ≠ [].
Proof.
  destruct p as [|c p]; [done|]. simpl.
  destruct (Ascii.eqb c sep); [done|]. by destruct (Js.split sep p).
Qed.

Lemma split_segments_free sep p : Forall (freeOf sep) (Js.split sep p).
Proof.
  induction p as [|c p IH]; simpl.
  { by repeat constructor. }
  destruct (Ascii.eqb c sep) eqn:Hc.
  - by constructor.
  - destruct (Js.split sep p) as [|seg segs].
    + constructor; [|done]. by apply freeOf_cons.
    + apply Forall_cons in IH as [Hseg Hsegs]. constructor; [|done].
      by apply freeOf_cons.
Qed.

Lemma join_split sep p : Js.join (String sep "") (Js.split sep p) = p.
Proof.
  induction p as [|c p IH]; [done|]. simpl.
  destruct (Ascii.eqb_spec c sep) as [->|Hc].
  - pose proof (split_nonempty sep p). simpl.
    destruct (Js.split sep p) as [|seg segs]; [done|]. simpl in *.
    by rewrite IH.
  - destruct (Js.split sep p) as [|seg [|seg' segs]]; simpl in *;
      by rewrite <- IH.
Qed.

(** Every path is a list of directories and a file name joined by [/]. *)
Lemma path_decomposition (p : string) :
  ∃ dirs name, p = Js.join "/" (dirs ++ [name])
    ∧ Forall (freeOf "/") dirs ∧ freeOf "/" name.
Proof.
  pose proof (split_segments_free "/" p) as Hfree.
  pose proof (join_split "/" p) as Hjoin.
  destruct (exists_last (split_nonempty "/" p)) as (dirs & name & Hsplit).
  rewrite Hsplit in Hfree, Hjoin. apply Forall_app in Hfree as [Hdirs Hname].
  exists dirs, name. split_and!; [done..|].
  by apply Forall_cons in Hname as [? _].
Qed.

Lemma find_first {A} (p : A → bool) (l : list A) (x : A) :
  find p l = Some x →
  ∃ pre post, l = pre ++ x :: post ∧ p x = true
              ∧ Forall (λ y, p y = false) pre.
Proof.
  induction l as [|a l IH]; [done|]. simpl.
  destruct (p a) eqn:Ha.
  - intros [= ->]. by exists [], l.
  - intros (pre & post & -> & Hx & Hpre)%IH.
    exists (a :: pre), post. split_and!; [done..|]. by constructor.
Qed.

Lemma find_is_Some {A} (p : A → bool) (l : list A) (x : A) :
  x ∈ l → p x = true → is_Some (find p l).
Proof.
  induction 1 as [x l|x y l Hin IH]; simpl; intros Hx.
  - rewrite Hx. by eexists.
  - destruct (p y); simpl; [by eexists|]. by apply IH.
Qed.

(** ** Version segment of an input file (C10) *)

Lemma getVersionFromInputFile_segments dirs name :
  Forall (freeOf "/") dirs → freeOf "/" name →
  getVersionFromInputFile (Js.join "/" (dirs ++ [name])) =
    if (1 <? length dirs)%nat then find apiVersionRegex dirs else None.
Proof.
  intros Hdirs Hname. unfold getVersionFromInputFile.
  rewrite split_join, removelast_last; [done|by destruct dirs|].
  apply Forall_app. split; [done|]. by constructor.
Qed.

(** C10.  [getVersionFromInputFile] looks at the directory segments of the
    path only: for a path made of the directories [dirs] and the file name
    [name], the result is the first directory matching the date pattern when
    there are at least two directories and [undefined] otherwise; so it does
    not depend on the file name, it is [undefined] when fewer than two
    segments precede the file name, a version it returns is the first
    matching directory, and with two directories or more a matching
    directory is found. *)
Theorem getVersionFromInputFile_directories_only
    (dirs : list string) (name : string) :
  Forall (freeOf "/") dirs → freeOf "/" name →
  let result := getVersionFromInputFile (Js.join "/" (dirs ++ [name])) in
  result = (if (1 <? length dirs)%nat then find apiVersionRegex dirs else None)
  ∧ (∀ name', freeOf "/" name' →
       getVersionFromInputFile (Js.join "/" (dirs ++ [name'])) = result)
  ∧ ((length dirs < 2)%nat → result = None)
  ∧ (∀ v, result = Some v →
       ∃ pre post, dirs = pre ++ v :: post ∧ apiVersionRegex v = true
                   ∧ Forall (λ d, apiVersionRegex d = false) pre)
  ∧ ((2 ≤ length dirs)%nat → ∀ d, d ∈ dirs → apiVersionRegex d = true →
       is_Some result).
Proof.
  intros Hdirs Hname result.
  assert (Hresult : result =
    if (1 <? length dirs)%nat then find apiVersionRegex dirs else None)
    by by apply getVersionFromInputFile_segments.
  split_and!.
  - done.
  - intros name' Hname'. rewrite Hresult.
    by apply getVersionFromInputFile_segments.
  - intros Hlen. rewrite Hresult.
    destruct (Nat.ltb_spec 1 (length dirs)); [lia|done].
  - intros v. rewrite Hresult.
    destruct (1 <? length dirs)%nat; [|done]. apply find_first.
  - intros Hlen d Hd Hmatch. rewrite Hresult.
    destruct (Nat.ltb_spec 1 (length dirs)); [|lia].
    by eapply find_is_Some.
Qed.

Lemma getVersionFromInputFile_directories_only_witness :
  Forall (freeOf "/") ["specification"; "compute"; "2020-01-01"; "2021-02-02"]
  ∧ freeOf "/" "2019-09-09"
  ∧ getVersionFromInputFile
      "specification/compute/2020-01-01/2021-02-02/2019-09-09"
    = Some "2020-01-01".
Proof.
  assert (Hdirs : Forall (freeOf "/")
            ["specification"; "compute"; "2020-01-01"; "2021-02-02"])
    by (repeat constructor).
  assert (Hname : freeOf "/" "2019-09-09") by reflexivity.
  split_and!; [done..|].
  exact (proj1 (getVersionFromInputFile_directories_only _ _ Hdirs Hname)).
Defined.

(** ** Correlation keys (C7) *)

(** C7.  The correlation key of a finding is a function of its code and of
    the fields the code projects: the JSON url for [UNREFERENCED_JSON_FILE],
    [CIRCULAR_REFERENCE], [INCONSISTENT_API_VERSION] and
    [INVALID_FILE_LOCATION], the manifest url for [NO_JSON_FILE_FOUND],
    [NOT_AUTOREST_MARKDOWN] and [MULTIPLE_API_VERSION], the folder url for
    [MISSING_README], the parser's url and position for [JSON_PARSE].  Two
    findings of one code that agree on these have the same key, whatever
    their message, level, path and other fields are. *)
Theorem errorCorrelationId_projected_fields (env : Environment) :
  (∀ code message1 message2 readMe1 readMe2 level1 level2 jsonUrl
     path1 path2,
     code ≠ NoJsonFileFound →
     errorCorrelationId env
       (JsonFileError code message1 readMe1 level1 jsonUrl path1)
     = errorCorrelationId env
         (JsonFileError code message2 readMe2 level2 jsonUrl path2))
  ∧ (∀ message1 message2 readMeUrl level1 level2 jsonUrl1 jsonUrl2
       path1 path2,
       errorCorrelationId env
         (JsonFileError NoJsonFileFound message1 readMeUrl level1 jsonUrl1
            path1)
       = errorCorrelationId env
           (JsonFileError NoJsonFileFound message2 readMeUrl level2 jsonUrl2
              path2))
  ∧ (∀ message1 message2 error1 error2 level1 level2 path1 path2,
       pe_url error1 = pe_url error2 →
       pe_position error1 = pe_position error2 →
       errorCorrelationId env (JsonParseError message1 error1 level1 path1)
       = errorCorrelationId env (JsonParseError message2 error2 level2 path2))
  ∧ (∀ message1 message2 readMeUrl level1 level2 path1 path2 help1 help2,
       errorCorrelationId env
         (NotAutoRestMarkDown message1 readMeUrl level1 path1 help1)
       = errorCorrelationId env
           (NotAutoRestMarkDown message2 readMeUrl level2 path2 help2))
  ∧ (∀ message1 message2 readMeUrl tag1 tag2 path1 path2 level1 level2,
       errorCorrelationId env
         (MultipleApiVersion message1 readMeUrl tag1 path1 level1)
       = errorCorrelationId env
           (MultipleApiVersion message2 readMeUrl tag2 path2 level2))
  ∧ (∀ level1 level2 message1 message2 path1 path2 folderUrl,
       errorCorrelationId env (MissingReadme level1 message1 path1 folderUrl)
       = errorCorrelationId env
           (MissingReadme level2 message2 path2 folderUrl)).
Proof.
  unfold errorCorrelationId. split_and!; try done.
  - intros code **. by destruct code.
  - intros * Hurl Hposition. simpl. by rewrite Hurl, Hposition.
Qed.

Lemma errorCorrelationId_projected_fields_witness :
  errorCorrelationId Sample.tree
    (JsonParseError "The file is not a valid JSON file."
       {| pe_kind := "syntax"; pe_code := "unexpected token";
          pe_message := "unexpected token"; pe_token := "}";
          pe_position := {| line := 3; column := 7 |};
          pe_url := "/s/A.json" |}
       LevelError "/s/A.json")
  = errorCorrelationId Sample.tree
      (JsonParseError "Invalid JSON."
         {| pe_kind := "structure"; pe_code := "unexpected end of file";
            pe_message := "unexpected end"; pe_token := "";
            pe_position := {| line := 3; column := 7 |};
            pe_url := "/s/A.json" |}
         LevelWarning "A.json")
  ∧ errorCorrelationId Sample.tree
      (JsonFileError CircularReference
         "The JSON file has a circular reference." "/s/readme.md"
         LevelWarning "/s/B.json" "/s/B.json")
    = errorCorrelationId Sample.tree
        (JsonFileError CircularReference "circular reference"
           "/s/other/readme.md" LevelError "/s/B.json" "B.json").
Proof.
  destruct (errorCorrelationId_projected_fields Sample.tree)
    as (Hfile & _ & Hparse & _).
  split.
  - by apply Hparse.
  - by apply Hfile.
Defined.

(** ** Generators *)

Lemma outcome_eta {S} (o : Outcome S) :
  MkOutcome (status o) (final o) (emitted o) = o.
Proof. by destruct o. Qed.

Lemma andThen_finished {S} (m1 m2 : Gen S) st :
  status (m1 st) = Finished →
  (m1 ;; m2) st =
    MkOutcome (status (m2 (final (m1 st)))) (final (m2 (final (m1 st))))
      (emitted (m1 st) ++ emitted (m2 (final (m1 st)))).
Proof. intros H. unfold Gen.andThen. by rewrite H. Qed.

Lemma andThen_stopped {S} (m1 m2 : Gen S) st :
  status (m1 st) ≠ Finished → (m1 ;; m2) st = m1 st.
Proof. intros H. unfold Gen.andThen. by destruct (status (m1 st)). Qed.

Lemma andThen_status {S} (m1 m2 : Gen S) st :
  status ((m1 ;; m2) st) = Finished ↔
  status (m1 st) = Finished ∧ status (m2 (final (m1 st))) = Finished.
Proof.
  unfold Gen.andThen. destruct (status (m1 st)) eqn:H1; simpl;
    rewrite ?H1; intuition congruence.
Qed.

Lemma modify_andThen {S} (f : S → S) (m : Gen S) st :
  (Gen.modify f ;; m) st = m (f st).
Proof. unfold Gen.andThen. simpl. apply outcome_eta. Qed.

Lemma skip_andThen {S} (m : Gen S) st : (Gen.skip ;; m) st = m st.
Proof. unfold Gen.andThen. simpl. apply outcome_eta. Qed.

Lemma yieldAll_andThen {S} es (m : Gen S) st :
  (Gen.yieldAll es ;; m) st =
    MkOutcome (status (m st)) (final (m st)) (es ++ emitted (m st)).
Proof. done. Qed.

(** ** The walker's invariants *)

Section Walker.

Context (env : Environment).

Lemma Walked_stay s st es :
  Forall (λ e, Err.code e ≠ UNREFERENCED_JSON_FILE) es →
  Walked env st (MkOutcome s st es).
Proof. intros Hes. split; simpl; auto. Qed.

Lemma Walked_andThen (m1 m2 : Gen WalkState) st :
  Walked env st (m1 st) →
  (status (m1 st) = Finished → Walked env (final (m1 st)) (m2 (final (m1 st)))) →
  Walked env st ((m1 ;; m2) st).
Proof.
  intros H1 H2. destruct (decide (status (m1 st) = Finished)) as [Hfin|Hfin].
  - specialize (H2 Hfin). rewrite andThen_finished by done.
    destruct H1, H2. split; simpl.
    + set_solver.
    + set_solver.
    + auto.
    + intros Hfin2 p Hp. destruct (walked_gray1 Hfin2 p Hp) as [Hp'|]; auto.
    + by apply Forall_app.
  - by rewrite andThen_stopped.
Qed.

Lemma Walked_when cond (m : Gen WalkState) st :
  (cond st = true → Walked env st (m st)) → Walked env st (Gen.when cond m st).
Proof.
  intros H. unfold Gen.when. destruct (cond st); [auto|].
  by apply Walked_stay.
Qed.

Lemma Walked_forEach {A} (body : A → Gen WalkState) xs :
  (∀ x st, x ∈ xs → Walked env st (body x st)) →
  ∀ st, Walked env st (Gen.forEach body xs st).
Proof.
  induction xs as [|x xs IH]; intros Hbody st; simpl.
  - by apply Walked_stay.
  - apply Walked_andThen.
    + apply Hbody. by left.
    + intros _. apply IH. intros y st' Hy. apply Hbody. by right.
Qed.

Lemma Walked_moveToBlack key st : Walked env st (moveToBlack key st).
Proof.
  split; unfold moveToBlack, moveTo, Gen.modify; simpl.
  - set_solver.
  - intros p Hp. destruct (decide (p = key)); set_solver.
  - set_solver.
  - intros _ p. set_solver.
  - constructor.
Qed.

Lemma Walked_visitReference recur current refFileName st :
  (∀ spec st', Walked env st' (recur spec st')) →
  Walked env st (visitReference env recur current refFileName st).
Proof.
  intros Hrecur. unfold visitReference. apply Walked_andThen.
  - apply Walked_when. intros _. apply Walked_andThen.
    + apply Walked_stay. by repeat constructor.
    + intros _. apply Walked_moveToBlack.
  - intros _. apply Walked_when. intros _. apply Hrecur.
Qed.

Lemma validateSpecificationAPIVersion_codes current document found :
  validateSpecificationAPIVersion current document = Some found →
  Forall (λ e, Err.code e = INCONSISTENT_API_VERSION) found.
Proof.
  unfold validateSpecificationAPIVersion.
  destruct (JsonOps.getProp document "info") as [info|]; [|by intros [= <-]].
  destruct info; try done;
    (destruct (negb _); intros [= <-]; by repeat constructor).
Qed.

Lemma validateFileLocation_codes current document :
  Forall (λ e, Err.code e = INVALID_FILE_LOCATION)
         (validateFileLocation current document).
Proof.
  unfold validateFileLocation.
  destruct (JsonOps.getProp document "host") as [[]|]; try done.
  destruct (_ && _); by repeat constructor.
Qed.

Lemma jsonParse_codes fileName file :
  Forall (λ e, Err.code e = JSON_PARSE) (jsonParse env fileName file).1.
Proof.
  unfold jsonParse. destruct (jsonParserParse env fileName file) as [reported d].
  simpl. induction reported; by constructor.
Qed.

Lemma Walked_walkDocument recur current file st :
  (∀ spec st', Walked env st' (recur spec st')) →
  Walked env st (walkDocument env recur current file st).
Proof.
  intros Hrecur. unfold walkDocument.
  pose proof (jsonParse_codes (path current) file) as Hparse.
  destruct (jsonParse env (path current) file) as [errors document].
  simpl in Hparse.
  apply Walked_andThen.
  { apply Walked_stay. eapply Forall_impl; [done|]. by intros e ->. }
  intros _. apply Walked_andThen.
  { destruct (isSwagger (kind current) && negb (isNull document));
      [|by apply Walked_stay].
    apply Walked_andThen.
    - destruct (validateSpecificationAPIVersion current document)
        as [found|] eqn:Hfound; [|by apply Walked_stay].
      apply Walked_stay.
      eapply Forall_impl;
        [by eapply validateSpecificationAPIVersion_codes|].
      by intros e ->.
    - intros _. apply Walked_stay.
      eapply Forall_impl; [apply validateFileLocation_codes|].
      by intros e ->. }
  intros _. apply Walked_forEach. intros t st' _.
  by apply Walked_visitReference.
Qed.

Lemma DFSTraversalValidate_step fuel current :
  DFSTraversalValidate env (S fuel) current
  = (Gen.when (fun st => bool_decide (path current ∉ blackSet st))
       (graySetAdd (path current)) ;;
     match readFile env (path current) with
     | None => Gen.yield (noJsonFileFound current)
     | Some file =>
         walkDocument env (DFSTraversalValidate env fuel) current file ;;
         moveToBlack (path current)
     end).
Proof. done. Qed.

Lemma when_andThen {S} (cond : S → bool) (m : S → S) (k : Gen S) st :
  (Gen.when cond (Gen.modify m) ;; k) st
  = k (if cond st then m st else st).
Proof.
  unfold Gen.when. destruct (cond st) eqn:Hcond.
  - unfold Gen.andThen. rewrite Hcond. simpl. apply outcome_eta.
  - unfold Gen.andThen. rewrite Hcond. simpl. apply outcome_eta.
Qed.

Lemma DFSTraversalValidate_unreadable fuel current st :
  readFile env (path current) = None →
  DFSTraversalValidate env (S fuel) current st
  = MkOutcome Finished (entered current st) [noJsonFileFound current].
Proof.
  intros Hread. rewrite DFSTraversalValidate_step, Hread.
  unfold graySetAdd. rewrite when_andThen. unfold entered.
  by destruct (bool_decide _).
Qed.

Lemma DFSTraversalValidate_readable fuel current file st :
  readFile env (path current) = Some file →
  DFSTraversalValidate env (S fuel) current st
  = (walkDocument env (DFSTraversalValidate env fuel) current file ;;
     moveToBlack (path current)) (entered current st).
Proof.
  intros Hread. rewrite DFSTraversalValidate_step, Hread.
  unfold graySetAdd. rewrite when_andThen. unfold entered.
  by destruct (bool_decide _).
Qed.

Lemma entered_coloured current st :
  blackSet (entered current st) = blackSet st
  ∧ graySet st ⊆ graySet (entered current st)
  ∧ graySet (entered current st) ⊆ graySet st ∪ {[path current]}
  ∧ path current ∈ graySet (entered current st) ∪ blackSet (entered current st)
  ∧ (graySet st ## blackSet st →
     graySet (entered current st) ## blackSet (entered current st)).
Proof.
  unfold entered. case_bool_decide as Hblack; simpl.
  - split_and!; set_solver.
  - split_and!; set_solver.
Qed.

Lemma Walked_DFSTraversalValidate fuel :
  ∀ current st, Walked env st (DFSTraversalValidate env fuel current st).
Proof.
  induction fuel as [|fuel IH]; intros current st.
  { by apply Walked_stay. }
  destruct (entered_coloured current st)
    as (Hblack & Hgray & Hgray' & Hin & Hdisjoint).
  destruct (readFile env (path current)) as [file|] eqn:Hread.
  - rewrite (DFSTraversalValidate_readable _ _ file) by done.
    pose proof (Walked_walkDocument (DFSTraversalValidate env fuel) current
                  file (entered current st) IH) as Hdoc.
    pose proof (Walked_andThen _ (moveToBlack (path current)) _ Hdoc
                  (λ _, Walked_moveToBlack _ _)) as Hall.
    destruct Hall as [H1 H2 H3 H4 H5]. split.
    + set_solver.
    + set_solver.
    + auto.
    + intros Hfin p Hp. destruct (H4 Hfin p Hp) as [Hp'|]; [|by right].
      destruct (decide (p = path current)) as [->|]; [|set_solver].
      exfalso. apply andThen_status in Hfin as [Hfin1 _].
      rewrite andThen_finished in Hp by done. simpl in Hp.
      unfold moveTo in Hp. simpl in Hp. set_solver.
    + done.
  - rewrite DFSTraversalValidate_unreadable by done. split; simpl.
    + set_solver.
    + set_solver.
    + auto.
    + intros _ p Hp. destruct (decide (p = path current)) as [->|]; [by right|].
      set_solver.
    + by repeat constructor.
Qed.

(** A readable file is black, and not gray, once its visit has finished. *)
Lemma DFSTraversalValidate_blackens fuel current st :
  is_Some (readFile env (path current)) →
  status (DFSTraversalValidate env fuel current st) = Finished →
  path current ∈ blackSet (final (DFSTraversalValidate env fuel current st))
  ∧ path current ∉ graySet (final (DFSTraversalValidate env fuel current st)).
Proof.
  intros [file Hread] Hfin. destruct fuel as [|fuel]; [done|].
  rewrite (DFSTraversalValidate_readable _ _ file) in * by done.
  apply andThen_status in Hfin as [Hfin _].
  rewrite andThen_finished by done. simpl. unfold moveTo. simpl. set_solver.
Qed.

(** An unreadable file stays as it was entered: gray unless already black. *)
Lemma DFSTraversalValidate_unreadable_stays_gray fuel current st :
  readFile env (path current) = None →
  path current ∉ blackSet st →
  path current
    ∈ graySet (final (DFSTraversalValidate env (S fuel) current st)).
Proof.
  intros Hread Hblack. rewrite DFSTraversalValidate_unreadable by done.
  simpl. unfold entered. rewrite bool_decide_eq_true_2 by done. simpl.
  set_solver.
Qed.

End Walker.

(** ** Termination of the walker *)

Lemma andThen_in_budget {S} (m1 m2 : Gen S) st :
  status (m1 st) ≠ OutOfFuel →
  (status (m1 st) = Finished → status (m2 (final (m1 st))) ≠ OutOfFuel) →
  status ((m1 ;; m2) st) ≠ OutOfFuel.
Proof.
  intros H1 H2. unfold Gen.andThen.
  destruct (status (m1 st)) eqn:Hst; simpl; rewrite ?Hst; auto.
Qed.

Section Termination.

Context (env : Environment) (universe : gset string).

(** Every reference of a readable file leads into [universe]. *)
Hypothesis universe_closed :
  ∀ p file r, readFile env p = Some file →
    r ∈ getReferencedFileNames env p (jsonParse env p file).2 →
    r ∈ universe.

Lemma uncoloured_mono st st' :
  graySet st ∪ blackSet st ⊆ graySet st' ∪ blackSet st' →
  size (uncoloured universe st') ≤ size (uncoloured universe st).
Proof. intros H. apply subseteq_size. unfold uncoloured. set_solver. Qed.

Lemma uncoloured_enter current st :
  size (uncoloured universe (entered current st))
  = size (universe ∖ (graySet st ∪ blackSet st ∪ {[path current]})).
Proof.
  f_equal. unfold uncoloured, entered. case_bool_decide; simpl; set_solver.
Qed.

Lemma uncoloured_fresh t st :
  t ∈ universe → t ∉ graySet st → t ∉ blackSet st →
  size (universe ∖ (graySet st ∪ blackSet st ∪ {[t]})) < size (uncoloured universe st).
Proof.
  intros Ht Hgray Hblack. apply subset_size. unfold uncoloured.
  split; [set_solver|]. intros Hsub. specialize (Hsub t). set_solver.
Qed.

Lemma visitReference_in_budget n current t st :
  inBudget env universe n → t ∈ universe → size (uncoloured universe st) ≤ n →
  status (visitReference env (DFSTraversalValidate env n) current t st)
    ≠ OutOfFuel.
Proof.
  intros IH Ht Hsize. unfold visitReference.
  apply andThen_in_budget.
  { unfold Gen.when. by destruct (bool_decide _). }
  intros _. unfold Gen.when.
  destruct (decide (t ∈ graySet st)) as [Hgray|Hgray].
  - rewrite (bool_decide_eq_true_2 _ Hgray). cbn.
    rewrite bool_decide_eq_false_2; [done|]. set_solver.
  - rewrite (bool_decide_eq_false_2 _ Hgray). cbn.
    case_bool_decide as Hblack; [|done]. apply IH. simpl.
    eapply Nat.lt_le_trans; [by apply uncoloured_fresh|done].
Qed.

Lemma forEach_in_budget n current refs :
  inBudget env universe n → (∀ t, t ∈ refs → t ∈ universe) →
  ∀ st, size (uncoloured universe st) ≤ n →
    status (Gen.forEach (visitReference env (DFSTraversalValidate env n) current)
              refs st) ≠ OutOfFuel.
Proof.
  intros IH. induction refs as [|t refs IHrefs]; intros Hrefs st Hsize.
  { done. }
  simpl. apply andThen_in_budget.
  - apply visitReference_in_budget; [done| |done]. apply Hrefs. by left.
  - intros _. apply IHrefs.
    + intros t' Ht'. apply Hrefs. by right.
    + etrans; [|exact Hsize]. apply uncoloured_mono.
      apply (walked_coloured env), Walked_visitReference.
      intros. apply Walked_DFSTraversalValidate.
Qed.

Lemma walkDocument_in_budget n current file st :
  inBudget env universe n → readFile env (path current) = Some file →
  size (uncoloured universe st) ≤ n →
  status (walkDocument env (DFSTraversalValidate env n) current file st)
    ≠ OutOfFuel.
Proof.
  intros IH Hread Hsize. unfold walkDocument.
  pose proof (universe_closed (path current) file) as Hclosed.
  destruct (jsonParse env (path current) file) as [errors document].
  simpl in Hclosed.
  apply andThen_in_budget; [done|]. intros _. simpl.
  apply andThen_in_budget.
  - destruct (_ && _); [|done].
    destruct (validateSpecificationAPIVersion current document); done.
  - intros Hfin.
    assert (final
      ((if isSwagger (kind current) && negb (isNull document)
        then match validateSpecificationAPIVersion current document with
             | Some found => Gen.yieldAll found
             | None => Gen.throw
             end ;; Gen.yieldAll (validateFileLocation current document)
        else Gen.skip) st) = st) as ->.
    { destruct (_ && _); [|done].
      by destruct (validateSpecificationAPIVersion current document). }
    apply forEach_in_budget; [done| |done].
    destruct (isSwagger (kind current)); [|by intros ? ?%elem_of_nil].
    intros t Ht. by eapply Hclosed.
Qed.

Lemma DFSTraversalValidate_in_budget n : inBudget env universe n.
Proof.
  induction n as [|n IH]; intros current st Hsize; [lia|].
  destruct (readFile env (path current)) as [file|] eqn:Hread.
  - rewrite (DFSTraversalValidate_readable _ _ _ file) by done.
    apply andThen_in_budget; [|done].
    apply walkDocument_in_budget; [done..|].
    rewrite uncoloured_enter. lia.
  - by rewrite DFSTraversalValidate_unreadable.
Qed.

Lemma traverseRoots_in_budget fuel roots st :
  size universe < fuel →
  status (traverseRoots env fuel roots st) ≠ OutOfFuel.
Proof.
  intros Hfuel. revert st. unfold traverseRoots.
  induction roots as [|root roots IH]; intros st; [done|]. simpl.
  apply andThen_in_budget; [|by intros _].
  apply DFSTraversalValidate_in_budget.
  eapply Nat.le_lt_trans; [|exact Hfuel]. apply subseteq_size. set_solver.
Qed.

End Termination.

Lemma referenceUniverse_closed env files :
  (∀ p, is_Some (readFile env p) → p ∈ files) →
  ∀ p file r, readFile env p = Some file →
    r ∈ getReferencedFileNames env p (jsonParse env p file).2 →
    r ∈ referenceUniverse env files.
Proof.
  intros Hfiles p file r Hread Hr. unfold referenceUniverse.
  apply elem_of_list_to_set, list_elem_of_In, in_flat_map.
  exists p. split.
  - apply list_elem_of_In, Hfiles. by eexists.
  - rewrite Hread. by apply list_elem_of_In.
Qed.

(** ** The budget does not matter once it suffices *)

Section Agreement.

Context {S : Type}.

Lemma andThen_agree (m1 m1' m2 m2' : Gen S) st :
  (status (m1' st) ≠ OutOfFuel → m1 st = m1' st) →
  (∀ st', status (m2' st') ≠ OutOfFuel → m2 st' = m2' st') →
  status ((m1' ;; m2') st) ≠ OutOfFuel →
  (m1 ;; m2) st = (m1' ;; m2') st.
Proof.
  intros H1 H2. unfold Gen.andThen.
  destruct (status (m1' st)) eqn:Hst; simpl; rewrite ?Hst.
  - intros Hrest. rewrite H1 by done. rewrite Hst, H2; done.
  - intros _. rewrite H1 by done. by rewrite Hst.
  - done.
Qed.

Lemma forEach_agree {A} (body body' : A → Gen S) xs :
  (∀ x st, status (body' x st) ≠ OutOfFuel → body x st = body' x st) →
  ∀ st, status (Gen.forEach body' xs st) ≠ OutOfFuel →
    Gen.forEach body xs st = Gen.forEach body' xs st.
Proof.
  intros Hbody. induction xs as [|x xs IH]; intros st; [done|]. simpl.
  apply andThen_agree; auto.
Qed.

Lemma when_agree cond (m m' : Gen S) st :
  (status (m' st) ≠ OutOfFuel → m st = m' st) →
  status (Gen.when cond m' st) ≠ OutOfFuel →
  Gen.when cond m st = Gen.when cond m' st.
Proof. unfold Gen.when. destruct (cond st); auto. Qed.

End Agreement.

Section FuelIrrelevance.

Context (env : Environment).

Lemma visitReference_agree recur recur' current t st :
  extends recur recur' →
  status (visitReference env recur' current t st) ≠ OutOfFuel →
  visitReference env recur current t st
  = visitReference env recur' current t st.
Proof.
  intros Hext. unfold visitReference. apply andThen_agree; [done|].
  intros st'. apply when_agree. apply Hext.
Qed.

Lemma walkDocument_agree recur recur' current file st :
  extends recur recur' →
  status (walkDocument env recur' current file st) ≠ OutOfFuel →
  walkDocument env recur current file st
  = walkDocument env recur' current file st.
Proof.
  intros Hext. unfold walkDocument.
  destruct (jsonParse env (path current) file) as [errors document].
  apply andThen_agree; [done|]. intros st1.
  apply andThen_agree; [done|]. intros st2.
  apply forEach_agree. intros t st3. by apply visitReference_agree.
Qed.

Lemma DFSTraversalValidate_more_fuel n :
  extends (DFSTraversalValidate env (S n)) (DFSTraversalValidate env n).
Proof.
  induction n as [|n IH]; intros current st; [done|].
  rewrite (DFSTraversalValidate_step env (S n)),
    (DFSTraversalValidate_step env n).
  apply andThen_agree; [done|]. intros st1.
  destruct (readFile env (path current)) as [file|]; [|done].
  apply andThen_agree; [|done]. by apply walkDocument_agree.
Qed.

Lemma DFSTraversalValidate_fuel n m :
  n ≤ m → extends (DFSTraversalValidate env m) (DFSTraversalValidate env n).
Proof.
  induction 1 as [|m Hle IH]; intros current st Hstatus; [done|].
  rewrite <- IH by done. apply DFSTraversalValidate_more_fuel.
  by rewrite IH.
Qed.

Lemma traverseRoots_fuel n m roots st :
  n ≤ m → status (traverseRoots env n roots st) ≠ OutOfFuel →
  traverseRoots env m roots st = traverseRoots env n roots st.
Proof.
  intros Hle. unfold traverseRoots. apply forEach_agree.
  intros root st'. by apply DFSTraversalValidate_fuel.
Qed.

End FuelIrrelevance.

(** ** One visit, step by step *)

Lemma andThen_assoc {S} (m1 m2 m3 : Gen S) st :
  ((m1 ;; m2) ;; m3) st = (m1 ;; m2 ;; m3) st.
Proof.
  unfold Gen.andThen.
  destruct (status (m1 st)) eqn:H1; simpl; rewrite ?H1; try done.
  destruct (status (m2 (final (m1 st)))) eqn:H2; simpl; rewrite ?H2; try done.
  by rewrite app_assoc.
Qed.

Lemma andThen_ext {S} (m1 m1' m2 : Gen S) st :
  m1 st = m1' st → (m1 ;; m2) st = (m1' ;; m2) st.
Proof. intros H. unfold Gen.andThen. by rewrite H. Qed.

Lemma yieldAll_nil_andThen {S} (m : Gen S) st :
  (Gen.yieldAll [] ;; m) st = m st.
Proof. apply skip_andThen. Qed.

Lemma yieldAll_twice {S} (es es' : list Error) (st : S) :
  (Gen.yieldAll es ;; Gen.yieldAll es') st = Gen.yieldAll (es ++ es') st.
Proof. done. Qed.

Lemma forEach_cons {S A} (body : A → Gen S) x xs st :
  Gen.forEach body (x :: xs) st = (body x ;; Gen.forEach body xs) st.
Proof. done. Qed.

Lemma forEach_nil {S A} (body : A → Gen S) st :
  Gen.forEach body [] st = Gen.skip st.
Proof. done. Qed.

Lemma forEach_cons_andThen {S A} (body : A → Gen S) x xs (k : Gen S) st :
  (Gen.forEach body (x :: xs) ;; k) st
  = (body x ;; Gen.forEach body xs ;; k) st.
Proof. apply (andThen_assoc (body x)). Qed.

Lemma andThen_outcome {S} (m1 m2 : Gen S) st st1 es :
  m1 st = MkOutcome Finished st1 es →
  (m1 ;; m2) st
  = MkOutcome (status (m2 st1)) (final (m2 st1)) (es ++ emitted (m2 st1)).
Proof. intros H. unfold Gen.andThen. by rewrite H. Qed.

Lemma forEach_one_andThen {S A} (body : A → Gen S) x (k : Gen S) st :
  (Gen.forEach body [x] ;; k) st = (body x ;; k) st.
Proof.
  simpl. rewrite andThen_assoc. unfold Gen.andThen at 1 3.
  destruct (status (body x st)); [|done..]. by rewrite skip_andThen.
Qed.

Section Visit.

Context (env : Environment).

Lemma visitReference_gray recur current t st :
  t ∈ graySet st →
  visitReference env recur current t st
  = MkOutcome Finished
      {| graySet := graySet st ∖ {[t]}; blackSet := blackSet st ∪ {[t]} |}
      [circularReference current].
Proof.
  intros Hgray. unfold visitReference, Gen.andThen, Gen.when.
  rewrite (bool_decide_eq_true_2 _ Hgray). cbn.
  rewrite bool_decide_eq_false_2; [done|]. set_solver.
Qed.

Lemma visitReference_black recur current t st :
  t ∉ graySet st → t ∈ blackSet st →
  visitReference env recur current t st = MkOutcome Finished st [].
Proof.
  intros Hgray Hblack. unfold visitReference, Gen.andThen, Gen.when.
  rewrite (bool_decide_eq_false_2 _ Hgray). cbn.
  rewrite bool_decide_eq_false_2; [done|]. by intros [].
Qed.

Lemma visitReference_fresh recur current t st :
  t ∉ graySet st → t ∉ blackSet st →
  visitReference env recur current t st
  = recur {| path := t; readMePath := readMePath current;
             kind := if isExample env t then EXAMPLE else SWAGGER |} st.
Proof.
  intros Hgray Hblack. unfold visitReference, Gen.andThen, Gen.when.
  rewrite (bool_decide_eq_false_2 _ Hgray). cbn.
  rewrite (bool_decide_eq_true_2 _ Hblack). apply outcome_eta.
Qed.

Lemma validateSpecificationAPIVersion_returns current document :
  JsonOps.getProp document "info" ≠ Some JNull →
  is_Some (validateSpecificationAPIVersion current document).
Proof.
  unfold validateSpecificationAPIVersion. intros Hinfo.
  destruct (JsonOps.getProp document "info") as [[]|]; try done;
    by destruct (negb _).
Qed.

Lemma DFSTraversalValidate_swagger fuel current file document st :
  readFile env (path current) = Some file →
  kind current = SWAGGER →
  jsonParserParse env (path current) file = ([], document) →
  JsonOps.getProp document "info" ≠ Some JNull →
  DFSTraversalValidate env (S fuel) current st
  = (Gen.yieldAll (ruleFindings current document) ;;
     Gen.forEach (visitReference env (DFSTraversalValidate env fuel) current)
       (getReferencedFileNames env (path current) document) ;;
     moveToBlack (path current)) (entered current st).
Proof.
  intros Hread Hkind Hparse Hinfo.
  rewrite (DFSTraversalValidate_readable _ _ _ file) by done.
  unfold walkDocument, jsonParse, ruleFindings. rewrite Hparse, Hkind.
  destruct (validateSpecificationAPIVersion_returns current document Hinfo)
    as [found ->].
  simpl map. cbv iota beta. rewrite andThen_assoc, yieldAll_nil_andThen.
  rewrite andThen_assoc. apply andThen_ext.
  destruct (isNull document); simpl; [done|]. apply yieldAll_twice.
Qed.

End Visit.

(** ** Two files that refer to each other *)

Section CircularPair.

Context (env : Environment) (A B readMe fileA fileB : string)
  (docA docB : Json).

Let specA : Specification :=
  {| path := A; readMePath := readMe; kind := SWAGGER |}.
Let specB : Specification :=
  {| path := B; readMePath := readMe; kind := SWAGGER |}.

Hypothesis distinct : A ≠ B.
Hypothesis readA : readFile env A = Some fileA.
Hypothesis readB : readFile env B = Some fileB.
Hypothesis parseA : jsonParserParse env A fileA = ([], docA).
Hypothesis parseB : jsonParserParse env B fileB = ([], docB).
Hypothesis infoA : JsonOps.getProp docA "info" ≠ Some JNull.
Hypothesis infoB : JsonOps.getProp docB "info" ≠ Some JNull.
Hypothesis refsA : getReferencedFileNames env A docA = [B].
Hypothesis refsB : getReferencedFileNames env B docB = [A].
Hypothesis swaggerA : isExample env A = false.
Hypothesis swaggerB : isExample env B = false.

(** The visit of [B] from [A]: [A] is gray, [B] is new. *)
Lemma circular_pair_inner fuel st :
  A ∈ graySet st → B ∉ blackSet st →
  DFSTraversalValidate env (S fuel) specB st
  = MkOutcome Finished
      {| graySet := (graySet st ∪ {[B]}) ∖ {[A]} ∖ {[B]};
         blackSet := blackSet st ∪ {[A]} ∪ {[B]} |}
      (ruleFindings specB docB ++ [circularReference specB]).
Proof.
  intros Hgray Hblack.
  rewrite (DFSTraversalValidate_swagger env fuel specB fileB docB) by done.
  simpl path. rewrite refsB. unfold entered. simpl path.
  rewrite (bool_decide_eq_true_2 _ Hblack).
  rewrite yieldAll_andThen, forEach_one_andThen.
  unfold Gen.andThen at 1 2 3.
  rewrite visitReference_gray by (simpl; set_solver). done.
Qed.

(** The walk of the first root, [A], from empty sets. *)
Lemma circular_pair_first fuel :
  DFSTraversalValidate env (S (S fuel)) specA emptySets
  = MkOutcome Finished
      {| graySet := ((∅ ∪ {[A]}) ∪ {[B]}) ∖ {[A]} ∖ {[B]} ∖ {[A]};
         blackSet := ∅ ∪ {[A]} ∪ {[B]} ∪ {[A]} |}
      (ruleFindings specA docA
       ++ (ruleFindings specB docB ++ [circularReference specB]) ++ []).
Proof.
  rewrite (DFSTraversalValidate_swagger env _ specA fileA docA) by done.
  simpl path. rewrite refsA.
  assert (entered specA emptySets
          = {| graySet := ∅ ∪ {[A]}; blackSet := ∅ |}) as ->.
  { unfold entered. by rewrite bool_decide_eq_true_2 by set_solver. }
  rewrite yieldAll_andThen, forEach_one_andThen.
  unfold Gen.andThen at 1 2 3.
  rewrite visitReference_fresh by (simpl; set_solver).
  rewrite swaggerB. fold specB.
  rewrite circular_pair_inner by (simpl; set_solver). done.
Qed.

(** The walk of the second root, [B], once both files are black. *)
Lemma circular_pair_second fuel st :
  A ∉ graySet st → A ∈ blackSet st → B ∈ blackSet st →
  DFSTraversalValidate env (S fuel) specB st
  = MkOutcome Finished
      {| graySet := graySet st ∖ {[B]}; blackSet := blackSet st ∪ {[B]} |}
      (ruleFindings specB docB ++ []).
Proof.
  intros HgrayA HblackA HblackB.
  rewrite (DFSTraversalValidate_swagger env fuel specB fileB docB) by done.
  simpl path. rewrite refsB. unfold entered. simpl path.
  rewrite bool_decide_eq_false_2 by (by intros []).
  rewrite yieldAll_andThen, forEach_one_andThen.
  unfold Gen.andThen at 1 2 3.
  rewrite visitReference_black by done. done.
Qed.

Lemma ruleFindings_codes current document :
  Forall (λ e, Err.code e = INCONSISTENT_API_VERSION
               ∨ Err.code e = INVALID_FILE_LOCATION)
         (ruleFindings current document).
Proof.
  unfold ruleFindings. destruct (negb _); [|done]. apply Forall_app. split.
  - destruct (validateSpecificationAPIVersion current document) eqn:Hv;
      [|done]. simpl.
    eapply Forall_impl; [by eapply validateSpecificationAPIVersion_codes|].
    naive_solver.
  - eapply Forall_impl; [apply validateFileLocation_codes|]. naive_solver.
Qed.

Lemma filter_none {X} (P : X → Prop) `{∀ x, Decision (P x)} (l : list X) :
  Forall (λ x, ¬ P x) l → filter P l = [].
Proof.
  induction 1 as [|x l Hx _ IH]; [done|]. by rewrite filter_cons_False.
Qed.

Lemma ruleFindings_not_circular current document :
  filter (λ e, Err.code e = CIRCULAR_REFERENCE)
         (ruleFindings current document) = [].
Proof.
  apply filter_none. eapply Forall_impl; [apply ruleFindings_codes|].
  intros e [-> | ->]; done.
Qed.

Lemma unreferenced_not_circular specs :
  filter (λ e, Err.code e = CIRCULAR_REFERENCE)
         (map unreferencedJsonFile specs) = [].
Proof. apply filter_none. induction specs; by constructor. Qed.

(** The whole run over the roots [A] and [B]. *)
Lemma circular_pair_run fuel allInputFileSet :
  validateInputFiles env (S (S fuel)) [specA; specB] allInputFileSet
  = MkOutcome Finished
      {| graySet := (∅ ∪ {[A]} ∪ {[B]}) ∖ {[A]} ∖ {[B]} ∖ {[A]} ∖ {[B]};
         blackSet := ∅ ∪ {[A]} ∪ {[B]} ∪ {[A]} ∪ {[B]} |}
      ((ruleFindings specA docA
        ++ (ruleFindings specB docB ++ [circularReference specB]) ++ [])
       ++ (ruleFindings specB docB ++ [])
       ++ map unreferencedJsonFile
            (filter (λ spec, path spec ∉ (∅ ∪ {[A]} ∪ {[B]} ∪ {[A]} ∪ {[B]} : gset string))
               allInputFileSet)).
Proof.
  unfold validateInputFiles, traverseRoots.
  rewrite forEach_cons_andThen.
  erewrite andThen_outcome by apply circular_pair_first.
  rewrite forEach_cons_andThen.
  erewrite andThen_outcome
    by (apply circular_pair_second; simpl; set_solver).
  rewrite andThen_ext with (m1' := Gen.skip) by done.
  rewrite skip_andThen. done.
Qed.

(** X29.  Two distinct readable SWAGGER files [A] and [B] that parse
    without errors, neither with an [info] that is [null], each with the
    other as its only reference and both declared as roots, in this order,
    with a budget of at least 2: the run finishes; it yields exactly one
    [CIRCULAR_REFERENCE] finding, a warning attributed to [B], the file in
    which the reference back to the gray [A] is found; both files are
    black and none is gray at the end; and the reference back to the gray
    [A] moves [A] to the black set at once, without calling the walker on
    it, whatever the recursive call [recur] would do. *)
Theorem circular_pair_one_finding (fuel : nat)
    (allInputFileSet : list Specification) :
  2 ≤ fuel →
  let run := validateInputFiles env fuel [specA; specB] allInputFileSet in
  status run = Finished
  ∧ filter (λ e, Err.code e = CIRCULAR_REFERENCE) (emitted run)
    = [JsonFileError CircularReference
         "The JSON file has a circular reference." readMe LevelWarning B B]
  ∧ blackSet (final run) = {[A; B]}
  ∧ graySet (final run) = ∅
  ∧ (∀ recur st, A ∈ graySet st →
       visitReference env recur specB A st
       = MkOutcome Finished
           {| graySet := graySet st ∖ {[A]};
              blackSet := blackSet st ∪ {[A]} |}
           [circularReference specB]).
Proof.
  intros Hfuel. destruct fuel as [|[|fuel]]; [lia..|].
  intros run. subst run. rewrite circular_pair_run. simpl.
  split_and!.
  - done.
  - rewrite !filter_app, !ruleFindings_not_circular,
      unreferenced_not_circular. done.
  - set_solver.
  - set_solver.
  - intros recur st Hgray. by apply visitReference_gray.
Qed.

End CircularPair.

(** C2 fails on two files that refer to each other when the first declares
    its [info] as [null]: the version rule reads [info.version] and throws,
    so the run stops in [A.json] before any reference is looked at; it
    yields no [CIRCULAR_REFERENCE] finding, leaves [A.json] gray and
    nothing black. *)
Lemma circular_pair_null_info (fuel : nat) :
  let A := Sample.swagger "/s/A.json" in
  let B := Sample.swagger "/s/B.json" in
  let run := validateInputFiles Trees.nullInfo (S fuel) [A; B] [] in
  jsonParse Trees.nullInfo "/s/A.json" "text of A"
  = ([], JObject [("swagger", JString "2.0"); ("info", JNull);
                  ("b", JObject [("$ref", JString "B.json")])])
  ∧ jsonParse Trees.nullInfo "/s/B.json" "text of B"
    = ([], JObject [("swagger", JString "2.0");
                    ("a", JObject [("$ref", JString "A.json")])])
  ∧ getReferencedFileNames Trees.nullInfo "/s/A.json"
      (jsonParse Trees.nullInfo "/s/A.json" "text of A").2 = ["/s/B.json"]
  ∧ getReferencedFileNames Trees.nullInfo "/s/B.json"
      (jsonParse Trees.nullInfo "/s/B.json" "text of B").2 = ["/s/A.json"]
  ∧ status run = Threw
  ∧ emitted run = []
  ∧ graySet (final run) = {["/s/A.json"]}
  ∧ blackSet (final run) = ∅.
Proof.
  intros A B run.
  assert (Hrun : run = MkOutcome Threw
                         {| graySet := ∅ ∪ {["/s/A.json"]}; blackSet := ∅ |}
                         []).
  { subst run. unfold validateInputFiles, traverseRoots.
    rewrite forEach_cons_andThen.
    rewrite andThen_stopped; [reflexivity|]. by vm_compute. }
  rewrite Hrun. split_and!; vm_compute; reflexivity.
Qed.

(** ** The traversal of all roots *)

Section Roots.

Context (env : Environment).

Lemma Walked_traverseRoots fuel roots st :
  Walked env st (traverseRoots env fuel roots st).
Proof.
  apply Walked_forEach. intros root st' _. apply Walked_DFSTraversalValidate.
Qed.

Lemma traverseRoots_blackens fuel roots :
  ∀ st, status (traverseRoots env fuel roots st) = Finished →
  ∀ root, root ∈ roots → is_Some (readFile env (path root)) →
    path root ∈ blackSet (final (traverseRoots env fuel roots st)).
Proof.
  unfold traverseRoots.
  induction roots as [|r roots IH]; intros st Hfin root Hroot Hread.
  { by apply elem_of_nil in Hroot. }
  rewrite forEach_cons in *. apply andThen_status in Hfin as [Hfin1 Hfin2].
  rewrite andThen_finished by done. simpl.
  apply elem_of_cons in Hroot as [->|Hroot].
  - apply (walked_black env _ _ (Walked_traverseRoots fuel roots _)).
    by apply DFSTraversalValidate_blackens.
  - by apply IH.
Qed.

End Roots.

(** ** Colouring (C1) *)

(** C1, as the program has it.  For one visit [DFSTraversalValidate] that
    finishes, from disjoint gray and black sets: the black set only grows and
    stays disjoint from the gray set, so a path turns from gray to black at
    most once and never turns gray again; a path whose file can be read is
    black and not gray when its visit has finished; and a path that is gray
    afterwards was gray before or is a path whose file cannot be read.  The
    visit of a readable file moves it to the black set after its loop over
    the references; a reference to a gray path moves that path to the black
    set at once, before the visit of that path has finished.  After the
    traversal of a set of roots from empty sets, gray and black are disjoint,
    every path left gray is one whose file cannot be read, and every readable
    root is black. *)
Theorem walker_colouring (env : Environment) (fuel : nat) :
  (∀ current st,
     let visit := DFSTraversalValidate env fuel current st in
     status visit = Finished → graySet st ## blackSet st →
     blackSet st ⊆ blackSet (final visit)
     ∧ graySet (final visit) ## blackSet (final visit)
     ∧ (is_Some (readFile env (path current)) →
        path current ∈ blackSet (final visit)
        ∧ path current ∉ graySet (final visit))
     ∧ (∀ p, p ∈ graySet (final visit) →
          p ∈ graySet st ∨ readFile env p = None))
  ∧ (∀ current file st,
       readFile env (path current) = Some file →
       DFSTraversalValidate env (S fuel) current st
       = (walkDocument env (DFSTraversalValidate env fuel) current file ;;
          moveToBlack (path current)) (entered current st))
  ∧ (∀ recur current t st,
       t ∈ graySet st →
       visitReference env recur current t st
       = MkOutcome Finished
           {| graySet := graySet st ∖ {[t]};
              blackSet := blackSet st ∪ {[t]} |}
           [circularReference current])
  ∧ (∀ roots,
       let run := traverseRoots env fuel roots emptySets in
       status run = Finished →
       graySet (final run) ## blackSet (final run)
       ∧ (∀ p, p ∈ graySet (final run) → readFile env p = None)
       ∧ (∀ root, root ∈ roots → is_Some (readFile env (path root)) →
            path root ∈ blackSet (final run))).
Proof.
  split_and!.
  - intros current st visit Hfin Hdisjoint.
    destruct (Walked_DFSTraversalValidate env fuel current st)
      as [Hblack _ Hdis Hgray _].
    split_and!; [done|by apply Hdis| |by apply Hgray].
    intros Hread. by apply DFSTraversalValidate_blackens.
  - intros current file st Hread. by apply DFSTraversalValidate_readable.
  - intros recur current t st Hgray. by apply visitReference_gray.
  - intros roots run Hfin.
    destruct (Walked_traverseRoots env fuel roots emptySets)
      as [_ _ Hdis Hgray _].
    split_and!.
    + apply Hdis. set_solver.
    + intros p Hp. destruct (Hgray Hfin p Hp) as [Hempty|]; [|done].
      set_solver.
    + by apply traverseRoots_blackens.
Qed.

(** ** Termination (C3) *)

(** C3.  When the readable files are finitely many ([files] lists them) the
    walker terminates: there is a budget from which on no run over any root
    set [inputFileSet], and no visit from any sets, runs out of budget, and
    from which on the outcome no longer depends on the budget.  The black
    set never loses a path, so a path becomes black at most once; a target
    that is gray or black is dealt with without a recursive call (the
    outcome is the same whatever [recur] does), a target that is neither is
    visited by the recursive call; and a gray target is moved to the black
    set with one [CIRCULAR_REFERENCE] finding and nothing more. *)
Theorem walker_terminates (env : Environment) (files : list string) :
  (∀ p, is_Some (readFile env p) → p ∈ files) →
  (∃ budget, ∀ fuel, budget ≤ fuel →
     (∀ inputFileSet allInputFileSet,
        status (validateInputFiles env fuel inputFileSet allInputFileSet)
          ≠ OutOfFuel
        ∧ validateInputFiles env fuel inputFileSet allInputFileSet
          = validateInputFiles env budget inputFileSet allInputFileSet)
     ∧ (∀ current st,
          status (DFSTraversalValidate env fuel current st) ≠ OutOfFuel
          ∧ DFSTraversalValidate env fuel current st
            = DFSTraversalValidate env budget current st))
  ∧ (∀ fuel current st,
       blackSet st
         ⊆ blackSet (final (DFSTraversalValidate env fuel current st)))
  ∧ (∀ recur recur' current t st,
       t ∈ graySet st ∪ blackSet st →
       visitReference env recur current t st
       = visitReference env recur' current t st)
  ∧ (∀ recur current t st,
       t ∉ graySet st ∪ blackSet st →
       visitReference env recur current t st
       = recur {| path := t; readMePath := readMePath current;
                  kind := if isExample env t then EXAMPLE else SWAGGER |} st)
  ∧ (∀ recur current t st,
       t ∈ graySet st →
       visitReference env recur current t st
       = MkOutcome Finished
           {| graySet := graySet st ∖ {[t]};
              blackSet := blackSet st ∪ {[t]} |}
           [circularReference current]).
Proof.
  intros Hfiles.
  pose proof (referenceUniverse_closed env files Hfiles) as Hclosed.
  set (universe := referenceUniverse env files) in *.
  assert (Hvisit : ∀ fuel current st, size universe < fuel →
    status (DFSTraversalValidate env fuel current st) ≠ OutOfFuel).
  { intros fuel current st Hfuel.
    apply (DFSTraversalValidate_in_budget env universe Hclosed).
    eapply Nat.le_lt_trans; [|exact Hfuel]. apply subseteq_size. set_solver. }
  split_and!.
  - exists (S (size universe)). intros fuel Hfuel. split.
    + intros inputFileSet allInputFileSet.
      assert (Hroots : traverseRoots env fuel inputFileSet emptySets
                       = traverseRoots env (S (size universe)) inputFileSet
                           emptySets).
      { apply traverseRoots_fuel; [done|].
        apply (traverseRoots_in_budget env universe Hclosed). lia. }
      unfold validateInputFiles, Gen.andThen. rewrite Hroots. split; [|done].
      pose proof (traverseRoots_in_budget env universe Hclosed
                    (S (size universe)) inputFileSet emptySets) as Hbudget.
      destruct (status (traverseRoots env (S (size universe)) inputFileSet
                          emptySets)) eqn:Hstatus; simpl.
      * done.
      * by rewrite Hstatus.
      * exfalso. apply Hbudget; [lia|done].
    + intros current st. split; [apply Hvisit; lia|].
      apply DFSTraversalValidate_fuel; [done|]. apply Hvisit. lia.
  - intros fuel current st.
    apply (walked_black env), Walked_DFSTraversalValidate.
  - intros recur recur' current t st [Hgray|Hblack]%elem_of_union.
    + by rewrite !visitReference_gray.
    + destruct (decide (t ∈ graySet st)) as [Hgray|Hgray].
      * by rewrite !visitReference_gray.
      * by rewrite !visitReference_black.
  - intros recur current t st Hnew.
    apply visitReference_fresh; set_solver.
  - intros recur current t st Hgray. by apply visitReference_gray.
Qed.

(** ** Orphan files (C5) *)

Lemma filter_all {X} (P : X → Prop) `{∀ x, Decision (P x)} (l : list X) :
  Forall P l → filter P l = l.
Proof.
  induction 1 as [|x l Hx _ IH]; [done|].
  by rewrite filter_cons_True, IH.
Qed.

Lemma elem_of_map {X Y} (f : X → Y) (l : list X) (y : Y) :
  y ∈ map f l ↔ ∃ x, y = f x ∧ x ∈ l.
Proof.
  rewrite list_elem_of_In, in_map_iff. split.
  - intros (x & <- & Hx). exists x. by rewrite list_elem_of_In.
  - intros (x & -> & Hx). exists x. by rewrite <- list_elem_of_In.
Qed.

(** C5.  When the walker has finished over the roots, the
    [UNREFERENCED_JSON_FILE] findings of [validateInputFiles] are, in order,
    one for each Specification of [allInputFileSet] whose path is not in the
    black set the walker left, and no other; each is an error attributed to
    that path, worded for a swagger or for an example by the kind of the
    Specification; a Specification whose path is black gets none. *)
Theorem unreferenced_files_reported (env : Environment) (fuel : nat)
    (inputFileSet allInputFileSet : list Specification) :
  let run := validateInputFiles env fuel inputFileSet allInputFileSet in
  let walk := traverseRoots env fuel inputFileSet emptySets in
  status run = Finished →
  status walk = Finished
  ∧ emitted run
    = emitted walk
      ++ map unreferencedJsonFile
           (filter (λ spec, path spec ∉ blackSet (final walk))
              allInputFileSet)
  ∧ filter (λ e, Err.code e = UNREFERENCED_JSON_FILE) (emitted run)
    = map unreferencedJsonFile
        (filter (λ spec, path spec ∉ blackSet (final walk)) allInputFileSet)
  ∧ (∀ spec,
       unreferencedJsonFile spec
       = JsonFileError UnreferencedJsonFile
           (match kind spec with
            | SWAGGER =>
                "The swagger JSON file is not referenced from the readme file."
            | EXAMPLE =>
                "The example JSON file is not referenced from the swagger file."
            end)
           (readMePath spec) LevelError (path spec) (path spec))
  ∧ (∀ spec e,
       path spec ∈ blackSet (final walk) →
       e ∈ emitted run → Err.code e = UNREFERENCED_JSON_FILE →
       Err.path e ≠ path spec).
Proof.
  intros run walk Hfin. subst run. unfold validateInputFiles in *.
  apply andThen_status in Hfin as [Hwalk _]. fold walk in Hwalk.
  assert (Hrun : emitted
            ((traverseRoots env fuel inputFileSet ;;
              reportUnreferenced allInputFileSet) emptySets)
          = emitted walk
            ++ map unreferencedJsonFile
                 (filter (λ spec, path spec ∉ blackSet (final walk))
                    allInputFileSet)).
  { by rewrite andThen_finished by done. }
  assert (Hfilter :
    filter (λ e, Err.code e = UNREFERENCED_JSON_FILE)
      (emitted ((traverseRoots env fuel inputFileSet ;;
                 reportUnreferenced allInputFileSet) emptySets))
    = map unreferencedJsonFile
        (filter (λ spec, path spec ∉ blackSet (final walk)) allInputFileSet)).
  { rewrite Hrun, filter_app.
    rewrite filter_none
      by apply (walked_codes env _ _ (Walked_traverseRoots env fuel _ _)).
    simpl. apply filter_all, Forall_forall. by intros e (spec & -> & _)%elem_of_map. }
  split_and!; [done..|].
  intros spec e Hblack He Hcode Hpath.
  assert (e ∈ filter (λ e, Err.code e = UNREFERENCED_JSON_FILE)
                (emitted ((traverseRoots env fuel inputFileSet ;;
                           reportUnreferenced allInputFileSet) emptySets)))
    as Hin by by apply list_elem_of_filter.
  rewrite Hfilter in Hin.
  apply elem_of_map in Hin as (spec' & -> & Hspec').
  apply list_elem_of_filter in Hspec' as [Hwhite _]. simpl in Hpath.
  by rewrite Hpath in Hwhite.
Qed.

(** ** Maps of findings *)

Section ErrorMaps.

Implicit Types (m : ErrorMap) (k : string) (v : Error).

Lemma delete_elem_of k m k' v :
  (k', v) ∈ ErrorMap.delete k m ↔ (k', v) ∈ m ∧ k' ≠ k.
Proof.
  unfold ErrorMap.delete. rewrite !list_elem_of_In, filter_In. simpl.
  destruct (String.eqb_spec k' k); simpl; intuition congruence.
Qed.

Lemma delete_absent k m : k ∉ ErrorMap.keys m → ErrorMap.delete k m = m.
Proof.
  unfold ErrorMap.keys, ErrorMap.delete.
  induction m as [|[k' v'] m IH]; [done|]. simpl. intros Hk.
  apply not_elem_of_cons in Hk as [Hne Hk].
  destruct (String.eqb_spec k' k); [congruence|]. simpl. by rewrite IH.
Qed.

Lemma get_Some k m v : ErrorMap.get k m = Some v → (k, v) ∈ m.
Proof.
  unfold ErrorMap.get.
  destruct (find _ m) as [[k' v']|] eqn:Hfind; [|done]. intros [= <-].
  apply find_some in Hfind as [Hin Heq]. simpl in Heq.
  apply String.eqb_eq in Heq as ->. by apply list_elem_of_In.
Qed.

Lemma get_None k m : ErrorMap.get k m = None → k ∉ ErrorMap.keys m.
Proof.
  unfold ErrorMap.get, ErrorMap.keys.
  destruct (find _ m) eqn:Hfind; [done|]. intros _ Hk.
  apply elem_of_map in Hk as ([k' v'] & -> & Hin).
  apply list_elem_of_In in Hin.
  pose proof (find_none _ _ Hfind _ Hin) as Hne. simpl in Hne.
  by rewrite String.eqb_refl in Hne.
Qed.

Lemma set_keys k v m :
  ErrorMap.keys (ErrorMap.set k v m)
  = if bool_decide (k ∈ ErrorMap.keys m) then ErrorMap.keys m
    else ErrorMap.keys m ++ [k].
Proof.
  unfold ErrorMap.keys. induction m as [|[k' v'] m IH]; [done|]. simpl.
  destruct (String.eqb_spec k' k) as [Heq|Hne]; simpl.
  - subst k'. by rewrite bool_decide_eq_true_2 by by left.
  - rewrite IH. case_bool_decide as Hin.
    + by rewrite bool_decide_eq_true_2 by by right.
    + rewrite bool_decide_eq_false_2; [done|].
      intros [?|?]%elem_of_cons; congruence.
Qed.

Lemma set_NoDup k v m :
  NoDup (ErrorMap.keys m) → NoDup (ErrorMap.keys (ErrorMap.set k v m)).
Proof.
  intros Hm. rewrite set_keys. case_bool_decide as Hin; [done|].
  apply NoDup_app. split_and!; [done| |apply NoDup_singleton].
  intros k' Hk' ->%list_elem_of_singleton. done.
Qed.

Lemma collectErrors_NoDup env found :
  NoDup (ErrorMap.keys (collectErrors env found)).
Proof.
  unfold collectErrors.
  assert (Hgen : ∀ m, NoDup (ErrorMap.keys m) →
    NoDup (ErrorMap.keys
      (fold_left (λ map e, ErrorMap.set (errorCorrelationId env e) e map)
         found m))).
  { induction found as [|e found IH]; intros m Hm; [done|].
    simpl. by apply IH, set_NoDup. }
  apply Hgen. constructor.
Qed.

Lemma NoDup_keys_eq m k v v' :
  NoDup (ErrorMap.keys m) → (k, v) ∈ m → (k, v') ∈ m → v = v'.
Proof.
  unfold ErrorMap.keys. induction m as [|[k0 v0] m IH]; simpl.
  { by intros _ ?%elem_of_nil. }
  intros [Hk0 Hm]%NoDup_cons [Heq|Hin]%elem_of_cons
    [Heq'|Hin']%elem_of_cons.
  - congruence.
  - exfalso. apply Hk0, elem_of_map. exists (k, v'). split; [|done].
    simpl. congruence.
  - exfalso. apply Hk0, elem_of_map. exists (k, v). split; [|done].
    simpl. congruence.
  - by apply IH.
Qed.

End ErrorMaps.

(** ** Exclusion list of a single-directory run (C9) *)

Section Exclusion.

Context (env : Environment) (exclude : list string).

Lemma isExcluded_false subject :
  isExcluded env exclude subject = Ok false →
  ∀ item, item ∈ exclude → stringSearch env subject item = Some (-1)%Z.
Proof.
  unfold isExcluded. induction exclude as [|item' items IH]; simpl.
  { by intros _ item ?%elem_of_nil. }
  destruct (stringSearch env subject item') as [i|] eqn:Hsearch; [|done].
  simpl. destruct (Z.eqb_spec i (-1)) as [->|]; simpl; [|done].
  intros Hrest item [->|Hitem]%elem_of_cons; [done|]. by apply IH.
Qed.

Lemma removeExcluded_elem_of entries :
  ∀ map result, removeExcluded env exclude entries map = Ok result →
  (∀ k v, (k, v) ∈ entries → ∃ b, isExcluded env exclude (Err.path v) = Ok b)
  ∧ (∀ k v, (k, v) ∈ result ↔
       (k, v) ∈ map
       ∧ ∀ v', (k, v') ∈ entries →
           isExcluded env exclude (Err.path v') = Ok false).
Proof.
  induction entries as [|[k0 v0] entries IH]; intros map result; simpl.
  { intros [= ->]. split; [by intros ?? ?%elem_of_nil|].
    intros k v. split; [|by intros []]. intros Hin. split; [done|].
    by intros v' ?%elem_of_nil. }
  destruct (isExcluded env exclude (Err.path v0)) as [b| |] eqn:Hb; try done.
  simpl. intros Hrest. apply IH in Hrest as [Hok Hresult]. split.
  - intros k v [[= -> ->]|Hin]%elem_of_cons; [by exists b|by eapply Hok].
  - intros k v. rewrite Hresult. split.
    + intros [Hin Hkept]. destruct b.
      * apply delete_elem_of in Hin as [Hin Hne]. split; [done|].
        intros v' [[= ? ?]|Hv']%elem_of_cons; [done|by apply Hkept].
      * split; [done|].
        intros v' [[= -> ->]|Hv']%elem_of_cons; [done|by apply Hkept].
    + intros [Hin Hkept]. split.
      * destruct b; [|done]. apply delete_elem_of. split; [done|].
        intros ->. specialize (Hkept v0 ltac:(by left)). congruence.
      * intros v' Hv'. apply Hkept. by right.
Qed.

End Exclusion.

(** C9.  A single-directory run that returns a map has removed from it
    every finding, of whatever code, whose [path] matches an entry of the
    exclusion list: for a finding [v] left in the map, [search] finds no
    entry of [exclude] in [v.path].  The findings left are exactly those
    collected from the folder (none when the directory does not exist) for
    which no entry matches. *)
Theorem avocadoForDir_removes_excluded (env : Environment) (fuel : nat)
    (dir : string) (exclude : list string) (result : ErrorMap) :
  avocadoForDir env fuel dir exclude = Ok result →
  let collected :=
    if existsSync env dir
    then collectErrors env (emitted (validateFolder env fuel dir))
    else [] in
  (∀ k v, (k, v) ∈ result →
     ∀ item, item ∈ exclude →
       stringSearch env (Err.path v) item = Some (-1)%Z)
  ∧ (∀ k v, (k, v) ∈ result ↔
       (k, v) ∈ collected
       ∧ isExcluded env exclude (Err.path v) = Ok false).
Proof.
  intros Hrun collected. unfold avocadoForDir in Hrun.
  assert (∃ map, removeExcluded env exclude map map = Ok result
            ∧ map = collected ∧ NoDup (ErrorMap.keys map))
    as (map & Hrm & -> & Hdup).
  { subst collected. destruct (existsSync env dir).
    - destruct (status (validateFolder env fuel dir)); try done.
      eexists. split_and!; [done..|]. apply collectErrors_NoDup.
    - exists []. split_and!; [done..|]. constructor. }
  apply removeExcluded_elem_of in Hrm as [Hok Hresult].
  assert (Hiff : ∀ k v, (k, v) ∈ result ↔
            (k, v) ∈ collected
            ∧ isExcluded env exclude (Err.path v) = Ok false).
  { intros k v. rewrite Hresult. split.
    - intros [Hin Hkept]. split; [done|]. by apply Hkept.
    - intros [Hin Hkept]. split; [done|]. intros v' Hv'.
      by rewrite <- (NoDup_keys_eq _ _ _ _ Hdup Hin Hv'). }
  split; [|done].
  intros k v [_ Hkept]%Hiff. by apply isExcluded_false.
Qed.

(** ** Incremental diff *)

Section Diff.

Context (env : Environment) (fileChanges : list FileChange).

Lemma removeExistingErrors_unrelated keys :
  ∀ sourceMap,
  (∀ k error, (k, error) ∈ sourceMap →
     isPRRelatedError env fileChanges error = false) →
  ∀ k error,
    (k, error) ∈ fold_left
      (λ sourceMap e,
         match ErrorMap.get e sourceMap with
         | Some error =>
             if negb (isPRRelatedError env fileChanges error)
             then ErrorMap.delete e sourceMap
             else sourceMap
         | None => sourceMap
         end) keys sourceMap →
    (k, error) ∈ sourceMap ∧ k ∉ keys.
Proof.
  induction keys as [|e keys IH]; intros sourceMap Hunrelated k error; simpl.
  { intros Hin. split; [done|]. by intros ?%elem_of_nil. }
  assert (
    match ErrorMap.get e sourceMap with
    | Some error =>
        if negb (isPRRelatedError env fileChanges error)
        then ErrorMap.delete e sourceMap
        else sourceMap
    | None => sourceMap
    end = ErrorMap.delete e sourceMap) as ->.
  { destruct (ErrorMap.get e sourceMap) as [found|] eqn:Hget.
    - by rewrite (Hunrelated e found) by by apply get_Some.
    - symmetry. by apply delete_absent, get_None. }
  intros Hin. apply IH in Hin as [Hin Hkeys].
  - apply delete_elem_of in Hin as [Hin Hne]. split; [done|].
    by intros [?|?]%elem_of_cons.
  - intros k' error' [Hin' _]%delete_elem_of. by eapply Hunrelated.
Qed.

Lemma removeExistingErrors_empty targetMap sourceMap :
  (∀ k, k ∈ ErrorMap.keys sourceMap ↔ k ∈ ErrorMap.keys targetMap) →
  (∀ k error, (k, error) ∈ sourceMap →
     isPRRelatedError env fileChanges error = false) →
  removeExistingErrors env fileChanges targetMap sourceMap = [].
Proof.
  intros Hkeys Hunrelated. unfold removeExistingErrors.
  destruct (fold_left _ _ _) as [|[k error] rest] eqn:Hfold; [done|].
  exfalso.
  destruct (removeExistingErrors_unrelated (ErrorMap.keys targetMap)
              sourceMap Hunrelated k error) as [Hin Hout].
  { rewrite Hfold. by left. }
  apply Hout, Hkeys, elem_of_map. by exists (k, error).
Qed.

End Diff.

(** The comparison the diff engine makes for one manifest directory
    [dir]: when the run on the target branch and the run on the source
    branch return maps with the same correlation keys, and no finding of the
    source map is related to the changed files, every finding is removed
    from the source map before it is emitted: the source map is left empty
    and the comparison yields no finding. *)
Theorem unrelated_existing_findings_suppressed {S : Type}
    (env : Environment) (fuel : nat) (pr : PullRequestProperties)
    (exclude : list string) (dir : string) (targetMap sourceMap : ErrorMap)
    (st : S) :
  avocadoForDir (checkout pr (targetBranch pr)) fuel
    (pathResolve env [workingDir pr; dir]) exclude = Ok targetMap →
  avocadoForDir (checkout pr (sourceBranch pr)) fuel
    (pathResolve env [workingDir pr; dir]) exclude = Ok sourceMap →
  (∀ k, k ∈ ErrorMap.keys sourceMap ↔ k ∈ ErrorMap.keys targetMap) →
  (∀ k error, (k, error) ∈ sourceMap →
     isPRRelatedError env (diff pr) error = false) →
  removeExistingErrors env (diff pr) targetMap sourceMap = []
  ∧ compareBranches env fuel pr exclude dir st = MkOutcome Finished st [].
Proof.
  intros Htarget Hsource Hkeys Hunrelated.
  assert (Hempty : removeExistingErrors env (diff pr) targetMap sourceMap = [])
    by by apply removeExistingErrors_empty.
  split; [done|].
  unfold compareBranches. rewrite Htarget, Hsource. simpl.
  by rewrite Hempty.
Qed.

(** The whole run of the diff engine: when the comparison of every manifest
    directory it locates is as above, what it yields is what its first loop
    yielded, the [MISSING_README] findings of changed directories without a
    manifest. *)
Lemma avocadoForDevOps_suppresses (env : Environment) (fuel : nat)
    (pr : PullRequestProperties) (exclude : list string) :
  let located :=
    Gen.forEach (locateReadme env fuel pr exclude) (swaggerParentDirs env pr)
      [] in
  status located = Finished →
  (∀ dir, dir ∈ final located →
     ∃ targetMap sourceMap,
       avocadoForDir (checkout pr (targetBranch pr)) fuel
         (pathResolve env [workingDir pr; dir]) exclude = Ok targetMap
       ∧ avocadoForDir (checkout pr (sourceBranch pr)) fuel
           (pathResolve env [workingDir pr; dir]) exclude = Ok sourceMap
       ∧ (∀ k, k ∈ ErrorMap.keys sourceMap ↔ k ∈ ErrorMap.keys targetMap)
       ∧ (∀ k error, (k, error) ∈ sourceMap →
            isPRRelatedError env (diff pr) error = false)) →
  avocadoForDevOps env fuel pr exclude
  = MkOutcome Finished (final located) (emitted located).
Proof.
  intros located Hlocated Hdirs. unfold avocadoForDevOps.
  fold located. rewrite andThen_finished by done. fold located.
  assert (Hcompare : ∀ dirs (st : list string),
    (∀ dir, dir ∈ dirs → dir ∈ final located) →
    Gen.forEach (compareBranches env fuel pr exclude) dirs st
    = MkOutcome Finished st []).
  { induction dirs as [|dir dirs IH]; intros st Hin; [done|].
    rewrite forEach_cons.
    destruct (Hdirs dir) as (targetMap & sourceMap & Ht & Hs & Hkeys & Hun).
    { apply Hin. by left. }
    erewrite andThen_outcome.
    2:{ unfold compareBranches. rewrite Ht, Hs. simpl.
        by rewrite (removeExistingErrors_empty env (diff pr)). }
    rewrite IH; [done|]. intros d Hd. apply Hin. by right. }
  rewrite Hcompare by done. simpl. by rewrite app_nil_r.
Qed.

(** ** Default tag and its versions (C8) *)

Lemma firstTaggedBlock_first env markDown keys tag :
  firstTaggedBlock env (getCodeBlocksAndHeadings env markDown) keys = Some tag
  ↔ ∃ pre idx post, keys = pre ++ idx :: post
      ∧ yamlBlockTag env markDown idx = Some tag
      ∧ Forall (λ i, yamlBlockTag env markDown i = None) pre.
Proof.
  induction keys as [|idx keys IH]; simpl.
  { split; [done|]. by intros ([|??] & ? & ? & ? & _). }
  assert (Hstep :
    firstTaggedBlock env (getCodeBlocksAndHeadings env markDown) (idx :: keys)
    = match yamlBlockTag env markDown idx with
      | Some t => Some t
      | None =>
          firstTaggedBlock env (getCodeBlocksAndHeadings env markDown) keys
      end).
  { simpl. unfold yamlBlockTag.
    destruct (blockOf _ idx) as [block|]; [|done].
    destruct (truthyString (Md.info block)); simpl; [|done].
    destruct (truthyString (Md.literal block)); simpl; [|done].
    by destruct (isYamlOrJson _). }
  simpl in Hstep. rewrite Hstep.
  destruct (yamlBlockTag env markDown idx) as [t|] eqn:Hidx.
  - split.
    + intros [= ->]. by exists [], idx, keys.
    + intros ([|i pre] & idx' & post & [= <- ?] & Htag & Hpre).
      * congruence.
      * apply Forall_cons in Hpre as [Hi _]. congruence.
  - rewrite IH. split.
    + intros (pre & idx' & post & -> & Htag & Hpre).
      exists (idx :: pre), idx', post. split_and!; [done..|].
      by constructor.
    + intros ([|i pre] & idx' & post & [= <- ?] & Htag & Hpre).
      * congruence.
      * exists pre, idx', post. split_and!; [done..|].
        by apply Forall_cons in Hpre as [_ ?].
Qed.

Lemma apiVersionRegex_nonempty s : apiVersionRegex s = true → s ≠ "".
Proof. by destruct s. Qed.

Lemma getVersionFromInputFile_nonempty f v :
  getVersionFromInputFile f = Some v → v ≠ "".
Proof.
  unfold getVersionFromInputFile. destruct (_ <? _); [|done].
  intros [_ Hv]%find_some. by apply apiVersionRegex_nonempty.
Qed.

Lemma size_two_distinct (X : gset string) :
  1 < size X ↔ ∃ x y, x ∈ X ∧ y ∈ X ∧ x ≠ y.
Proof.
  split.
  - intros Hsize.
    destruct (size_pos_elem_of X) as [x Hx]; [lia|].
    destruct (size_pos_elem_of (X ∖ {[x]})) as [y Hy].
    { rewrite size_difference by set_solver. rewrite size_singleton. lia. }
    exists x, y. set_solver.
  - intros (x & y & Hx & Hy & Hne).
    assert (size ({[x; y]} : gset string) = 2) as Htwo.
    { rewrite size_union by set_solver. by rewrite !size_singleton. }
    assert (size ({[x; y]} : gset string) ≤ size X)
      by (apply subseteq_size; set_solver).
    lia.
Qed.

Lemma multiVersionLoop_distinct files :
  ∀ versions : gset string, size versions ≤ 1 →
  multiVersionLoop versions files = true
  ↔ ∃ v1 v2, v1 ≠ v2
      ∧ (v1 ∈ versions ∨ versionOf files v1)
      ∧ (v2 ∈ versions ∨ versionOf files v2).
Proof.
  induction files as [|file files IH]; intros versions Hsize; simpl.
  { split; [done|]. intros (v1 & v2 & Hne & [H1|(? & ?%elem_of_nil & _)]
                            & [H2|(? & ?%elem_of_nil & _)]); try done.
    assert (1 < size versions) by (apply size_two_distinct; eauto). lia. }
  assert (Hcons : ∀ v, versionOf (file :: files) v
            ↔ getVersionFromInputFile file = Some v ∨ versionOf files v).
  { intros v. unfold versionOf. split.
    - intros (f & [->|Hf]%elem_of_cons & Hv); eauto.
    - intros [Hv|(f & Hf & Hv)].
      + exists file. split; [by left|done].
      + exists f. split; [by right|done]. }
  destruct (getVersionFromInputFile file) as [version|] eqn:Hversion.
  - rewrite (proj2 (String.eqb_neq _ _))
      by by eapply getVersionFromInputFile_nonempty.
    simpl. destruct (Nat.ltb_spec 1 (size (versions ∪ {[version]})))
      as [Hmany|Hfew].
    + split; [intros _|done].
      apply size_two_distinct in Hmany as (x & y & Hx & Hy & Hne).
      exists x, y. split; [done|]. setoid_rewrite Hcons.
      split; [clear Hy|clear Hx]; set_solver.
    + rewrite IH by done. setoid_rewrite Hcons.
      split; intros (v1 & v2 & Hne & H1 & H2); exists v1, v2;
        (split; [done|]); split; set_solver.
  - rewrite IH by done. setoid_rewrite Hcons.
    split; intros (v1 & v2 & Hne & H1 & H2); exists v1, v2;
      (split; [done|]); split; naive_solver.
Qed.

Lemma isContainsMultiVersion_distinct env m :
  isContainsMultiVersion env m = true
  ↔ ∃ tag files, getDefaultTag env m = Some tag
      ∧ getInputFilesForTag env m tag = Some files
      ∧ ∃ v1 v2, v1 ≠ v2 ∧ versionOf files v1 ∧ versionOf files v2.
Proof.
  unfold isContainsMultiVersion.
  destruct (getDefaultTag env m) as [tag|]; [|by split; [|intros (?&?&?&_)]].
  destruct (getInputFilesForTag env m tag) as [files|] eqn:Hfiles.
  - rewrite multiVersionLoop_distinct by (rewrite size_empty; lia). split.
    + intros (v1 & v2 & Hne & [?|H1] & [?|H2]); try set_solver.
    + intros (tag' & files' & [= <-] & Hfiles' & v1 & v2 & Hne & H1 & H2).
      rewrite Hfiles in Hfiles'. injection Hfiles' as <-. eauto 10.
  - split; [done|].
    intros (tag' & files' & [= <-] & Hfiles' & _). congruence.
Qed.

(** C8, as the program has it.  The default tag of a manifest is the tag
    of the code block of its "Basic Information" section and, when that
    gives none, the tag of the first code block, in key order, that is
    tagged yaml or json and declares one.  [validateReadMeFile] yields
    [MULTIPLE_API_VERSION], a warning naming that tag, exactly when the
    default tag exists and the versions that [getVersionFromInputFile]
    extracts from the tag's input files (see C10: the first matching
    directory segment of a file with at least two directory segments) are
    more than one. *)
Theorem default_tag_multiple_versions (env : Environment)
    (readMePath file : string) :
  readFile env readMePath = Some file →
  let m := mdParse env file in
  let run := validateReadMeFile env readMePath tt in
  (∀ tag, basicInformationTag env m = Some tag →
     getDefaultTag env m = Some tag)
  ∧ (basicInformationTag env m = None →
     ∀ tag, getDefaultTag env m = Some tag
       ↔ ∃ pre idx post,
           map fst (getCodeBlocksAndHeadings env m) = pre ++ idx :: post
           ∧ yamlBlockTag env m idx = Some tag
           ∧ Forall (λ i, yamlBlockTag env m i = None) pre)
  ∧ filter (λ e, Err.code e = MULTIPLE_API_VERSION) (emitted run)
    = (if isContainsMultiVersion env m
       then [MultipleApiVersion
               "The default tag contains multiple API versions swaggers."
               readMePath (getDefaultTag env m) readMePath LevelWarning]
       else [])
  ∧ (isContainsMultiVersion env m = true
     ↔ ∃ tag files, getDefaultTag env m = Some tag
         ∧ getInputFilesForTag env m tag = Some files
         ∧ ∃ v1 v2, v1 ≠ v2 ∧ versionOf files v1 ∧ versionOf files v2).
Proof.
  intros Hread m run. split_and!.
  - intros tag Htag. unfold getDefaultTag.
    unfold basicInformationTag in Htag. by rewrite Htag.
  - intros Hnone tag. unfold getDefaultTag.
    unfold basicInformationTag in Hnone. rewrite Hnone.
    apply firstTaggedBlock_first.
  - subst run. unfold validateReadMeFile. rewrite Hread. fold m.
    destruct (isAutoRestMd m), (isContainsMultiVersion env m); done.
  - apply isContainsMultiVersion_distinct.
Qed.

(** ** Version and path (C6) *)

(** When the document has no [info], the rule yields nothing; when its
    [info] declares a version that is a string, the rule yields
    [INCONSISTENT_API_VERSION], an error, exactly when the path does not
    contain the version. *)
Lemma validateSpecificationAPIVersion_declared (current : Specification)
    (document : Json) :
  (JsonOps.getProp document "info" = None →
   validateSpecificationAPIVersion current document = Some [])
  ∧ (∀ info version,
       JsonOps.getProp document "info" = Some info →
       JsonOps.getProp info "version" = Some (JString version) →
       validateSpecificationAPIVersion current document
       = Some (if Js.includes (path current) version then []
               else [JsonFileError InconsistentApiVersion
                       "The API version of the swagger is inconsistent with its file path."
                       (readMePath current) LevelError (path current)
                       (path current)])).
Proof.
  unfold validateSpecificationAPIVersion. split.
  - by intros ->.
  - intros info version -> Hversion. rewrite Hversion. simpl.
    destruct info; try done. by destruct (Js.includes _ _).
Qed.

(** C6 fails on a document whose [info] declares no version: the rule
    compares the path with the text "undefined" and yields the finding. *)
Lemma validateSpecificationAPIVersion_without_version :
  validateSpecificationAPIVersion
    {| path := "/specification/compute/2021-01-01/compute.json";
       readMePath := "/specification/compute/readme.md";
       kind := SWAGGER |}
    (JObject [("swagger", JString "2.0");
              ("info", JObject [("title", JString "Compute")])])
  = Some [JsonFileError InconsistentApiVersion
            "The API version of the swagger is inconsistent with its file path."
            "/specification/compute/readme.md" LevelError
            "/specification/compute/2021-01-01/compute.json"
            "/specification/compute/2021-01-01/compute.json"].
Proof. reflexivity. Qed.

(** ** Examples on the sample trees *)

Lemma sample_lookup_is_Some {A} (k : string) (table : list (string * A)) :
  is_Some (Sample.lookup k table) → k ∈ map fst table.
Proof.
  unfold Sample.lookup. intros [v Hv].
  destruct (find _ table) as [[k' v']|] eqn:Hfind; [|done].
  apply find_some in Hfind as [Hin Heq]. simpl in Heq.
  apply String.eqb_eq in Heq as ->.
  apply elem_of_map. exists (k, v'). split; [done|]. by apply list_elem_of_In.
Qed.

(** C1 as stated fails twice on the sample tree.  The root [D.json] cannot
    be read: its traversal finishes and leaves it gray, not black.  And
    [A.json], whose references are [B.json] and [C.json], is black and no
    longer gray once its first reference has been dealt with, while its
    second reference has not been looked at yet. *)
Lemma walker_colouring_counterexample :
  (let run :=
     traverseRoots Sample.tree 3 [Sample.swagger "/s/D.json"] emptySets in
   readFile Sample.tree "/s/D.json" = None
   ∧ status run = Finished
   ∧ graySet (final run) = {["/s/D.json"]}
   ∧ blackSet (final run) = ∅)
  ∧ (let visit :=
       visitReference Sample.tree (DFSTraversalValidate Sample.tree 3)
         (Sample.swagger "/s/A.json") "/s/B.json"
         {| graySet := {["/s/A.json"]}; blackSet := ∅ |} in
     getReferencedFileNames Sample.tree "/s/A.json"
       (Sample.refsTo ["B.json"; "C.json"])
     = ["/s/B.json"; "/s/C.json"]
     ∧ status visit = Finished
     ∧ graySet (final visit) = ∅
     ∧ blackSet (final visit) = {["/s/A.json"; "/s/B.json"]}).
Proof. vm_compute. repeat split. Qed.

Lemma walker_colouring_witness :
  let run :=
    traverseRoots Sample.tree 3
      [Sample.swagger "/s/D.json"; Sample.swagger "/s/A.json"] emptySets in
  status run = Finished
  ∧ graySet (final run) ## blackSet (final run)
  ∧ (∀ p, p ∈ graySet (final run) → readFile Sample.tree p = None)
  ∧ "/s/A.json" ∈ blackSet (final run).
Proof.
  intros run.
  assert (Hfin : status run = Finished) by (vm_compute; reflexivity).
  destruct (walker_colouring Sample.tree 3) as (_ & _ & _ & Hroots).
  destruct (Hroots _ Hfin) as (Hdisjoint & Hgray & Hblack).
  split_and!; [done..|].
  apply (Hblack (Sample.swagger "/s/A.json")).
  - apply elem_of_cons. right. by left.
  - by eexists.
Defined.

Lemma circular_pair_one_finding_witness :
  let run :=
    validateInputFiles Sample.pair 2
      [Sample.swagger "/s/A.json"; Sample.swagger "/s/B.json"] [] in
  status run = Finished
  ∧ filter (λ e, Err.code e = CIRCULAR_REFERENCE) (emitted run)
    = [JsonFileError CircularReference
         "The JSON file has a circular reference." "/s/readme.md"
         LevelWarning "/s/B.json" "/s/B.json"]
  ∧ blackSet (final run) = {["/s/A.json"; "/s/B.json"]}
  ∧ graySet (final run) = ∅.
Proof.
  intros run.
  destruct (circular_pair_one_finding Sample.pair "/s/A.json" "/s/B.json"
              "/s/readme.md" "text of A" "text of B"
              (Sample.refsTo ["B.json"]) (Sample.refsTo ["A.json"])
              ltac:(done) ltac:(reflexivity) ltac:(reflexivity)
              ltac:(reflexivity) ltac:(reflexivity) ltac:(done) ltac:(done)
              ltac:(reflexivity) ltac:(reflexivity) ltac:(reflexivity)
              ltac:(reflexivity) 2 [] ltac:(lia))
    as (Hfin & Hone & Hblack & Hgray & _).
  by split_and!.
Defined.

Lemma walker_terminates_witness :
  (∀ p, is_Some (readFile Sample.tree p) →
        p ∈ ["/s/A.json"; "/s/B.json"; "/s/C.json"])
  ∧ ∃ budget, ∀ fuel, budget ≤ fuel →
      status (validateInputFiles Sample.tree fuel
                [Sample.swagger "/s/A.json"; Sample.swagger "/s/D.json"] [])
        ≠ OutOfFuel.
Proof.
  assert (Hfiles : ∀ p, is_Some (readFile Sample.tree p) →
            p ∈ ["/s/A.json"; "/s/B.json"; "/s/C.json"]).
  { intros p Hp. by apply sample_lookup_is_Some in Hp. }
  split; [done|].
  destruct (walker_terminates Sample.tree _ Hfiles) as [[budget Hbudget] _].
  exists budget. intros fuel Hfuel.
  by destruct (Hbudget fuel Hfuel) as [Hrun _]; apply Hrun.
Defined.

Lemma unreferenced_files_reported_witness :
  let a := {| path := "/repo/rm/2020-01-01/a.json";
              readMePath := "/repo/rm/readme.md"; kind := SWAGGER |} in
  let orphan := {| path := "/repo/rm/2020-01-01/orphan.json";
                   readMePath := "/repo/rm/readme.md"; kind := SWAGGER |} in
  let run := validateInputFiles Sample.repo 2 [a] [a; orphan] in
  status run = Finished
  ∧ filter (λ e, Err.code e = UNREFERENCED_JSON_FILE) (emitted run)
    = [JsonFileError UnreferencedJsonFile
         "The swagger JSON file is not referenced from the readme file."
         "/repo/rm/readme.md" LevelError "/repo/rm/2020-01-01/orphan.json"
         "/repo/rm/2020-01-01/orphan.json"].
Proof.
  intros a orphan run.
  assert (Hfin : status run = Finished) by (vm_compute; reflexivity).
  split; [done|].
  destruct (unreferenced_files_reported Sample.repo 2 [a] [a; orphan] Hfin)
    as (_ & _ & Hfound & _).
  etrans; [exact Hfound|]. vm_compute. reflexivity.
Defined.

Lemma avocadoForDir_removes_excluded_witness :
  let orphan :=
    JsonFileError UnreferencedJsonFile
      "The swagger JSON file is not referenced from the readme file."
      "/repo/rm/readme.md" LevelError "/repo/rm/2020-01-01/orphan.json"
      "/repo/rm/2020-01-01/orphan.json" in
  avocadoForDir Sample.repo 3 "/repo/rm" ["a.json"]
  = Ok [("UNREFERENCED_JSON_FILE|/repo/rm/2020-01-01/orphan.json|", orphan)]
  ∧ stringSearch Sample.repo (Err.path orphan) "a.json" = Some (-1)%Z
  ∧ avocadoForDir Sample.repo 3 "/repo/rm" ["a.json"; "orphan"] = Ok [].
Proof.
  intros orphan.
  assert (Hrun : avocadoForDir Sample.repo 3 "/repo/rm" ["a.json"]
            = Ok [("UNREFERENCED_JSON_FILE|/repo/rm/2020-01-01/orphan.json|",
                   orphan)]) by (vm_compute; reflexivity).
  split_and!; [done| |vm_compute; reflexivity].
  destruct (avocadoForDir_removes_excluded _ _ _ _ _ Hrun) as [Hgone _].
  eapply Hgone; by left.
Defined.

(** C8 as stated fails on [Sample.flatManifest]: the default tag exists
    and its two input files have the distinct version-looking segments
    [2020-01-01] and [2021-01-01], yet no version is extracted from a file
    with a single directory, and no finding is yielded. *)
Lemma default_tag_multiple_versions_counterexample :
  let m := mdParse Sample.flatManifest "manifest" in
  readFile Sample.flatManifest "/m/readme.md" = Some "manifest"
  ∧ getDefaultTag Sample.flatManifest m = Some (JString "package-2021")
  ∧ getInputFilesForTag Sample.flatManifest m (JString "package-2021")
    = Some ["2020-01-01/a.json"; "2021-01-01/b.json"]
  ∧ Js.split "/" "2020-01-01/a.json" = ["2020-01-01"; "a.json"]
  ∧ Js.split "/" "2021-01-01/b.json" = ["2021-01-01"; "b.json"]
  ∧ apiVersionRegex "2020-01-01" = true
  ∧ apiVersionRegex "2021-01-01" = true
  ∧ isContainsMultiVersion Sample.flatManifest m = false
  ∧ emitted (validateReadMeFile Sample.flatManifest "/m/readme.md" tt) = [].
Proof. vm_compute. repeat split. Qed.

Lemma default_tag_multiple_versions_witness :
  filter (λ e, Err.code e = MULTIPLE_API_VERSION)
    (emitted (validateReadMeFile Sample.nestedManifest "/m/readme.md" tt))
  = [MultipleApiVersion
       "The default tag contains multiple API versions swaggers."
       "/m/readme.md" (Some (JString "package-2021")) "/m/readme.md"
       LevelWarning].
Proof.
  destruct (default_tag_multiple_versions Sample.nestedManifest
              "/m/readme.md" "manifest" eq_refl) as (_ & _ & Hfound & _).
  etrans; [exact Hfound|]. vm_compute. reflexivity.
Defined.

(** * Further properties of the program *)

(** ** Sequences that may reject *)

Lemma andThen_skip {S} (m : Gen S) st : (m ;; Gen.skip) st = m st.
Proof.
  unfold Gen.andThen. destruct (status (m st)) eqn:Hstatus; [|done..].
  simpl. rewrite app_nil_r, <- Hstatus. apply outcome_eta.
Qed.

Lemma forAwait_ends {S} (body : string → Gen S) (xs : Listing) st :
  rejects xs = false →
  Gen.forAwait body xs st = Gen.forEach body (yielded xs) st.
Proof. intros Hends. unfold Gen.forAwait. rewrite Hends. apply andThen_skip. Qed.

Lemma forAwait_outcome {S} (body : string → Gen S) (xs : Listing) st :
  let rounds := Gen.forEach body (yielded xs) st in
  final (Gen.forAwait body xs st) = final rounds
  ∧ emitted (Gen.forAwait body xs st) = emitted rounds
  ∧ status (Gen.forAwait body xs st)
    = match status rounds with
      | Finished => if rejects xs then Threw else Finished
      | stopped => stopped
      end.
Proof.
  intros rounds. subst rounds. unfold Gen.forAwait, Gen.andThen.
  destruct (status (Gen.forEach body (yielded xs) st)) eqn:Hstatus;
    rewrite ?Hstatus; [|done..].
  destruct (rejects xs); simpl; by rewrite app_nil_r.
Qed.

Lemma forAwait_finished {S} (body : string → Gen S) (xs : Listing) st :
  status (Gen.forAwait body xs st) = Finished
  ↔ status (Gen.forEach body (yielded xs) st) = Finished ∧ rejects xs = false.
Proof.
  destruct (forAwait_outcome body xs st) as (_ & _ & ->).
  destruct (status (Gen.forEach body (yielded xs) st)), (rejects xs);
    naive_solver.
Qed.

(** ** References of a document *)

(** Induction on a JSON value, with the hypothesis for every item of an
    array and every entry of an object. *)
Lemma Json_nested_ind (P : Json → Prop) :
  P JNull → (∀ b, P (JBool b)) → (∀ text, P (JNumber text)) →
  (∀ s, P (JString s)) →
  (∀ items, Forall P items → P (JArray items)) →
  (∀ entries, Forall (λ kv, P kv.2) entries → P (JObject entries)) →
  ∀ j, P j.
Proof.
  intros Hnull Hbool Hnumber Hstring Harray Hobject.
  fix IH 1. intros j. destruct j as [|b|text|s|items|entries].
  - exact Hnull.
  - apply Hbool.
  - apply Hnumber.
  - apply Hstring.
  - apply Harray. induction items as [|x items IHitems].
    + constructor.
    + constructor; [apply IH|exact IHitems].
  - apply Hobject. induction entries as [|[k v] entries IHentries].
    + constructor.
    + constructor; [apply IH|exact IHentries].
Qed.

Lemma getRefs_entry k v :
  (match String.eqb k "$ref", v with
   | true, JString s => [s]
   | _, _ => getRefs v
   end)
  = match v with
    | JString s => if String.eqb k "$ref" then [s] else []
    | _ => getRefs v
    end.
Proof. destruct (String.eqb k "$ref"), v; done. Qed.

Lemma getRefs_RefAt j s : s ∈ getRefs j ↔ RefAt j s.
Proof.
  revert s.
  induction j as [|b|text|t|items IH|entries IH] using Json_nested_ind;
    intros s; simpl; try (split; [by intros ?%elem_of_nil|by inversion 1]).
  - rewrite list_elem_of_In, in_flat_map. split.
    + intros (x & Hx & Hs). apply list_elem_of_In in Hx, Hs.
      rewrite Forall_forall in IH. apply RefAt_item with x; [done|].
      by apply IH.
    + inversion 1 as [| |? x ? Hx Hs]; subst. exists x.
      rewrite Forall_forall in IH. rewrite <- !list_elem_of_In.
      split; [done|]. by apply IH.
  - rewrite list_elem_of_In, in_flat_map. rewrite Forall_forall in IH. split.
    + intros ([k v] & Hkv & Hs). apply list_elem_of_In in Hkv, Hs.
      rewrite getRefs_entry in Hs.
      destruct v as [|b|text|t|items|fields];
        try (by apply elem_of_nil in Hs);
        try (eapply RefAt_entry; [exact Hkv|]; by apply (IH _ Hkv)).
      destruct (String.eqb_spec k "$ref") as [->|];
        [|by apply elem_of_nil in Hs].
      apply list_elem_of_singleton in Hs as ->. by apply RefAt_here.
    + inversion 1 as [? ? Hin|? k v ? Hin Hs|]; subst.
      * exists ("$ref", JString s). rewrite <- !list_elem_of_In.
        split; [done|]. simpl. by left.
      * exists (k, v). rewrite <- !list_elem_of_In. split; [done|].
        rewrite getRefs_entry. destruct v; try by apply (IH (k, _)).
        by inversion Hs.
Qed.

(** X1.  [getRefs] returns exactly the strings that are the value of a
    [$ref] key of the document, at any depth of objects and arrays (a
    string under a key of another name is no reference, and a [$ref] whose
    value is no string is searched like any other entry), and it returns
    them in document order: the references of the entries, or items, that
    come first come first. *)
Theorem getRefs_collects_ref_values (j : Json) :
  (∀ s, s ∈ getRefs j ↔ RefAt j s)
  ∧ (∀ entries entries',
       getRefs (JObject (entries ++ entries'))
       = getRefs (JObject entries) ++ getRefs (JObject entries'))
  ∧ (∀ items items',
       getRefs (JArray (items ++ items'))
       = getRefs (JArray items) ++ getRefs (JArray items')).
Proof.
  split_and!.
  - intros s. apply getRefs_RefAt.
  - intros entries entries'. simpl. apply flat_map_app.
  - intros items items'. simpl. apply flat_map_app.
Qed.

Lemma indexOf_None_free c s : Js.indexOf c s = None ↔ freeOf c s.
Proof. done. Qed.

Lemma indexOf_Some c s i :
  Js.indexOf c s = Some i →
  freeOf c (Js.substrTo i s)
  ∧ s = Js.substrTo i s +:+ String c (Js.substrFrom (i + 1) s).
Proof.
  revert i. induction s as [|d s IH]; intros i; simpl; [done|].
  destruct (Ascii.eqb_spec d c) as [->|Hne].
  - intros [= <-]. done.
  - destruct (Js.indexOf c s) as [n|] eqn:Hindex; [|done].
    simpl. intros [= <-]. destruct (IH n eq_refl) as [Hfree Heq].
    simpl. split.
    + apply freeOf_cons. split; [|done]. by apply Ascii.eqb_neq.
    + change (String d s
              = String d (Js.substrTo n s
                          +:+ String c (Js.substrFrom (n + 1) s))).
      by rewrite <- Heq.
Qed.

(** X2.  [parseRef] cuts a reference at its first [#]: the url holds no
    [#]; a reference without [#] is its own url, with an empty pointer;
    and a reference with a [#] is its url, the [#] and its pointer put
    together again. *)
Theorem parseRef_cuts_at_first_hash (ref : string) :
  freeOf "#" (url (parseRef ref))
  ∧ (freeOf "#" ref → parseRef ref = {| url := ref; pointer := "" |})
  ∧ (¬ freeOf "#" ref →
     ref = url (parseRef ref) +:+ "#" +:+ pointer (parseRef ref)).
Proof.
  unfold parseRef.
  destruct (Js.indexOf "#" ref) as [i|] eqn:Hindex.
  - apply indexOf_Some in Hindex as [Hfree Heq]. simpl.
    split_and!; [done| |done].
    intros Hnone. exfalso. unfold freeOf in Hnone.
    rewrite Heq in Hnone. clear Heq. revert Hnone.
    induction (Js.substrTo i ref) as [|d s IH]; simpl.
    + done.
    + apply freeOf_cons in Hfree as [Hd Hs]. rewrite Hd.
      destruct (Js.indexOf _ _); [done|]. intros _. by apply IH.
  - simpl. split_and!; [done..|]. intros Hhash. by destruct Hhash.
Qed.

Lemma parseRef_fragment rest : url (parseRef (String "#" rest)) = "".
Proof. done. Qed.

Lemma getReferencedFileNames_elem_of env fileName doc r :
  r ∈ getReferencedFileNames env fileName doc
  ↔ ∃ ref, RefAt doc ref ∧ url (parseRef ref) ≠ ""
      ∧ r = pathResolve env
              [pathJoin env [pathDirname env fileName; url (parseRef ref)]].
Proof.
  unfold getReferencedFileNames. rewrite elem_of_map. split.
  - intros (u & -> & Hu). apply list_elem_of_filter in Hu as [Hne Hu].
    apply elem_of_map in Hu as (ref & -> & Href).
    exists ref. split_and!; [|done..]. by apply getRefs_RefAt.
  - intros (ref & Href & Hne & ->). eexists. split; [done|].
    apply list_elem_of_filter. split; [done|].
    apply elem_of_map. exists ref. split; [done|]. by apply getRefs_RefAt.
Qed.

(** X3.  The files a document refers to: each [$ref] value whose part
    before the first [#] is not empty names one file, that part joined to
    the directory of the referring file and resolved; nothing else is
    referred to.  So a document whose references all begin with [#], the
    references into the document itself, refers to no file; and there are
    never more file names than references. *)
Theorem getReferencedFileNames_of_ref_urls (env : Environment)
    (fileName : string) (doc : Json) :
  (∀ r, r ∈ getReferencedFileNames env fileName doc
     ↔ ∃ ref, RefAt doc ref ∧ url (parseRef ref) ≠ ""
         ∧ r = pathResolve env
                 [pathJoin env
                    [pathDirname env fileName; url (parseRef ref)]])
  ∧ ((∀ ref, RefAt doc ref → ∃ rest, ref = String "#" rest) →
     getReferencedFileNames env fileName doc = [])
  ∧ length (getReferencedFileNames env fileName doc) ≤ length (getRefs doc).
Proof.
  split_and!.
  - intros r. apply getReferencedFileNames_elem_of.
  - intros Hlocal.
    destruct (getReferencedFileNames env fileName doc) as [|r rest] eqn:Heq;
      [done|].
    assert (r ∈ getReferencedFileNames env fileName doc) as Hr
      by (rewrite Heq; by left).
    apply getReferencedFileNames_elem_of in Hr as (ref & Href & Hne & _).
    destruct (Hlocal ref Href) as [tail ->]. by rewrite parseRef_fragment in Hne.
  - unfold getReferencedFileNames. rewrite !length_map.
    etrans; [apply length_filter|]. by rewrite length_map.
Qed.

(** ** Example files *)

Lemma existsb_elem_of (x : string) (l : list string) :
  existsb (λ y, String.eqb y x) l = bool_decide (x ∈ l).
Proof.
  induction l as [|y l IH]; cbn [existsb].
  - symmetry. apply bool_decide_eq_false_2. by intros ?%elem_of_nil.
  - rewrite IH. destruct (String.eqb_spec y x) as [->|Hne]; cbn [orb].
    + symmetry. apply bool_decide_eq_true_2. by left.
    + apply bool_decide_ext. rewrite elem_of_cons. naive_solver.
Qed.

(** X4.  [isExample] looks at whole path segments: a path made of the
    segments [segs] is an example exactly when one of them, a directory or
    the file name itself, is [examples] letter for letter. *)
Theorem isExample_whole_segment (env : Environment) (segs : list string) :
  Forall (freeOf (pathSep env)) segs →
  isExample env (Js.join (String (pathSep env) "") segs)
  = bool_decide ("examples" ∈ segs).
Proof.
  intros Hfree. unfold isExample. rewrite existsb_elem_of.
  destruct segs as [|seg segs]; [done|].
  by rewrite split_join.
Qed.

(** ** The nearest manifest *)

Lemma ancestor_dirname env k p :
  ancestor env k (pathDirname env p) = ancestor env (S k) p.
Proof.
  unfold ancestor. induction k as [|k IH]; [done|].
  simpl in *. by rewrite IH.
Qed.

Lemma climbs_dirname env cwd p k :
  p ≠ cwd → containsReadme env p = false →
  climbs env cwd (pathDirname env p) k → climbs env cwd p (S k).
Proof.
  intros Hcwd Hreadme Hclimbs [|j] Hj; [done|].
  rewrite <- ancestor_dirname. apply Hclimbs. lia.
Qed.

Lemma findTheNearestReadme_rounds env cwd fuel :
  ∀ p result, findTheNearestReadme env fuel cwd p = Ok result →
  ∃ k, k < fuel ∧ climbs env cwd p k
    ∧ match result with
      | Some dir =>
          dir = ancestor env k p ∧ dir ≠ cwd ∧ containsReadme env dir = true
      | None => ancestor env k p = cwd
      end.
Proof.
  induction fuel as [|fuel IH]; intros p result; simpl; [done|].
  destruct (String.eqb_spec p cwd) as [->|Hcwd].
  { intros [= <-]. exists 0. split; [lia|]. split; [|done].
    intros j Hj. lia. }
  destruct (containsReadme env p) eqn:Hreadme.
  { intros [= <-]. exists 0. split; [lia|]. split; [|done].
    intros j Hj. lia. }
  intros (k & Hk & Hclimbs & Hresult)%IH. exists (S k).
  split; [lia|]. split; [by apply climbs_dirname|].
  by rewrite <- ancestor_dirname.
Qed.

(** X5.  What [findTheNearestReadme] returns is the nearest manifest
    directory strictly below [cwd]: when it returns a directory, that is
    the first of [swaggerPath], its parent, its parent's parent and so on
    that holds a [readme.md], no directory before it is [cwd], and it is
    not [cwd] itself; when it returns [undefined], the climb has arrived
    at [cwd] and no directory before holds a [readme.md].  A manifest in
    [cwd] itself is never looked for. *)
Theorem findTheNearestReadme_nearest (env : Environment) (fuel : nat)
    (cwd swaggerPath : string) (result : option string) :
  findTheNearestReadme env fuel cwd swaggerPath = Ok result →
  ∃ k, climbs env cwd swaggerPath k
    ∧ match result with
      | Some dir =>
          dir = ancestor env k swaggerPath ∧ dir ≠ cwd
          ∧ containsReadme env dir = true
      | None => ancestor env k swaggerPath = cwd
      end.
Proof.
  intros (k & _ & Hclimbs & Hresult)%findTheNearestReadme_rounds.
  by exists k.
Qed.

Lemma findTheNearestReadme_stops env cwd n :
  ∀ p fuel,
    ancestor env n p = cwd ∨ containsReadme env (ancestor env n p) = true →
    n < fuel →
    ∃ result, findTheNearestReadme env fuel cwd p = Ok result
      ∧ findTheNearestReadme env (S n) cwd p = Ok result.
Proof.
  induction n as [|n IH]; intros p [|fuel] Hstop Hfuel; try lia; simpl.
  - destruct (String.eqb_spec p cwd); [by eexists|].
    destruct Hstop as [?|Hreadme]; [done|]. simpl in Hreadme.
    rewrite Hreadme. by eexists.
  - destruct (String.eqb_spec p cwd); [by eexists|].
    destruct (containsReadme env p); [by eexists|].
    apply IH; [|lia]. by rewrite ancestor_dirname.
Qed.

Lemma findTheNearestReadme_endless env cwd fuel :
  ∀ p, climbs env cwd p fuel → findTheNearestReadme env fuel cwd p = NoFuel.
Proof.
  induction fuel as [|fuel IH]; intros p Hclimbs; simpl; [done|].
  destruct (Hclimbs 0 ltac:(lia)) as [Hcwd Hreadme]. simpl in Hcwd, Hreadme.
  destruct (String.eqb_spec p cwd); [done|]. rewrite Hreadme.
  apply IH. intros j Hj. rewrite ancestor_dirname. apply Hclimbs. lia.
Qed.

(** X6.  The loop of [findTheNearestReadme] ends exactly when the climb
    from [swaggerPath] meets [cwd] or a directory with a [readme.md]: if
    the [n]-th directory above [swaggerPath] is such a directory, every
    budget above [n] gives the same result; if no directory above
    [swaggerPath] is, as for a [swaggerPath] that does not lie below [cwd]
    in a tree without manifests, no budget gives a result: the loop does
    not end. *)
Theorem findTheNearestReadme_ends_at_cwd_or_manifest (env : Environment)
    (cwd swaggerPath : string) :
  (∀ n fuel,
     ancestor env n swaggerPath = cwd
     ∨ containsReadme env (ancestor env n swaggerPath) = true →
     n < fuel →
     ∃ result,
       findTheNearestReadme env fuel cwd swaggerPath = Ok result
       ∧ findTheNearestReadme env (S n) cwd swaggerPath = Ok result)
  ∧ ((∀ k, ancestor env k swaggerPath ≠ cwd
           ∧ containsReadme env (ancestor env k swaggerPath) = false) →
     ∀ fuel, findTheNearestReadme env fuel cwd swaggerPath = NoFuel).
Proof.
  split.
  - intros n fuel. apply findTheNearestReadme_stops.
  - intros Hnever fuel. apply findTheNearestReadme_endless.
    intros j _. apply Hnever.
Qed.

(** ** Resource-provider folders without a manifest *)

Lemma validateRPFolderMustContainReadme_loop env fuel dir :
  validateRPFolderMustContainReadme env fuel dir
  = Gen.forAwait (checkFolder env fuel)
      (Listing.map (pathDirname env)
         (Listing.filter (isRPJsonFile env) (recursiveReaddir env dir))).
Proof. done. Qed.

Lemma validateRPFolderMustContainReadme_rounds env fuel dir :
  let run := validateRPFolderMustContainReadme env fuel dir ∅ in
  let rounds := Gen.forEach (checkFolder env fuel) (allJsonDirOf env dir) ∅ in
  final run = final rounds
  ∧ emitted run = emitted rounds
  ∧ status run
    = match status rounds with
      | Finished =>
          if rejects (recursiveReaddir env dir) then Threw else Finished
      | stopped => stopped
      end.
Proof.
  intros run rounds. subst run rounds.
  rewrite validateRPFolderMustContainReadme_loop.
  apply (forAwait_outcome (checkFolder env fuel)
           (Listing.map (pathDirname env)
              (Listing.filter (isRPJsonFile env) (recursiveReaddir env dir)))).
Qed.

Lemma checkFolder_seen env fuel item allJsonSet :
  item ∈ allJsonSet →
  checkFolder env fuel item allJsonSet = MkOutcome Finished allJsonSet [].
Proof.
  intros Hseen. unfold checkFolder. by rewrite bool_decide_eq_true_2.
Qed.

Lemma checkFolder_new env fuel item allJsonSet :
  item ∉ allJsonSet →
  checkFolder env fuel item allJsonSet
  = match findTheNearestReadme env fuel (processCwd env) item with
    | Ok None =>
        MkOutcome Finished (allJsonSet ∪ {[item]}) [missingReadme item]
    | Ok (Some _) => MkOutcome Finished (allJsonSet ∪ {[item]}) []
    | Exception => MkOutcome Threw (allJsonSet ∪ {[item]}) []
    | NoFuel => MkOutcome OutOfFuel (allJsonSet ∪ {[item]}) []
    end.
Proof.
  intros Hnew. unfold checkFolder. rewrite bool_decide_eq_false_2 by done.
  rewrite modify_andThen.
  by destruct (findTheNearestReadme env fuel (processCwd env) item)
    as [[d|]| |].
Qed.

Lemma findTheNearestReadme_no_exception env fuel cwd :
  ∀ p, findTheNearestReadme env fuel cwd p ≠ Exception.
Proof.
  induction fuel as [|fuel IH]; intros p; simpl; [done|].
  destruct (String.eqb p cwd); [done|].
  by destruct (containsReadme env p).
Qed.

(** What the loop over the directories guarantees, from any set of
    directories already seen. *)
Lemma checkFolder_forEach env fuel items :
  ∀ seen,
  let run := Gen.forEach (checkFolder env fuel) items seen in
  status run ≠ Threw
  ∧ seen ⊆ final run
  ∧ NoDup (map Err.path (emitted run))
  ∧ (∀ e, e ∈ emitted run →
       ∃ item, item ∈ items ∧ (item ∉ seen) ∧ e = missingReadme item
         ∧ item ∈ final run
         ∧ findTheNearestReadme env fuel (processCwd env) item = Ok None)
  ∧ (status run = Finished →
     ∀ item, item ∈ items → item ∉ seen →
       findTheNearestReadme env fuel (processCwd env) item = Ok None →
       missingReadme item ∈ emitted run).
Proof.
  induction items as [|item items IH]; intros seen run.
  { subst run. simpl. split_and!; [done..|constructor| |].
    - by intros e ?%elem_of_nil.
    - by intros _ item ?%elem_of_nil. }
  subst run. rewrite forEach_cons.
  destruct (decide (item ∈ seen)) as [Hseen|Hnew].
  - erewrite andThen_outcome by (by apply checkFolder_seen).
    destruct (IH seen) as (Hthrew & Hsub & Hdup & Hsound & Hall).
    simpl. split_and!; [done..| |].
    + intros e (it & Hit & ? & ? & ? & ?)%Hsound. exists it.
      split_and!; [by right|done..].
    + intros Hfin it [->|Hit]%elem_of_cons Hout Hnone; [done|].
      by apply Hall.
  - pose proof (checkFolder_new env fuel item seen Hnew) as Hstep.
    pose proof (findTheNearestReadme_no_exception env fuel (processCwd env)
                  item) as Hexception.
    destruct (findTheNearestReadme env fuel (processCwd env) item)
      as [[d|]| |] eqn:Hnearest; [| |done|].
    + erewrite andThen_outcome by done.
      destruct (IH (seen ∪ {[item]})) as (Hthrew & Hsub & Hdup & Hsound & Hall).
      simpl. split_and!; [done|set_solver|done| |].
      * intros e (it & Hit & Hout & ? & ? & ?)%Hsound. exists it.
        split_and!; [by right|set_solver|done..].
      * intros Hfin it [->|Hit]%elem_of_cons Hout Hnone; [congruence|].
        destruct (decide (it = item)) as [->|Hne]; [congruence|].
        apply Hall; [done..|set_solver|done].
    + erewrite andThen_outcome by done.
      destruct (IH (seen ∪ {[item]})) as (Hthrew & Hsub & Hdup & Hsound & Hall).
      simpl. split_and!; [done|set_solver| | |].
      * constructor; [|done]. intros Hin.
        apply elem_of_map in Hin as (e & Hpath & He).
        apply Hsound in He as (it & _ & Hout & -> & _). simpl in Hpath.
        set_solver.
      * intros e [->|He]%elem_of_cons.
        -- exists item. split_and!; [by left|done..|set_solver|done].
        -- apply Hsound in He as (it & Hit & Hout & ? & ? & ?). exists it.
           split_and!; [by right|set_solver|done..].
      * intros Hfin it [->|Hit]%elem_of_cons Hout Hnone; [by left|].
        destruct (decide (it = item)) as [->|Hne]; [by left|]. right.
        apply Hall; [done..|set_solver|done].
    + rewrite andThen_stopped by (by rewrite Hstep).
      rewrite Hstep. simpl. split_and!; [done|set_solver|constructor| |done].
      by intros e ?%elem_of_nil.
Qed.

(** X7.  [validateRPFolderMustContainReadme] throws only when the listing
    of [dir] rejects, as for a directory that does not exist, and then
    after the findings for the files that were listed; it reports a folder
    at most once: its findings are [MISSING_README] errors with pairwise
    distinct paths, each for the directory of a listed [.json] file whose
    path contains [data-plane] or [resource-manager] and, in lower case,
    does not contain [common], and for which the climb from that directory
    to the process working directory finds no manifest; unless the check
    stops for lack of budget, every such directory is reported. *)
Theorem validateRPFolderMustContainReadme_findings (env : Environment)
    (fuel : nat) (dir : string) :
  let run := validateRPFolderMustContainReadme env fuel dir ∅ in
  let listed := yielded (recursiveReaddir env dir) in
  let missing folder :=
    findTheNearestReadme env fuel (processCwd env) folder = Ok None in
  (status run = Threw → rejects (recursiveReaddir env dir) = true)
  ∧ (status run = Finished → rejects (recursiveReaddir env dir) = false)
  ∧ NoDup (map Err.path (emitted run))
  ∧ (∀ e, e ∈ emitted run →
       ∃ filePath,
         filePath ∈ listed
         ∧ pathExtname env filePath = ".json"
         ∧ (Js.includes filePath "data-plane" = true
            ∨ Js.includes filePath "resource-manager" = true)
         ∧ Js.includes (Js.toLowerCase filePath) "common" = false
         ∧ missing (pathDirname env filePath)
         ∧ e = MissingReadme LevelError
                 "Can not find readme.md in the folder. If no readme.md file, it will block SDK generation."
                 (pathDirname env filePath) (pathDirname env filePath))
  ∧ (status run ≠ OutOfFuel →
     ∀ filePath,
       filePath ∈ listed →
       isRPJsonFile env filePath = true →
       missing (pathDirname env filePath) →
       missingReadme (pathDirname env filePath) ∈ emitted run).
Proof.
  intros run listed missing. subst run listed.
  destruct (validateRPFolderMustContainReadme_rounds env fuel dir)
    as (_ & -> & ->).
  destruct (checkFolder_forEach env fuel (allJsonDirOf env dir) ∅)
    as (Hthrew & _ & Hdup & Hsound & Hall).
  split_and!.
  - destruct (status _), (rejects _); done.
  - destruct (status _), (rejects _); done.
  - done.
  - intros e (item & Hitem & _ & -> & _ & Hnone)%Hsound.
    apply elem_of_map in Hitem as (filePath & -> & Hfile).
    apply list_elem_of_In, filter_In in Hfile as [Hfile Hrp].
    exists filePath. unfold isRPJsonFile, validDirs, ignoredDirs in Hrp.
    simpl in Hrp. rewrite !orb_false_r in Hrp.
    apply andb_true_iff in Hrp as [Hext Hdirs].
    apply String.eqb_eq in Hext.
    split_and!; [by apply list_elem_of_In|done| | |done..].
    + apply orb_true_iff in Hdirs as [[? _]%andb_true_iff|[? _]%andb_true_iff];
        auto.
    + apply orb_true_iff in Hdirs
        as [[_ Hc]%andb_true_iff|[_ Hc]%andb_true_iff];
        by apply negb_true_iff in Hc.
  - intros Hbudget filePath Hfile Hrp Hnone.
    apply Hall; [|apply elem_of_map; exists filePath; split; [done|]
                 |set_solver|done].
    + destruct (status (Gen.forEach _ _ _)); done.
    + apply list_elem_of_In, filter_In. split; [|done].
      by apply list_elem_of_In.
Qed.

(** ** The map of findings of a run *)

Section MoreErrorMaps.

Implicit Types (m : list (string * Error)) (k : string) (v : Error).

Lemma get_set k v m k' :
  ErrorMap.get k' (ErrorMap.set k v m)
  = if decide (k' = k) then Some v else ErrorMap.get k' m.
Proof.
  unfold ErrorMap.get. induction m as [|[k0 v0] m IH]; simpl.
  - destruct (String.eqb_spec k k'); by case_decide.
  - destruct (String.eqb_spec k0 k) as [->|Hne]; simpl.
    + destruct (String.eqb_spec k k'); by case_decide.
    + destruct (String.eqb_spec k0 k') as [->|Hne']; simpl.
      * by rewrite decide_False.
      * apply IH.
Qed.

Lemma set_elem_of k v m k' v' :
  (k', v') ∈ ErrorMap.set k v m → (k', v') = (k, v) ∨ (k', v') ∈ m.
Proof.
  induction m as [|[k0 v0] m IH]; simpl.
  - intros ->%list_elem_of_singleton. by left.
  - destruct (String.eqb_spec k0 k) as [->|Hne].
    + intros [->|Hin]%elem_of_cons; [by left|]. right. by right.
    + intros [->|Hin]%elem_of_cons; [right; by left|].
      destruct (IH Hin); [by left|]. right. by right.
Qed.

Lemma delete_filter k m :
  ErrorMap.delete k m = filter (λ kv, kv.1 ≠ k) m.
Proof.
  unfold ErrorMap.delete. induction m as [|[k0 v0] m IH]; [done|].
  cbn [List.filter fst]. rewrite IH.
  destruct (String.eqb_spec k0 k) as [->|Hne]; cbn [negb].
  - rewrite filter_cons_False; [done|]. intros Hne. by apply Hne.
  - by rewrite filter_cons_True by done.
Qed.

Lemma keys_filter_NoDup (P : string * Error → Prop)
    `{∀ kv, Decision (P kv)} m :
  NoDup (ErrorMap.keys m) → NoDup (ErrorMap.keys (filter P m)).
Proof.
  unfold ErrorMap.keys. induction m as [|kv m IH]; [done|]. simpl.
  intros [Hkv Hm]%NoDup_cons. destruct (decide (P kv)).
  - rewrite filter_cons_True by done. simpl. constructor; [|by apply IH].
    intros (kv' & Hk & Hin)%elem_of_map. apply Hkv, elem_of_map.
    exists kv'. split; [done|]. by apply list_elem_of_filter in Hin as [_ ?].
  - rewrite filter_cons_False by done. by apply IH.
Qed.

Lemma delete_NoDup k m :
  NoDup (ErrorMap.keys m) → NoDup (ErrorMap.keys (ErrorMap.delete k m)).
Proof. rewrite delete_filter. apply keys_filter_NoDup. Qed.

Lemma filter_ext_in {X} (P Q : X → Prop) `{∀ x, Decision (P x)}
    `{∀ x, Decision (Q x)} (l : list X) :
  (∀ x, x ∈ l → P x ↔ Q x) → filter P l = filter Q l.
Proof.
  induction l as [|x l IH]; intros Hext; [done|].
  assert (filter P l = filter Q l) as Hrest.
  { apply IH. intros y Hy. apply Hext. by right. }
  destruct (decide (P x)) as [HP|HP].
  - rewrite !filter_cons_True; [by rewrite Hrest| |done].
    apply Hext; [by left|done].
  - rewrite !filter_cons_False; [done| |done].
    intros HQ. apply HP, Hext; [by left|done].
Qed.

End MoreErrorMaps.

Lemma find_app_first {X} (p : X → bool) (l l' : list X) :
  find p (l ++ l') = match find p l with
                     | Some x => Some x
                     | None => find p l'
                     end.
Proof. induction l as [|x l IH]; simpl; [done|]. by destruct (p x). Qed.

Section Collected.

Context (env : Environment).

Lemma collectErrors_from found :
  ∀ m,
  let result :=
    fold_left (λ map e, ErrorMap.set (errorCorrelationId env e) e map)
      found m in
  (∀ k, ErrorMap.get k result
        = match find (λ e, String.eqb (errorCorrelationId env e) k)
                  (rev found) with
          | Some e => Some e
          | None => ErrorMap.get k m
          end)
  ∧ (∀ k e, (k, e) ∈ result →
       (k, e) ∈ m ∨ (k = errorCorrelationId env e ∧ e ∈ found)).
Proof.
  induction found as [|e0 found IH]; intros m result; subst result.
  { simpl. split; [done|]. intros k e Hin. by left. }
  simpl. destruct (IH (ErrorMap.set (errorCorrelationId env e0) e0 m))
    as [Hget Hin]. split.
  - intros k. rewrite Hget, find_app_first.
    destruct (find _ (rev found)); [done|]. rewrite get_set. simpl.
    destruct (String.eqb_spec (errorCorrelationId env e0) k) as [<-|Hne].
    + by rewrite decide_True.
    + by rewrite decide_False.
  - intros k e [Hset|[-> He]]%Hin.
    + apply set_elem_of in Hset as [[= -> ->]|Hm]; [|by left].
      right. split; [done|]. by left.
    + right. split; [done|]. by right.
Qed.

End Collected.

(** X8.  The map in which [avocadoForDir] collects the findings of a
    folder holds one finding for each correlation key: the keys are
    pairwise distinct, every finding lies under its own correlation key,
    the key of every finding of the folder is in the map, and the finding
    kept under a key is the last one found with that key. *)
Theorem collectErrors_last_finding_wins (env : Environment)
    (found : list Error) :
  NoDup (ErrorMap.keys (collectErrors env found))
  ∧ (∀ k, ErrorMap.get k (collectErrors env found)
          = find (λ e, String.eqb (errorCorrelationId env e) k) (rev found))
  ∧ (∀ k e, (k, e) ∈ collectErrors env found →
       k = errorCorrelationId env e ∧ e ∈ found)
  ∧ (∀ e, e ∈ found →
       errorCorrelationId env e ∈ ErrorMap.keys (collectErrors env found)).
Proof.
  destruct (collectErrors_from env found []) as [Hget Hin].
  fold (collectErrors env found) in Hget, Hin.
  assert (Hfind : ∀ k, ErrorMap.get k (collectErrors env found)
            = find (λ e, String.eqb (errorCorrelationId env e) k) (rev found)).
  { intros k. rewrite Hget. by destruct (find _ _). }
  split_and!.
  - apply collectErrors_NoDup.
  - done.
  - intros k e [Hnil|?]%Hin; [|done]. by apply elem_of_nil in Hnil.
  - intros e He.
    destruct (find_is_Some
                (λ e', String.eqb (errorCorrelationId env e')
                         (errorCorrelationId env e))
                (rev found) e) as [e' He'].
    { apply list_elem_of_In. rewrite <- in_rev. by apply list_elem_of_In. }
    { apply String.eqb_refl. }
    rewrite <- Hfind in He'. apply get_Some in He'.
    apply elem_of_map. by exists (errorCorrelationId env e, e').
Qed.

Lemma removeExcluded_NoDup env exclude entries :
  ∀ (map result : list (string * Error)),
  NoDup (ErrorMap.keys map) →
  removeExcluded env exclude entries map = Ok result →
  NoDup (ErrorMap.keys result).
Proof.
  induction entries as [|[k v] entries IH]; intros map result Hdup; simpl.
  { by intros [= <-]. }
  destruct (isExcluded env exclude (Err.path v)) as [[]| |]; simpl; try done.
  - apply IH. by apply delete_NoDup.
  - by apply IH.
Qed.

Lemma avocadoForDir_collected env fuel dir exclude result :
  avocadoForDir env fuel dir exclude = Ok result →
  ∃ collected : list (string * Error),
    removeExcluded env exclude collected collected = Ok result
    ∧ NoDup (ErrorMap.keys collected)
    ∧ (∀ k e, (k, e) ∈ collected →
         k = errorCorrelationId env e ∧ existsSync env dir = true
         ∧ status (validateFolder env fuel dir) = Finished
         ∧ e ∈ emitted (validateFolder env fuel dir)).
Proof.
  unfold avocadoForDir. destruct (existsSync env dir).
  - destruct (status (validateFolder env fuel dir)) eqn:Hstatus; try done.
    simpl. intros Hrm. eexists. split_and!; [done| |].
    + apply collectErrors_NoDup.
    + intros k e Hin.
      destruct (collectErrors_from env (emitted (validateFolder env fuel dir))
                  []) as [_ Hfrom].
      apply Hfrom in Hin as [Hnil|[-> He]]; [by apply elem_of_nil in Hnil|].
      done.
  - simpl. intros [= <-]. exists []. split_and!; [done|constructor|].
    by intros k e ?%elem_of_nil.
Qed.

Lemma avocadoForDir_NoDup env fuel dir exclude result :
  avocadoForDir env fuel dir exclude = Ok result →
  NoDup (ErrorMap.keys result).
Proof.
  intros (collected & Hrm & Hdup & _)%avocadoForDir_collected.
  by eapply removeExcluded_NoDup.
Qed.

(** X9.  The map a single-directory run returns is a map of the findings
    of the folder by correlation key: its keys are pairwise distinct, so no
    two of its findings share a correlation key; each finding lies under
    its own correlation key and was found by [validateFolder] in a
    directory that exists; and for a directory that does not exist the map
    is empty, whatever the exclusion list holds. *)
Theorem avocadoForDir_map_of_findings (env : Environment) (fuel : nat)
    (dir : string) (exclude : list string) (result : ErrorMap) :
  avocadoForDir env fuel dir exclude = Ok result →
  NoDup (ErrorMap.keys result)
  ∧ NoDup (map (errorCorrelationId env) (ErrorMap.values result))
  ∧ (∀ k e, (k, e) ∈ result →
       k = errorCorrelationId env e
       ∧ existsSync env dir = true
       ∧ status (validateFolder env fuel dir) = Finished
       ∧ e ∈ emitted (validateFolder env fuel dir))
  ∧ (existsSync env dir = false → result = []).
Proof.
  intros Hrun. pose proof (avocadoForDir_NoDup _ _ _ _ _ Hrun) as Hdup.
  destruct (avocadoForDir_collected _ _ _ _ _ Hrun)
    as (collected & Hrm & _ & Hfound).
  assert (Hin : ∀ k e, (k, e) ∈ result →
    k = errorCorrelationId env e ∧ existsSync env dir = true
    ∧ status (validateFolder env fuel dir) = Finished
    ∧ e ∈ emitted (validateFolder env fuel dir)).
  { intros k e Hin. apply Hfound.
    by apply (removeExcluded_elem_of env exclude _ _ _ Hrm) in Hin as [? _]. }
  split_and!; [done| |done|].
  - assert (map (errorCorrelationId env) (ErrorMap.values result)
            = ErrorMap.keys result) as ->; [|done].
    unfold ErrorMap.values, ErrorMap.keys. rewrite map_map.
    apply map_ext_in. intros [k e] Hke%list_elem_of_In. simpl.
    by destruct (Hin k e Hke) as [-> _].
  - intros Hmissing. destruct result as [|[k e] rest]; [done|].
    destruct (Hin k e) as (_ & Hexists & _); [by left|congruence].
Qed.

(** ** What a pull request is told *)

Section Comparison.

Context (env : Environment) (fileChanges : list FileChange).

(** One round of the loop "remove existing errors". *)
Lemma removeExisting_round (e : string) (sourceMap : list (string * Error)) :
  NoDup (ErrorMap.keys sourceMap) →
  match ErrorMap.get e sourceMap with
  | Some error =>
      if negb (isPRRelatedError env fileChanges error)
      then ErrorMap.delete e sourceMap
      else sourceMap
  | None => sourceMap
  end
  = filter (λ kv, kv.1 ≠ e ∨ isPRRelatedError env fileChanges kv.2 = true)
      sourceMap.
Proof.
  intros Hdup. destruct (ErrorMap.get e sourceMap) as [error|] eqn:Hget.
  - apply get_Some in Hget.
    destruct (isPRRelatedError env fileChanges error) eqn:Hrelated; simpl.
    + symmetry. apply filter_all, Forall_forall. intros [k v] Hkv. simpl.
      destruct (decide (k = e)) as [->|]; [|by left]. right.
      by rewrite (NoDup_keys_eq _ _ _ _ Hdup Hkv Hget).
    + rewrite delete_filter. apply filter_ext_in. intros [k v] Hkv. simpl.
      split; [by left|]. intros [?|Hv]; [done|]. intros ->.
      rewrite (NoDup_keys_eq _ _ _ _ Hdup Hkv Hget) in Hv. congruence.
  - apply get_None in Hget. symmetry. apply filter_all, Forall_forall.
    intros [k v] Hkv. simpl. left. intros ->. apply Hget, elem_of_map.
    by exists (e, v).
Qed.

Lemma removeExistingErrors_filter keys :
  ∀ sourceMap : list (string * Error),
  NoDup (ErrorMap.keys sourceMap) →
  fold_left
    (λ sourceMap e,
       match ErrorMap.get e sourceMap with
       | Some error =>
           if negb (isPRRelatedError env fileChanges error)
           then ErrorMap.delete e sourceMap
           else sourceMap
       | None => sourceMap
       end) keys sourceMap
  = filter (λ kv, kv.1 ∉ keys ∨ isPRRelatedError env fileChanges kv.2 = true)
      sourceMap.
Proof.
  induction keys as [|e keys IH]; intros sourceMap Hdup; simpl.
  { symmetry. apply filter_all, Forall_forall. intros kv _. left.
    by intros ?%elem_of_nil. }
  rewrite removeExisting_round by done.
  rewrite IH by (by apply keys_filter_NoDup).
  rewrite list_filter_filter. apply filter_ext_in. intros [k v] _. simpl.
  rewrite not_elem_of_cons. naive_solver.
Qed.

End Comparison.

(** X10.  What the comparison of the two branches reports for a manifest
    directory: when both runs return a map, the findings yielded are those
    of the source branch, in the order of its map, that are new, there
    being no finding with the same correlation key on the target branch, or
    that [devOps.isPRRelatedError] relates to the changed files; a finding
    that is on both branches and is not related to the change is dropped,
    and a finding that is only on the target branch is never reported. *)
Theorem compareBranches_new_or_related {S : Type} (env : Environment)
    (fuel : nat) (pr : PullRequestProperties) (exclude : list string)
    (dir : string) (targetMap sourceMap : ErrorMap) (st : S) :
  avocadoForDir (checkout pr (targetBranch pr)) fuel
    (pathResolve env [workingDir pr; dir]) exclude = Ok targetMap →
  avocadoForDir (checkout pr (sourceBranch pr)) fuel
    (pathResolve env [workingDir pr; dir]) exclude = Ok sourceMap →
  let reported (kv : string * Error) : Prop :=
    kv.1 ∉ ErrorMap.keys targetMap
    ∨ isPRRelatedError env (diff pr) kv.2 = true in
  removeExistingErrors env (diff pr) targetMap sourceMap
  = filter reported (sourceMap : list (string * Error))
  ∧ compareBranches env fuel pr exclude dir st
    = MkOutcome Finished st
        (map snd (filter reported (sourceMap : list (string * Error))))
  ∧ (∀ e, e ∈ emitted (compareBranches env fuel pr exclude dir st) →
       (errorCorrelationId (checkout pr (sourceBranch pr)) e, e) ∈ sourceMap).
Proof.
  intros Htarget Hsource reported.
  assert (Hfilter : removeExistingErrors env (diff pr) targetMap sourceMap
                    = filter reported (sourceMap : list (string * Error))).
  { apply removeExistingErrors_filter. by eapply avocadoForDir_NoDup. }
  assert (Hrun : compareBranches env fuel pr exclude dir st
            = MkOutcome Finished st
                (map snd (filter reported (sourceMap : list (string * Error))))).
  { unfold compareBranches. rewrite Htarget, Hsource. simpl.
    by rewrite Hfilter. }
  split_and!; [done..|].
  intros e. rewrite Hrun. simpl.
  intros ([k e'] & -> & [_ Hin]%list_elem_of_filter)%elem_of_map. simpl.
  destruct (avocadoForDir_collected _ _ _ _ _ Hsource)
    as (collected & Hrm & _ & Hfound).
  pose proof Hin as Hin'.
  apply (removeExcluded_elem_of _ exclude _ _ _ Hrm) in Hin' as [Hin' _].
  by destruct (Hfound k e' Hin') as [<- _].
Qed.

(** ** The directories a pull request touches *)

Lemma orderedAdd_elem_of x (set : list string) d :
  d ∈ orderedAdd x set ↔ d ∈ set ∨ d = x.
Proof.
  unfold orderedAdd. case_bool_decide as Hin.
  - split; [by left|]. by intros [?| ->].
  - rewrite elem_of_app, list_elem_of_singleton. done.
Qed.

Lemma orderedAdd_NoDup x (set : list string) :
  NoDup set → NoDup (orderedAdd x set).
Proof.
  intros Hset. unfold orderedAdd. case_bool_decide as Hin; [done|].
  apply NoDup_app. split_and!; [done| |apply NoDup_singleton].
  by intros y Hy ->%list_elem_of_singleton.
Qed.

Lemma orderedAdd_all xs :
  ∀ set : list string,
  NoDup set →
  NoDup (fold_left (λ set item, orderedAdd item set) xs set)
  ∧ ∀ d, d ∈ fold_left (λ set item, orderedAdd item set) xs set
         ↔ d ∈ set ∨ d ∈ xs.
Proof.
  induction xs as [|x xs IH]; intros set Hset; simpl.
  { split; [done|]. intros d. split; [by left|].
    by intros [?|?%elem_of_nil]. }
  destruct (IH (orderedAdd x set)) as [Hdup Hin];
    [by apply orderedAdd_NoDup|].
  split; [done|]. intros d.
  rewrite Hin, orderedAdd_elem_of, elem_of_cons. naive_solver.
Qed.

(** X11.  The directories [avocadoForDevOps] starts from: the directory
    of every changed file, resolved against the working directory, each
    once however many changed files it holds, and never the working
    directory itself: a file changed directly in the working directory
    starts no check. *)
Theorem swaggerParentDirs_of_changed_files (env : Environment)
    (pr : PullRequestProperties) :
  NoDup (swaggerParentDirs env pr)
  ∧ (workingDir pr ∉ swaggerParentDirs env pr)
  ∧ (∀ d, d ∈ swaggerParentDirs env pr
       ↔ d ≠ workingDir pr
         ∧ ∃ change, change ∈ diff pr
             ∧ d = pathDirname env
                     (pathResolve env [workingDir pr; fc_path change])).
Proof.
  unfold swaggerParentDirs.
  destruct (orderedAdd_all
              (filter (λ item, item ≠ workingDir pr)
                 (map (λ item,
                         pathDirname env
                           (pathResolve env [workingDir pr; item]))
                    (map fc_path (diff pr)))) []) as [Hdup Hin];
    [constructor|].
  assert (Hiff : ∀ d,
    d ∈ fold_left (λ set item, orderedAdd item set)
          (filter (λ item, item ≠ workingDir pr)
             (map (λ item,
                     pathDirname env (pathResolve env [workingDir pr; item]))
                (map fc_path (diff pr)))) []
    ↔ d ≠ workingDir pr
      ∧ ∃ change, change ∈ diff pr
          ∧ d = pathDirname env
                  (pathResolve env [workingDir pr; fc_path change])).
  { intros d. rewrite Hin, list_elem_of_filter, elem_of_map. split.
    - intros [?%elem_of_nil|[Hne (item & -> & Hitem)]]; [done|].
      apply elem_of_map in Hitem as (change & -> & Hchange).
      split; [done|]. by exists change.
    - intros [Hne (change & Hchange & ->)]. right. split; [done|].
      eexists. split; [done|]. apply elem_of_map. by exists change. }
  split_and!; [done| |done].
  intros [Hne _]%Hiff. done.
Qed.

Lemma forEach_status_nil {S A} (body : A → Gen S) (st : S) :
  Gen.forEach body [] st = MkOutcome Finished st [].
Proof. done. Qed.

(** X12.  A pull request whose changed files all lie directly in the
    working directory, and so one that changes no file at all, is told
    nothing: [avocadoForDevOps] locates no manifest, runs no comparison and
    yields no finding, whatever the two branches hold. *)
Theorem avocadoForDevOps_nothing_to_check (env : Environment) (fuel : nat)
    (pr : PullRequestProperties) (exclude : list string) :
  (∀ change, change ∈ diff pr →
     pathDirname env (pathResolve env [workingDir pr; fc_path change])
     = workingDir pr) →
  swaggerParentDirs env pr = []
  ∧ avocadoForDevOps env fuel pr exclude = MkOutcome Finished [] [].
Proof.
  intros Hflat.
  assert (Hnone : swaggerParentDirs env pr = []).
  { destruct (swaggerParentDirs env pr) as [|d dirs] eqn:Hdirs; [done|].
    exfalso.
    assert (d ∈ filter (λ item, item ≠ workingDir pr)
                  (map (λ item,
                          pathDirname env
                            (pathResolve env [workingDir pr; item]))
                     (map fc_path (diff pr)))) as Hd.
    { destruct (orderedAdd_all
                  (filter (λ item, item ≠ workingDir pr)
                     (map (λ item,
                             pathDirname env
                               (pathResolve env [workingDir pr; item]))
                        (map fc_path (diff pr)))) []) as [_ Hin];
        [constructor|].
      destruct (proj1 (Hin d)) as [?%elem_of_nil|?]; [|done..].
      unfold swaggerParentDirs in Hdirs. rewrite Hdirs. by left. }
    apply list_elem_of_filter in Hd as [Hne Hd].
    apply elem_of_map in Hd as (item & -> & Hitem).
    apply elem_of_map in Hitem as (change & -> & Hchange).
    by apply Hne, Hflat. }
  split; [done|]. unfold avocadoForDevOps. by rewrite Hnone.
Qed.

(** ** Changed directories without a manifest *)

Section Located.

Context (env : Environment) (fuel : nat) (pr : PullRequestProperties)
  (exclude : list string).

Lemma locateReadme_cases item (readmeDirs : list string) :
  locateReadme env fuel pr exclude item readmeDirs
  = match findTheNearestReadme env fuel (workingDir pr) item with
    | Ok (Some d) => MkOutcome Finished (orderedAdd d readmeDirs) []
    | Ok None =>
        match isExcluded env exclude item with
        | Ok false => MkOutcome Finished readmeDirs [missingReadme item]
        | Ok true => MkOutcome Finished readmeDirs []
        | Exception => MkOutcome Threw readmeDirs []
        | NoFuel => MkOutcome OutOfFuel readmeDirs []
        end
    | Exception => MkOutcome Threw readmeDirs []
    | NoFuel => MkOutcome OutOfFuel readmeDirs []
    end.
Proof.
  unfold locateReadme.
  destruct (findTheNearestReadme env fuel (workingDir pr) item)
    as [[d|]| |]; try done.
  simpl. by destruct (isExcluded env exclude item) as [[]| |].
Qed.

Lemma located_grows items :
  ∀ (readmeDirs : list string) d,
  d ∈ readmeDirs →
  d ∈ final (Gen.forEach (locateReadme env fuel pr exclude) items readmeDirs).
Proof.
  induction items as [|item items IH]; intros readmeDirs d Hd; [done|].
  rewrite forEach_cons.
  pose proof (locateReadme_cases item readmeDirs) as Hstep.
  destruct (findTheNearestReadme env fuel (workingDir pr) item)
    as [[d'|]| |].
  - erewrite andThen_outcome by done. simpl. apply IH.
    apply orderedAdd_elem_of. by left.
  - destruct (isExcluded env exclude item) as [[]| |].
    + erewrite andThen_outcome by done. simpl. by apply IH.
    + erewrite andThen_outcome by done. simpl. by apply IH.
    + rewrite andThen_stopped by (by rewrite Hstep). by rewrite Hstep.
    + rewrite andThen_stopped by (by rewrite Hstep). by rewrite Hstep.
  - rewrite andThen_stopped by (by rewrite Hstep). by rewrite Hstep.
  - rewrite andThen_stopped by (by rewrite Hstep). by rewrite Hstep.
Qed.

Lemma locateReadme_forEach items :
  ∀ readmeDirs : list string,
  NoDup readmeDirs →
  let located := Gen.forEach (locateReadme env fuel pr exclude) items
                   readmeDirs in
  NoDup (final located)
  ∧ (∀ d, d ∈ final located →
       d ∈ readmeDirs
       ∨ ∃ item, item ∈ items
           ∧ findTheNearestReadme env fuel (workingDir pr) item
             = Ok (Some d))
  ∧ (∀ e, e ∈ emitted located →
       ∃ item, item ∈ items ∧ e = missingReadme item
         ∧ findTheNearestReadme env fuel (workingDir pr) item = Ok None
         ∧ isExcluded env exclude item = Ok false)
  ∧ (status located = Finished →
     ∀ item, item ∈ items →
       match findTheNearestReadme env fuel (workingDir pr) item with
       | Ok (Some d) => d ∈ final located
       | Ok None =>
           isExcluded env exclude item = Ok false →
           missingReadme item ∈ emitted located
       | _ => False
       end).
Proof.
  induction items as [|item items IH]; intros readmeDirs Hdup located;
    subst located.
  { simpl. split_and!; [done|by left|by intros e ?%elem_of_nil|].
    by intros _ item ?%elem_of_nil. }
  rewrite forEach_cons.
  pose proof (locateReadme_cases item readmeDirs) as Hstep.
  destruct (findTheNearestReadme env fuel (workingDir pr) item)
    as [[d|]| |] eqn:Hnearest.
  - erewrite andThen_outcome by done.
    destruct (IH (orderedAdd d readmeDirs)) as (Hnodup & Hdirs & Hsound & Hall);
      [by apply orderedAdd_NoDup|].
    simpl. split_and!; [done| | |].
    + intros d' [[?| ->]%orderedAdd_elem_of|(it & Hit & ?)]%Hdirs.
      * by left.
      * right. exists item. split; [by left|done].
      * right. exists it. split; [by right|done].
    + intros e (it & Hit & ?)%Hsound. exists it. split; [by right|done].
    + intros Hfin it [->|Hit]%elem_of_cons.
      * rewrite Hnearest. apply located_grows.
        apply orderedAdd_elem_of. by right.
      * by apply Hall.
  - destruct (isExcluded env exclude item) as [[]| |] eqn:Hexcluded.
    + erewrite andThen_outcome by done.
      destruct (IH readmeDirs Hdup) as (Hnodup & Hdirs & Hsound & Hall).
      simpl. split_and!; [done| | |].
      * intros d' [?|(it & Hit & ?)]%Hdirs; [by left|].
        right. exists it. split; [by right|done].
      * intros e (it & Hit & ?)%Hsound. exists it. split; [by right|done].
      * intros Hfin it [->|Hit]%elem_of_cons; [|by apply Hall].
        rewrite Hnearest, Hexcluded. done.
    + erewrite andThen_outcome by done.
      destruct (IH readmeDirs Hdup) as (Hnodup & Hdirs & Hsound & Hall).
      simpl. split_and!; [done| | |].
      * intros d' [?|(it & Hit & ?)]%Hdirs; [by left|].
        right. exists it. split; [by right|done].
      * intros e [->|(it & Hit & ?)%Hsound]%elem_of_cons.
        -- exists item. split; [by left|done].
        -- exists it. split; [by right|done].
      * intros Hfin it [->|Hit]%elem_of_cons; [|].
        -- rewrite Hnearest. intros _. by left.
        -- specialize (Hall Hfin it Hit).
           destruct (findTheNearestReadme env fuel (workingDir pr) it)
             as [[d'|]| |]; try done.
           intros Hex. right. by apply Hall.
    + rewrite andThen_stopped by (by rewrite Hstep). rewrite Hstep. simpl.
      split_and!; [done|by left|by intros e ?%elem_of_nil|done].
    + rewrite andThen_stopped by (by rewrite Hstep). rewrite Hstep. simpl.
      split_and!; [done|by left|by intros e ?%elem_of_nil|done].
  - rewrite andThen_stopped by (by rewrite Hstep). rewrite Hstep. simpl.
    split_and!; [done|by left|by intros e ?%elem_of_nil|done].
  - rewrite andThen_stopped by (by rewrite Hstep). rewrite Hstep. simpl.
    split_and!; [done|by left|by intros e ?%elem_of_nil|done].
Qed.

End Located.

Lemma compareBranches_final {S : Type} env fuel pr exclude dirs :
  ∀ st : S,
  final (Gen.forEach (compareBranches env fuel pr exclude) dirs st) = st.
Proof.
  assert (Hone : ∀ dir (st : S),
    final (compareBranches env fuel pr exclude dir st) = st).
  { intros dir st. unfold compareBranches.
    destruct (avocadoForDir (checkout pr (targetBranch pr)) _ _ _); try done.
    simpl. by destruct (avocadoForDir (checkout pr (sourceBranch pr)) _ _ _). }
  induction dirs as [|dir dirs IH]; intros st; [done|].
  rewrite forEach_cons. unfold Gen.andThen.
  destruct (status (compareBranches env fuel pr exclude dir st)); simpl;
    rewrite ?IH; apply Hone.
Qed.

(** X13.  The first loop of [avocadoForDevOps], over the directories of
    the changed files.  The manifest directories it collects for the
    comparison are pairwise distinct, and each is the nearest directory
    with a [readme.md] above a changed directory, below the working
    directory.  It yields a [MISSING_README] error for a changed directory
    only when the climb from it arrives at the working directory without
    meeting a manifest and no exclusion pattern matches the directory, and,
    when the loop finishes, for every such directory.  These findings come
    first in what the run yields, and nothing follows them when the loop
    does not finish. *)
Theorem avocadoForDevOps_missing_manifests (env : Environment) (fuel : nat)
    (pr : PullRequestProperties) (exclude : list string) :
  let located :=
    Gen.forEach (locateReadme env fuel pr exclude) (swaggerParentDirs env pr)
      [] in
  let run := avocadoForDevOps env fuel pr exclude in
  let nearest item := findTheNearestReadme env fuel (workingDir pr) item in
  NoDup (final located)
  ∧ (∀ d, d ∈ final located →
       d ≠ workingDir pr ∧ containsReadme env d = true
       ∧ ∃ item, item ∈ swaggerParentDirs env pr ∧ nearest item = Ok (Some d))
  ∧ (∀ e, e ∈ emitted located →
       ∃ item, item ∈ swaggerParentDirs env pr ∧ e = missingReadme item
         ∧ nearest item = Ok None
         ∧ isExcluded env exclude item = Ok false)
  ∧ (status located = Finished →
     ∀ item, item ∈ swaggerParentDirs env pr →
       nearest item = Ok None → isExcluded env exclude item = Ok false →
       missingReadme item ∈ emitted located)
  ∧ final run = final located
  ∧ (∃ compared, emitted run = emitted located ++ compared
       ∧ (status located ≠ Finished →
          compared = [] ∧ status run = status located)).
Proof.
  intros located run nearest.
  destruct (locateReadme_forEach env fuel pr exclude
              (swaggerParentDirs env pr) [] ltac:(constructor))
    as (Hdup & Hdirs & Hsound & Hall).
  fold located in Hdup, Hdirs, Hsound, Hall.
  split_and!.
  - done.
  - intros d [?%elem_of_nil|(item & Hitem & Hnearest)]%Hdirs; [done|].
    pose proof Hnearest as Hk.
    apply findTheNearestReadme_rounds in Hk as (k & _ & _ & -> & Hcwd & Hrm).
    split_and!; [done..|]. by exists item.
  - done.
  - intros Hfin item Hitem Hnone Hex. specialize (Hall Hfin item Hitem).
    fold (nearest item) in Hall. rewrite Hnone in Hall. by apply Hall.
  - subst run. unfold avocadoForDevOps. fold located. unfold Gen.andThen.
    fold located.
    destruct (status located); simpl; [|done..].
    apply compareBranches_final.
  - subst run. unfold avocadoForDevOps. fold located. unfold Gen.andThen.
    fold located.
    destruct (status located) eqn:Hstatus; simpl.
    + eexists. split; [done|]. done.
    + exists []. rewrite app_nil_r. by rewrite Hstatus.
    + exists []. rewrite app_nil_r. by rewrite Hstatus.
Qed.

(** ** One visit, in two parts *)

Section VisitParts.

Context (env : Environment).

Lemma walkDocument_cases recur current file st :
  walkDocument env recur current file st
  = match ownFindings env current file with
    | Some found =>
        (Gen.yieldAll found ;;
         Gen.forEach (visitReference env recur current)
           (followed env current file)) st
    | None => MkOutcome Threw st (jsonParse env (path current) file).1
    end.
Proof.
  unfold walkDocument, ownFindings, followed.
  destruct (jsonParse env (path current) file) as [errors document].
  cbn [fst snd].
  destruct (isSwagger (kind current) && negb (isNull document)).
  - destruct (validateSpecificationAPIVersion current document) as [found|].
    + rewrite <- andThen_assoc. apply andThen_ext.
      unfold Gen.andThen. simpl. reflexivity.
    + unfold Gen.andThen. simpl. by rewrite app_nil_r.
  - rewrite <- andThen_assoc. apply andThen_ext.
    unfold Gen.andThen. simpl. by rewrite app_nil_r.
Qed.

Lemma walkDocument_finished recur current file st :
  status (walkDocument env recur current file st) = Finished →
  ∃ found,
    ownFindings env current file = Some found
    ∧ status (Gen.forEach (visitReference env recur current)
                (followed env current file) st) = Finished
    ∧ walkDocument env recur current file st
      = MkOutcome Finished
          (final (Gen.forEach (visitReference env recur current)
                    (followed env current file) st))
          (found
           ++ emitted (Gen.forEach (visitReference env recur current)
                         (followed env current file) st)).
Proof.
  rewrite walkDocument_cases.
  destruct (ownFindings env current file) as [found|]; [|done].
  rewrite yieldAll_andThen. simpl. intros Hfin. exists found.
  split_and!; [done..|]. by rewrite Hfin.
Qed.

Lemma followed_refsOf current file :
  kind current = kindOf env (path current) →
  readFile env (path current) = Some file →
  followed env current file = refsOf env (path current).
Proof.
  intros Hkind Hread. unfold followed, refsOf, kindOf in *.
  rewrite Hread, Hkind. by destruct (isExample env (path current)).
Qed.

Lemma ownFindings_codes current file found :
  ownFindings env current file = Some found →
  Forall (λ e, Err.code e = JSON_PARSE
               ∨ Err.code e = INCONSISTENT_API_VERSION
               ∨ Err.code e = INVALID_FILE_LOCATION) found.
Proof.
  unfold ownFindings.
  pose proof (jsonParse_codes env (path current) file) as Hparse.
  destruct (jsonParse env (path current) file) as [errors document].
  simpl in Hparse.
  assert (Forall (λ e, Err.code e = JSON_PARSE
                       ∨ Err.code e = INCONSISTENT_API_VERSION
                       ∨ Err.code e = INVALID_FILE_LOCATION) errors) as Herrors.
  { eapply Forall_impl; [done|]. by left. }
  destruct (_ && _); [|by intros [= <-]].
  destruct (validateSpecificationAPIVersion current document) as [rules|]
    eqn:Hrules; [|done].
  intros [= <-]. apply Forall_app. split; [done|]. apply Forall_app. split.
  - eapply Forall_impl; [by eapply validateSpecificationAPIVersion_codes|].
    intros e He. right. by left.
  - eapply Forall_impl; [apply validateFileLocation_codes|].
    intros e He. right. by right.
Qed.

End VisitParts.

(** ** What the walker colours *)

Section Reach.

Context (env : Environment) (roots : list Specification).

Lemma coloured_entered current st :
  coloured (entered current st) = coloured st ∪ {[path current]}.
Proof.
  unfold coloured, entered. case_bool_decide; simpl; set_solver.
Qed.

Lemma coloured_moveToBlack key st :
  coloured (final (moveToBlack key st)) = coloured st ∪ {[key]}.
Proof.
  unfold coloured, moveToBlack, moveTo, Gen.modify. simpl.
  apply set_eq. intros p. destruct (decide (p = key)); set_solver.
Qed.

Lemma coloured_mono (m : Gen WalkState) st :
  Walked env st (m st) → coloured st ⊆ coloured (final (m st)).
Proof. intros H. apply (walked_coloured env _ _ H). Qed.

(** The two invariants together. *)
Let kept (stack : gset string) (st : WalkState) : Prop :=
  closedUnder env stack st ∧ withinReach env roots st.

Lemma kept_visitReference recur current t stack st :
  (∀ spec st',
     kind spec = kindOf env (path spec) → reachable env roots (path spec) →
     kept stack st' → status (recur spec st') = Finished →
     kept stack (final (recur spec st'))
     ∧ path spec ∈ coloured (final (recur spec st'))) →
  reachable env roots t → kept stack st →
  status (visitReference env recur current t st) = Finished →
  kept stack (final (visitReference env recur current t st))
  ∧ t ∈ coloured (final (visitReference env recur current t st)).
Proof.
  intros Hrecur Ht [Hclosed Hreach].
  destruct (decide (t ∈ graySet st)) as [Hgray|Hgray].
  { rewrite visitReference_gray by done. intros _. simpl.
    assert (Hsame : coloured {| graySet := graySet st ∖ {[t]};
                                blackSet := blackSet st ∪ {[t]} |}
                    = coloured st).
    { unfold coloured. simpl. apply set_eq. intros p.
      destruct (decide (p = t)); set_solver. }
    split; [split|].
    - intros p Hp Hstack r Hr. rewrite Hsame in *. by eapply Hclosed.
    - intros p Hp. rewrite Hsame in Hp. by apply Hreach.
    - rewrite Hsame. unfold coloured. set_solver. }
  destruct (decide (t ∈ blackSet st)) as [Hblack|Hblack].
  { rewrite visitReference_black by done. intros _. simpl.
    split; [done|]. unfold coloured. set_solver. }
  rewrite visitReference_fresh by done. by apply Hrecur.
Qed.

Lemma kept_forEach recur current stack refs :
  (∀ spec st', Walked env st' (recur spec st')) →
  (∀ spec st',
     kind spec = kindOf env (path spec) → reachable env roots (path spec) →
     kept stack st' → status (recur spec st') = Finished →
     kept stack (final (recur spec st'))
     ∧ path spec ∈ coloured (final (recur spec st'))) →
  (∀ t, t ∈ refs → reachable env roots t) →
  ∀ st, kept stack st →
    status (Gen.forEach (visitReference env recur current) refs st)
      = Finished →
    kept stack (final (Gen.forEach (visitReference env recur current) refs st))
    ∧ ∀ t, t ∈ refs →
        t ∈ coloured
              (final (Gen.forEach (visitReference env recur current) refs st)).
Proof.
  intros Hwalked Hrecur. induction refs as [|t refs IH]; intros Hrefs st Hkept.
  { intros _. split; [done|]. by intros t ?%elem_of_nil. }
  rewrite forEach_cons. intros [Hfin1 Hfin2]%andThen_status.
  rewrite andThen_finished by done. simpl.
  destruct (kept_visitReference recur current t stack st) as [Hkept1 Ht];
    [done|apply Hrefs; by left|done..|].
  destruct (IH (λ t' Ht', Hrefs t' (list_elem_of_further _ _ _ Ht')) _ Hkept1 Hfin2)
    as [Hkept2 Hall].
  split; [done|]. intros t' [->|Ht']%elem_of_cons; [|by apply Hall].
  eapply coloured_mono; [|exact Ht].
  apply Walked_forEach. intros r st' _. by apply Walked_visitReference.
Qed.

Lemma kept_DFSTraversalValidate fuel :
  ∀ stack current st,
    kind current = kindOf env (path current) →
    reachable env roots (path current) →
    kept stack st →
    status (DFSTraversalValidate env fuel current st) = Finished →
    kept stack (final (DFSTraversalValidate env fuel current st))
    ∧ path current
        ∈ coloured (final (DFSTraversalValidate env fuel current st)).
Proof.
  induction fuel as [|fuel IH]; intros stack current st Hkind Hroot
    [Hclosed Hreach]; [done|].
  pose proof (coloured_entered current st) as Hentered.
  destruct (readFile env (path current)) as [file|] eqn:Hread.
  - rewrite (DFSTraversalValidate_readable _ _ _ file) by done.
    intros [Hdoc _]%andThen_status. rewrite andThen_finished by done.
    apply walkDocument_finished in Hdoc as (found & _ & Hloop & ->).
    cbn [final]. rewrite followed_refsOf in * by done.
    destruct (kept_forEach (DFSTraversalValidate env fuel) current
                (stack ∪ {[path current]}) (refsOf env (path current)))
      with (st := entered current st) as [[Hclosed' Hreach'] Hrefs].
    + intros spec st'. apply Walked_DFSTraversalValidate.
    + intros spec st'. apply IH.
    + intros t Ht. by apply reachable_ref with (path current).
    + split.
      * intros p Hp Hstack r Hr. rewrite Hentered in *.
        assert (r ∈ coloured st); [|set_solver].
        apply (Hclosed p); [set_solver|set_solver|done].
      * intros p Hp. rewrite Hentered in Hp.
        apply elem_of_union in Hp as [Hp| ->%elem_of_singleton]; auto.
    + done.
    + set (st2 := final (Gen.forEach _ _ _)) in *.
      assert (Hcurrent : path current ∈ coloured st2).
      { eapply coloured_mono.
        - apply Walked_forEach. intros r st' _.
          apply Walked_visitReference. intros. apply Walked_DFSTraversalValidate.
        - rewrite Hentered. set_solver. }
      rewrite coloured_moveToBlack.
      split; [split|set_solver].
      * intros p Hp Hstack r Hr. rewrite coloured_moveToBlack in *.
        assert (r ∈ coloured st2); [|set_solver].
        destruct (decide (p = path current)) as [->|Hne].
        -- by apply Hrefs.
        -- apply (Hclosed' p); [set_solver|set_solver|done].
      * intros p Hp. rewrite coloured_moveToBlack in Hp.
        apply Hreach'. set_solver.
  - rewrite DFSTraversalValidate_unreadable by done. intros _. cbn [final].
    unfold kept, closedUnder, withinReach. rewrite Hentered.
    split; [split|set_solver].
    + intros p Hp Hstack r Hr.
      destruct (decide (p = path current)) as [->|Hne].
      * unfold refsOf in Hr. rewrite Hread in Hr. by apply elem_of_nil in Hr.
      * assert (r ∈ coloured st); [|set_solver].
        apply (Hclosed p); [set_solver|done..].
    + intros p [Hp| ->%elem_of_singleton]%elem_of_union; auto.
Qed.

Lemma kept_traverseRoots fuel done_ todo :
  Forall (λ root, kind root = kindOf env (path root)) todo →
  (∀ root, root ∈ todo → root ∈ roots) →
  ∀ st, kept ∅ st →
    (∀ root, root ∈ done_ → path root ∈ coloured st) →
    status (traverseRoots env fuel todo st) = Finished →
    kept ∅ (final (traverseRoots env fuel todo st))
    ∧ ∀ root, root ∈ done_ ++ todo →
        path root ∈ coloured (final (traverseRoots env fuel todo st)).
Proof.
  unfold traverseRoots. revert done_.
  induction todo as [|root todo IH]; intros done_ Hkinds Hroots st Hkept Hdone.
  { intros _. split; [done|]. intros root. rewrite app_nil_r. apply Hdone. }
  rewrite forEach_cons. intros [Hfin1 Hfin2]%andThen_status.
  rewrite andThen_finished by done. simpl.
  apply Forall_cons in Hkinds as [Hkind Hkinds].
  destruct (kept_DFSTraversalValidate fuel ∅ root st) as [Hkept1 Hroot];
    [done| |done..|].
  { apply reachable_root, Hroots. by left. }
  destruct (IH (done_ ++ [root]) Hkinds
              (λ r Hr, Hroots r (list_elem_of_further _ _ _ Hr)) _ Hkept1)
    as [Hkept2 Hall]; [|done|].
  { intros r [Hr| ->%list_elem_of_singleton]%elem_of_app; [|done].
    eapply coloured_mono; [apply Walked_DFSTraversalValidate|].
    by apply Hdone. }
  split; [done|]. intros r Hr. apply Hall.
  by rewrite <- app_assoc.
Qed.

(** After the traversal of the roots from empty sets the coloured paths
    are the reachable ones, and the readable ones among them are black. *)
Lemma traverseRoots_coloured fuel :
  Forall (λ root, kind root = kindOf env (path root)) roots →
  let run := traverseRoots env fuel roots emptySets in
  status run = Finished →
  (∀ p, p ∈ coloured (final run) ↔ reachable env roots p)
  ∧ (∀ p, reachable env roots p → is_Some (readFile env p) →
       p ∈ blackSet (final run))
  ∧ (∀ p, p ∈ blackSet (final run) → reachable env roots p).
Proof.
  intros Hkinds run Hfin.
  destruct (kept_traverseRoots fuel [] roots Hkinds (λ _ H, H) emptySets)
    as [[Hclosed Hreach] Hroots].
  { split; intros p Hp; unfold coloured in Hp; simpl in Hp; set_solver. }
  { by intros root ?%elem_of_nil. }
  { done. }
  fold run in Hclosed, Hreach, Hroots.
  assert (Hiff : ∀ p, p ∈ coloured (final run) ↔ reachable env roots p).
  { intros p. split; [apply Hreach|].
    induction 1 as [root Hroot|q r _ IH Hr].
    - by apply Hroots.
    - apply (Hclosed q); [done|set_solver|done]. }
  split_and!; [done| |].
  - intros p Hp [file Hread].
    apply Hiff, elem_of_union in Hp as [Hgray|]; [|done].
    destruct (Walked_traverseRoots env fuel roots emptySets)
      as [_ _ _ Hgrays _].
    destruct (Hgrays Hfin p Hgray) as [Hempty|Hnone]; [set_solver|congruence].
  - intros p Hp. apply Hiff. unfold coloured. set_solver.
Qed.

End Reach.

(** X14.  What the walker colours.  When the roots have the kind their
    path gives them (as the Specifications of a manifest have) and the
    traversal from empty sets finishes, the paths that are gray or black
    are exactly the roots and the files reached from them by following,
    from a readable file that is no example, the files it refers to; every
    such file that can be read is black; and every black path is such a
    file. *)
Theorem walker_colours_what_is_reachable (env : Environment) (fuel : nat)
    (roots : list Specification) :
  Forall (λ root, kind root = kindOf env (path root)) roots →
  let run := traverseRoots env fuel roots emptySets in
  status run = Finished →
  (∀ p, p ∈ graySet (final run) ∪ blackSet (final run)
        ↔ reachable env roots p)
  ∧ (∀ p, reachable env roots p → is_Some (readFile env p) →
       p ∈ blackSet (final run))
  ∧ (∀ p, p ∈ blackSet (final run) → reachable env roots p).
Proof.
  intros Hkinds run Hfin.
  destruct (traverseRoots_coloured env roots fuel Hkinds Hfin)
    as (Hiff & Hblack & Hreach).
  split_and!; [|done..]. intros p. apply Hiff.
Qed.

Lemma unreferencedJsonFile_path spec spec' :
  unreferencedJsonFile spec = unreferencedJsonFile spec' →
  path spec = path spec'.
Proof. unfold unreferencedJsonFile. by intros [= _ _ ?]. Qed.

Lemma validateInputFiles_unreferenced (env : Environment) (fuel : nat)
    (inputFileSet allInputFileSet : list Specification) (spec : Specification) :
  Forall (λ root, kind root = kindOf env (path root)) inputFileSet →
  status (validateInputFiles env fuel inputFileSet allInputFileSet)
    = Finished →
  (spec ∈ allInputFileSet → ¬ reachable env inputFileSet (path spec) →
   unreferencedJsonFile spec
     ∈ emitted (validateInputFiles env fuel inputFileSet allInputFileSet))
  ∧ (is_Some (readFile env (path spec)) →
     unreferencedJsonFile spec
       ∈ emitted (validateInputFiles env fuel inputFileSet allInputFileSet) →
     ¬ reachable env inputFileSet (path spec)).
Proof.
  intros Hkinds Hfin. unfold validateInputFiles in *.
  apply andThen_status in Hfin as [Hwalk _].
  destruct (traverseRoots_coloured env inputFileSet fuel Hkinds Hwalk)
    as (_ & Hblack & Hreach).
  rewrite andThen_finished by done. cbn [emitted reportUnreferenced].
  unfold reportUnreferenced, Gen.yieldAll. cbn [emitted].
  set (walk := traverseRoots env fuel inputFileSet emptySets) in *.
  split.
  - intros Hspec Hout. apply elem_of_app. right. apply elem_of_map.
    exists spec. split; [done|]. apply list_elem_of_filter.
    split; [|done]. intros Hin. by apply Hout, Hreach.
  - intros Hread [Hin|Hin]%elem_of_app Hreachable.
    + pose proof (walked_codes env _ _
                    (Walked_traverseRoots env fuel inputFileSet emptySets))
        as Hcodes.
      rewrite Forall_forall in Hcodes. by apply (Hcodes _ Hin).
    + apply elem_of_map in Hin as (spec' & Heq & Hin).
      apply list_elem_of_filter in Hin as [Hwhite _].
      apply unreferencedJsonFile_path in Heq. rewrite <- Heq in Hwhite.
      by apply Hwhite, Hblack.
Qed.

(** X15.  Which files [validateInputFiles] reports as unreferenced.  When
    the input files of the manifests have the kind their path gives them
    and the validation finishes, a readable file of [allInputFileSet] gets
    an [UNREFERENCED_JSON_FILE] finding exactly when it is not reachable:
    it is no input file of a manifest and no file reached from one through
    the references of readable files that are no examples.  References
    made by an example file, or by a file that cannot be read, do not
    count. *)
Theorem unreferenced_exactly_when_unreachable (env : Environment)
    (fuel : nat) (inputFileSet allInputFileSet : list Specification) :
  Forall (λ root, kind root = kindOf env (path root)) inputFileSet →
  let run := validateInputFiles env fuel inputFileSet allInputFileSet in
  status run = Finished →
  ∀ spec, spec ∈ allInputFileSet →
    (¬ reachable env inputFileSet (path spec) →
     unreferencedJsonFile spec ∈ emitted run)
    ∧ (is_Some (readFile env (path spec)) →
       unreferencedJsonFile spec ∈ emitted run →
       ¬ reachable env inputFileSet (path spec)).
Proof.
  intros Hkinds run Hfin spec Hspec.
  destruct (validateInputFiles_unreferenced env fuel inputFileSet
              allInputFileSet spec Hkinds Hfin) as [Hout Hin].
  split; [by apply Hout|exact Hin].
Qed.

(** ** A circular reference is a cycle *)

Lemma andThen_emitted {S} (P : Error → Prop) (m1 m2 : Gen S) st :
  Forall P (emitted (m1 st)) →
  (status (m1 st) = Finished → Forall P (emitted (m2 (final (m1 st))))) →
  Forall P (emitted ((m1 ;; m2) st)).
Proof.
  intros H1 H2. destruct (decide (status (m1 st) = Finished)) as [Hfin|Hfin].
  - rewrite andThen_finished by done. simpl. apply Forall_app. auto.
  - by rewrite andThen_stopped.
Qed.

Section Cycles.

Context (env : Environment) (roots : list Specification).

Hypothesis readable : ∀ p, reachable env roots p → is_Some (readFile env p).

(** A [CIRCULAR_REFERENCE] finding is about a file, reached from the
    roots, that refers back to itself. *)
Let onCycle (e : Error) : Prop :=
  Err.code e = CIRCULAR_REFERENCE →
  reachable env roots (Err.path e)
  ∧ tc (refersTo env) (Err.path e) (Err.path e).

(** Every [CIRCULAR_REFERENCE] finding is on a cycle, and a run that
    finishes leaves no path gray that was not. *)
Let sound (st : WalkState) (o : Outcome WalkState) : Prop :=
  Forall onCycle (emitted o)
  ∧ (status o = Finished → graySet (final o) ⊆ graySet st).

(** Every gray path leads to [p]. *)
Let above (st : WalkState) (p : string) : Prop :=
  ∀ g, g ∈ graySet st → rtc (refersTo env) g p.

Lemma sound_visitReference recur current t st :
  (∀ spec st',
     kind spec = kindOf env (path spec) → reachable env roots (path spec) →
     above st' (path spec) → sound st' (recur spec st')) →
  reachable env roots (path current) → refersTo env (path current) t →
  above st (path current) →
  sound st (visitReference env recur current t st).
Proof.
  intros Hrecur Hcurrent Ht Habove.
  destruct (decide (t ∈ graySet st)) as [Hgray|Hgray].
  { rewrite visitReference_gray by done. split; simpl; [|set_solver].
    constructor; [|constructor]. intros _. simpl. split; [done|].
    eapply tc_rtc_r; [by apply tc_once|]. by apply Habove. }
  destruct (decide (t ∈ blackSet st)) as [Hblack|Hblack].
  { rewrite visitReference_black by done. split; simpl; [constructor|done]. }
  rewrite visitReference_fresh by done. apply Hrecur.
  - done.
  - by apply reachable_ref with (path current).
  - intros g Hg. eapply rtc_r; [by apply Habove|done].
Qed.

Lemma sound_forEach recur current refs :
  (∀ spec st',
     kind spec = kindOf env (path spec) → reachable env roots (path spec) →
     above st' (path spec) → sound st' (recur spec st')) →
  reachable env roots (path current) →
  (∀ t, t ∈ refs → refersTo env (path current) t) →
  ∀ st, above st (path current) →
    sound st (Gen.forEach (visitReference env recur current) refs st).
Proof.
  intros Hrecur Hcurrent.
  induction refs as [|t refs IH]; intros Hrefs st Habove.
  { split; simpl; [constructor|done]. }
  rewrite forEach_cons.
  destruct (sound_visitReference recur current t st) as [Hcodes Hgray];
    [done..|apply Hrefs; by left|done|].
  assert (Hrest : status (visitReference env recur current t st) = Finished →
    sound (final (visitReference env recur current t st))
      (Gen.forEach (visitReference env recur current) refs
         (final (visitReference env recur current t st)))).
  { intros Hfin. apply IH.
    - intros t' Ht'. apply Hrefs. by right.
    - intros g Hg. apply Habove. by apply Hgray. }
  split.
  - apply andThen_emitted; [done|]. intros Hfin. by apply Hrest.
  - intros [Hfin1 Hfin2]%andThen_status. rewrite andThen_finished by done.
    simpl. destruct (Hrest Hfin1) as [_ Hgray2].
    etrans; [by apply Hgray2|by apply Hgray].
Qed.

Lemma ownFindings_onCycle current file found :
  ownFindings env current file = Some found → Forall onCycle found.
Proof.
  intros Hfound. eapply Forall_impl; [by eapply ownFindings_codes|].
  intros e [Hcode|[Hcode|Hcode]] Hcircular; congruence.
Qed.

Lemma sound_DFSTraversalValidate fuel :
  ∀ current st,
    kind current = kindOf env (path current) →
    reachable env roots (path current) →
    above st (path current) →
    sound st (DFSTraversalValidate env fuel current st).
Proof.
  induction fuel as [|fuel IH]; intros current st Hkind Hcurrent Habove.
  { split; simpl; [constructor|done]. }
  destruct (readable _ Hcurrent) as [file Hread].
  rewrite (DFSTraversalValidate_readable _ _ _ file) by done.
  destruct (entered_coloured current st) as (_ & _ & Hentered & _).
  destruct (sound_forEach (DFSTraversalValidate env fuel) current
              (refsOf env (path current)) IH Hcurrent (λ _ H, H)
              (entered current st)) as [Hcodes Hgray].
  { intros g Hg. apply Hentered in Hg.
    apply elem_of_union in Hg as [Hg| ->%elem_of_singleton]; [|done].
    by apply Habove. }
  split.
  - apply andThen_emitted; [|intros; constructor].
    rewrite walkDocument_cases.
    destruct (ownFindings env current file) as [found|] eqn:Hfound.
    + rewrite yieldAll_andThen, followed_refsOf by done. simpl.
      apply Forall_app. split; [|done]. by eapply ownFindings_onCycle.
    + simpl. eapply Forall_impl; [apply jsonParse_codes|].
      intros e He Hcircular. congruence.
  - intros [Hfin _]%andThen_status. rewrite andThen_finished by done.
    apply walkDocument_finished in Hfin as (found & _ & Hloop & ->).
    rewrite followed_refsOf in * by done. specialize (Hgray Hloop).
    simpl. unfold moveTo. simpl. set_solver.
Qed.

Lemma sound_traverseRoots fuel todo :
  Forall (λ root, kind root = kindOf env (path root)) todo →
  (∀ root, root ∈ todo → root ∈ roots) →
  ∀ st, graySet st = ∅ → sound st (traverseRoots env fuel todo st).
Proof.
  unfold traverseRoots.
  induction todo as [|root todo IH]; intros Hkinds Hroots st Hgray.
  { split; simpl; [constructor|done]. }
  rewrite forEach_cons. apply Forall_cons in Hkinds as [Hkind Hkinds].
  destruct (sound_DFSTraversalValidate fuel root st) as [Hcodes Hgray1];
    [done| | |].
  { apply reachable_root, Hroots. by left. }
  { intros g Hg. rewrite Hgray in Hg. set_solver. }
  assert (Hrest : status (DFSTraversalValidate env fuel root st) = Finished →
    sound (final (DFSTraversalValidate env fuel root st))
      (Gen.forEach (DFSTraversalValidate env fuel) todo
         (final (DFSTraversalValidate env fuel root st)))).
  { intros Hfin. apply IH; [done| |].
    - intros r Hr. apply Hroots. by right.
    - specialize (Hgray1 Hfin). rewrite Hgray in Hgray1.
      apply set_eq. set_solver. }
  split.
  - apply andThen_emitted; [done|]. intros Hfin. by apply Hrest.
  - intros [Hfin1 Hfin2]%andThen_status. rewrite andThen_finished by done.
    simpl. destruct (Hrest Hfin1) as [_ Hgray2].
    etrans; [by apply Hgray2|by apply Hgray1].
Qed.

End Cycles.

(** X16.  No false alarm.  When the roots have the kind their path gives
    them and every file reached from them can be read, every
    [CIRCULAR_REFERENCE] finding of the walker, whether or not the walker
    runs to its end, is about a file that is reached from the roots and
    that refers, directly or through other files, back to itself.  So when
    no file reached from the roots refers back to itself, the walker yields
    no [CIRCULAR_REFERENCE] finding, and neither does
    [validateInputFiles]. *)
Theorem no_cycle_no_circular_reference (env : Environment) (fuel : nat)
    (inputFileSet allInputFileSet : list Specification) :
  Forall (λ root, kind root = kindOf env (path root)) inputFileSet →
  (∀ p, reachable env inputFileSet p → is_Some (readFile env p)) →
  (∀ e, e ∈ emitted (traverseRoots env fuel inputFileSet emptySets) →
     Err.code e = CIRCULAR_REFERENCE →
     reachable env inputFileSet (Err.path e)
     ∧ tc (refersTo env) (Err.path e) (Err.path e))
  ∧ ((∀ p, reachable env inputFileSet p → ¬ tc (refersTo env) p p) →
     Forall (λ e, Err.code e ≠ CIRCULAR_REFERENCE)
       (emitted (traverseRoots env fuel inputFileSet emptySets))
     ∧ Forall (λ e, Err.code e ≠ CIRCULAR_REFERENCE)
         (emitted (validateInputFiles env fuel inputFileSet
                     allInputFileSet))).
Proof.
  intros Hkinds Hread.
  destruct (sound_traverseRoots env inputFileSet Hread fuel
              inputFileSet Hkinds (λ _ H, H) emptySets eq_refl)
    as [Hcycles _].
  rewrite Forall_forall in Hcycles.
  split; [exact Hcycles|]. intros Hacyclic.
  assert (Hquiet : Forall (λ e, Err.code e ≠ CIRCULAR_REFERENCE)
            (emitted (traverseRoots env fuel inputFileSet emptySets))).
  { apply Forall_forall. intros e He Hcode.
    destruct (Hcycles e He Hcode) as [Hreach Hcycle].
    by apply (Hacyclic _ Hreach). }
  split; [done|]. unfold validateInputFiles.
  apply andThen_emitted; [done|]. intros _.
  unfold reportUnreferenced, Gen.yieldAll. simpl.
  apply Forall_forall. by intros e (spec & -> & _)%elem_of_map.
Qed.

(** ** A cycle is reported *)

Lemma ranked_no_cycle env (black : gset string) p :
  ranked env black → p ∈ black → ¬ tc (refersTo env) p p.
Proof.
  intros (rank & bound & _ & Hranked) Hp Hcycle.
  assert (Hlower : ∀ x y, tc (refersTo env) x y → x ∈ black →
            y ∈ black ∧ rank y < rank x).
  { induction 1 as [x y Hstep|x y z Hstep _ IH]; intros Hx.
    - by apply Hranked.
    - destruct (Hranked x y Hx Hstep) as [Hy Hxy].
      destruct (IH Hy) as [Hz Hyz]. split; [done|lia]. }
  destruct (Hlower p p Hcycle Hp) as [_ Hlt]. lia.
Qed.

Lemma ranked_add env (black : gset string) current :
  ranked env black →
  (∀ r, r ∈ refsOf env current → r ∈ black) →
  ranked env (black ∪ {[current]}).
Proof.
  intros (rank & bound & Hbound & Hranked) Hrefs.
  destruct (decide (current ∈ black)) as [Hin|Hout].
  { exists rank, bound. split.
    - intros p Hp. apply Hbound. set_solver.
    - intros p r Hp Hr. destruct (Hranked p r) as [? ?]; [set_solver|done|].
      split; [set_solver|done]. }
  exists (λ q, if decide (q = current) then bound else rank q), (S bound).
  split.
  - intros p Hp. case_decide; [lia|].
    assert (rank p < bound) by (apply Hbound; set_solver). lia.
  - intros p r Hp Hr.
    assert (Hr' : r ∈ black).
    { destruct (decide (p = current)) as [->|Hne]; [by apply Hrefs|].
      apply (Hranked p r); [set_solver|done]. }
    split; [set_solver|].
    rewrite (decide_False (P := r = current)) by (by intros ->).
    case_decide as Hcurrent; [by apply Hbound|].
    apply (Hranked p r); [set_solver|done].
Qed.

Section CyclesFound.

Context (env : Environment) (roots : list Specification).

Hypothesis readable : ∀ p, reachable env roots p → is_Some (readFile env p).

(** A run that finishes without a [CIRCULAR_REFERENCE] finding leaves the
    black paths ranked and no path gray that was not. *)
Let silent (st : WalkState) (o : Outcome WalkState) : Prop :=
  ranked env (blackSet st) →
  status o = Finished →
  Forall (λ e, Err.code e ≠ CIRCULAR_REFERENCE) (emitted o) →
  ranked env (blackSet (final o)) ∧ graySet (final o) ⊆ graySet st.

Lemma silent_visitReference recur current t st :
  (∀ spec st',
     kind spec = kindOf env (path spec) → reachable env roots (path spec) →
     silent st' (recur spec st')
     ∧ (status (recur spec st') = Finished →
        path spec ∈ blackSet (final (recur spec st')))) →
  reachable env roots (path current) → refersTo env (path current) t →
  silent st (visitReference env recur current t st)
  ∧ (status (visitReference env recur current t st) = Finished →
     Forall (λ e, Err.code e ≠ CIRCULAR_REFERENCE)
       (emitted (visitReference env recur current t st)) →
     t ∈ blackSet (final (visitReference env recur current t st))).
Proof.
  intros Hrecur Hcurrent Ht.
  destruct (decide (t ∈ graySet st)) as [Hgray|Hgray].
  { rewrite visitReference_gray by done.
    split; [intros _ _ Hsilent|intros _ Hsilent];
      by apply Forall_cons in Hsilent as [? _]. }
  destruct (decide (t ∈ blackSet st)) as [Hblack|Hblack].
  { rewrite visitReference_black by done. split; [|done].
    by intros Hranked _ _. }
  rewrite visitReference_fresh by done.
  destruct (Hrecur {| path := t; readMePath := readMePath current;
                      kind := if isExample env t then EXAMPLE else SWAGGER |}
              st) as [Hsilent Hblackens]; [done| |].
  { by apply reachable_ref with (path current). }
  split; [done|]. intros Hfin _. by apply Hblackens.
Qed.

Lemma silent_forEach recur current refs :
  (∀ spec st', Walked env st' (recur spec st')) →
  (∀ spec st',
     kind spec = kindOf env (path spec) → reachable env roots (path spec) →
     silent st' (recur spec st')
     ∧ (status (recur spec st') = Finished →
        path spec ∈ blackSet (final (recur spec st')))) →
  reachable env roots (path current) →
  (∀ t, t ∈ refs → refersTo env (path current) t) →
  ∀ st,
    silent st (Gen.forEach (visitReference env recur current) refs st)
    ∧ (status (Gen.forEach (visitReference env recur current) refs st)
       = Finished →
       Forall (λ e, Err.code e ≠ CIRCULAR_REFERENCE)
         (emitted (Gen.forEach (visitReference env recur current) refs st)) →
       ∀ t, t ∈ refs →
         t ∈ blackSet
               (final (Gen.forEach (visitReference env recur current) refs
                         st))).
Proof.
  intros Hwalked Hrecur Hcurrent.
  induction refs as [|t refs IH]; intros Hrefs st.
  { split; [by intros ? _ _|]. by intros _ _ t ?%elem_of_nil. }
  rewrite forEach_cons.
  destruct (silent_visitReference recur current t st) as [Hfirst Ht];
    [done..|apply Hrefs; by left|].
  destruct (IH (λ t' Ht', Hrefs t' (list_elem_of_further _ _ _ Ht'))
              (final (visitReference env recur current t st)))
    as [Hrest Hall].
  split.
  - intros Hranked [Hfin1 Hfin2]%andThen_status.
    rewrite andThen_finished by done. simpl.
    intros [Hsilent1 Hsilent2]%Forall_app.
    destruct (Hfirst Hranked Hfin1 Hsilent1) as [Hranked1 Hgray1].
    destruct (Hrest Hranked1 Hfin2 Hsilent2) as [Hranked2 Hgray2].
    split; [done|]. by etrans.
  - intros [Hfin1 Hfin2]%andThen_status.
    rewrite andThen_finished by done. simpl.
    intros [Hsilent1 Hsilent2]%Forall_app t' [->|Ht']%elem_of_cons.
    + eapply (walked_black env).
      * apply Walked_forEach. intros r st' _. by apply Walked_visitReference.
      * by apply Ht.
    + by apply Hall.
Qed.

Lemma silent_DFSTraversalValidate fuel :
  ∀ current st,
    kind current = kindOf env (path current) →
    reachable env roots (path current) →
    silent st (DFSTraversalValidate env fuel current st)
    ∧ (status (DFSTraversalValidate env fuel current st) = Finished →
       path current
         ∈ blackSet (final (DFSTraversalValidate env fuel current st))).
Proof.
  induction fuel as [|fuel IH]; intros current st Hkind Hcurrent; [done|].
  destruct (readable _ Hcurrent) as [file Hread].
  split; [|intros Hfin; apply DFSTraversalValidate_blackens; by eauto].
  rewrite (DFSTraversalValidate_readable _ _ _ file) by done.
  destruct (entered_coloured current st) as (Hblack & _ & Hentered & _).
  intros Hranked [Hdoc _]%andThen_status. rewrite andThen_finished by done.
  apply walkDocument_finished in Hdoc as (found & _ & Hloop & ->).
  cbn [final emitted]. rewrite app_nil_r.
  intros [_ Hsilent]%Forall_app.
  rewrite followed_refsOf in * by done.
  destruct (silent_forEach (DFSTraversalValidate env fuel) current
              (refsOf env (path current))
              (λ spec st', Walked_DFSTraversalValidate env fuel spec st')
              IH Hcurrent (λ _ H, H) (entered current st))
    as [Hquiet Hrefs].
  destruct Hquiet as [Hranked' Hgray]; [by rewrite Hblack|done..|].
  simpl. unfold moveTo. simpl. split; [|set_solver].
  apply ranked_add; [done|]. intros r Hr. by apply Hrefs.
Qed.

Lemma silent_traverseRoots fuel todo :
  Forall (λ root, kind root = kindOf env (path root)) todo →
  (∀ root, root ∈ todo → root ∈ roots) →
  ∀ st, silent st (traverseRoots env fuel todo st).
Proof.
  unfold traverseRoots.
  induction todo as [|root todo IH]; intros Hkinds Hroots st.
  { by intros ? _ _. }
  apply Forall_cons in Hkinds as [Hkind Hkinds]. rewrite forEach_cons.
  intros Hranked [Hfin1 Hfin2]%andThen_status.
  rewrite andThen_finished by done. simpl.
  intros [Hsilent1 Hsilent2]%Forall_app.
  destruct (silent_DFSTraversalValidate fuel root st) as [Hfirst _];
    [done|apply reachable_root, Hroots; by left|].
  destruct (Hfirst Hranked Hfin1 Hsilent1) as [Hranked1 Hgray1].
  destruct (IH Hkinds (λ r Hr, Hroots r (list_elem_of_further _ _ _ Hr)) _
              Hranked1 Hfin2 Hsilent2) as [Hranked2 Hgray2].
  split; [done|]. by etrans.
Qed.

End CyclesFound.

(** X27.  A cycle is reported.  When the roots have the kind their path
    gives them, every file reached from them can be read and the traversal
    from empty sets finishes, a file reached from the roots that refers,
    directly or through other files, back to itself makes the walker yield
    a [CIRCULAR_REFERENCE] finding; and without such a finding the black
    set the walker leaves can be ranked so that every file refers to files
    of lower rank only. *)
Theorem cycle_is_reported (env : Environment) (fuel : nat)
    (roots : list Specification) :
  Forall (λ root, kind root = kindOf env (path root)) roots →
  (∀ p, reachable env roots p → is_Some (readFile env p)) →
  let run := traverseRoots env fuel roots emptySets in
  status run = Finished →
  (Forall (λ e, Err.code e ≠ CIRCULAR_REFERENCE) (emitted run) →
   ranked env (blackSet (final run)))
  ∧ (∀ p, reachable env roots p → tc (refersTo env) p p →
       ∃ e, e ∈ emitted run ∧ Err.code e = CIRCULAR_REFERENCE).
Proof.
  intros Hkinds Hread run Hfin.
  assert (Hranked : Forall (λ e, Err.code e ≠ CIRCULAR_REFERENCE)
                      (emitted run) → ranked env (blackSet (final run))).
  { intros Hsilent.
    destruct (silent_traverseRoots env roots Hread fuel roots Hkinds
                (λ _ H, H) emptySets) as [? _]; [|done..].
    exists (λ _, 0), 1. split; [intros; lia|]. intros p r Hp.
    simpl in Hp. set_solver. }
  split; [done|]. intros p Hreach Hcycle.
  destruct (decide (Exists (λ e, Err.code e = CIRCULAR_REFERENCE)
                      (emitted run))) as [Hfound|Hnone].
  { by apply Exists_exists in Hfound. }
  exfalso. apply not_Exists_Forall in Hnone; [|apply _].
  apply (ranked_no_cycle env (blackSet (final run)) p); [by apply Hranked| |done].
  destruct (traverseRoots_coloured env roots fuel Hkinds Hfin)
    as (_ & Hblack & _).
  apply Hblack; [done|]. by apply Hread.
Qed.

(** ** Whose finding it is *)

(** What holds of every finding of a visit: a property [P current] that
    holds of the findings made for [current] itself and is inherited from
    the visit of a file [current] refers to. *)
Section Findings.

Context (env : Environment) (P : Specification → Error → Prop).

Hypothesis own : ∀ current file found,
  ownFindings env current file = Some found → Forall (P current) found.
Hypothesis parse : ∀ current file,
  Forall (P current) (jsonParse env (path current) file).1.
Hypothesis circular : ∀ current, P current (circularReference current).
Hypothesis notFound : ∀ current, P current (noJsonFileFound current).
Hypothesis inherited : ∀ current t e,
  P {| path := t; readMePath := readMePath current;
       kind := if isExample env t then EXAMPLE else SWAGGER |} e →
  P current e.

Lemma findings_visitReference recur current t st :
  (∀ spec st', Forall (P spec) (emitted (recur spec st'))) →
  Forall (P current) (emitted (visitReference env recur current t st)).
Proof.
  intros Hrecur. unfold visitReference. apply andThen_emitted.
  - unfold Gen.when. destruct (bool_decide _); [|constructor].
    constructor; [apply circular|constructor].
  - intros _. unfold Gen.when. destruct (bool_decide _); [|constructor].
    eapply Forall_impl; [apply Hrecur|]. intros e. apply inherited.
Qed.

Lemma findings_forEach recur current refs :
  (∀ spec st', Forall (P spec) (emitted (recur spec st'))) →
  ∀ st, Forall (P current)
          (emitted (Gen.forEach (visitReference env recur current) refs st)).
Proof.
  intros Hrecur. induction refs as [|t refs IH]; intros st; [constructor|].
  rewrite forEach_cons. apply andThen_emitted; [|by intros _].
  by apply findings_visitReference.
Qed.

Lemma findings_DFSTraversalValidate fuel :
  ∀ current st,
    Forall (P current) (emitted (DFSTraversalValidate env fuel current st)).
Proof.
  induction fuel as [|fuel IH]; intros current st; [constructor|].
  destruct (readFile env (path current)) as [file|] eqn:Hread.
  - rewrite (DFSTraversalValidate_readable _ _ _ file) by done.
    apply andThen_emitted; [|intros; constructor].
    rewrite walkDocument_cases.
    destruct (ownFindings env current file) as [found|] eqn:Hfound.
    + rewrite yieldAll_andThen. simpl. apply Forall_app. split.
      * by eapply own.
      * by apply findings_forEach.
    + apply parse.
  - rewrite DFSTraversalValidate_unreadable by done.
    constructor; [apply notFound|constructor].
Qed.

Lemma findings_traverseRoots (Q : Error → Prop) fuel roots :
  (∀ root e, root ∈ roots → P root e → Q e) →
  ∀ st, Forall Q (emitted (traverseRoots env fuel roots st)).
Proof.
  unfold traverseRoots. induction roots as [|root roots IH]; intros HQ st;
    [constructor|].
  rewrite forEach_cons. apply andThen_emitted.
  - eapply Forall_impl; [apply findings_DFSTraversalValidate|].
    intros e. apply HQ. by left.
  - intros _. apply IH. intros r e Hr. apply HQ. by right.
Qed.

End Findings.

Section Attribution.

Context (env : Environment).

Lemma jsonParse_foundUnder readMe fileName file :
  Forall (foundUnder readMe) (jsonParse env fileName file).1.
Proof.
  unfold jsonParse.
  destruct (jsonParserParse env fileName file) as [reported document].
  apply Forall_forall. by intros e (pe & -> & _)%elem_of_map.
Qed.

Lemma ownFindings_foundUnder current file found :
  ownFindings env current file = Some found →
  Forall (foundUnder (readMePath current)) found.
Proof.
  unfold ownFindings.
  pose proof (jsonParse_foundUnder (readMePath current) (path current) file)
    as Hparse.
  destruct (jsonParse env (path current) file) as [errors document].
  simpl in Hparse.
  destruct (_ && _); [|by intros [= <-]].
  destruct (validateSpecificationAPIVersion current document) as [rules|]
    eqn:Hrules; [|done].
  intros [= <-]. apply Forall_app. split; [done|]. apply Forall_app. split.
  - unfold validateSpecificationAPIVersion in Hrules.
    destruct (JsonOps.getProp document "info") as [info|];
      [|injection Hrules as <-; constructor].
    destruct info; try done;
      (destruct (negb _); injection Hrules as <-; by repeat constructor).
  - unfold validateFileLocation.
    destruct (JsonOps.getProp document "host") as [[]|]; try constructor.
    destruct (_ && _); by repeat constructor.
Qed.

Lemma foundUnder_DFSTraversalValidate fuel current st :
  Forall (foundUnder (readMePath current))
    (emitted (DFSTraversalValidate env fuel current st)).
Proof.
  apply (findings_DFSTraversalValidate env
           (λ current, foundUnder (readMePath current))).
  - apply ownFindings_foundUnder.
  - intros spec file. apply jsonParse_foundUnder.
  - done.
  - done.
  - done.
Qed.

End Attribution.

(** X17.  Whose finding it is.  Every finding the walker yields in the
    visit of [current], for [current] itself or for a file reached from it
    at any depth, is either a [JSON_PARSE] error or a finding that names
    the manifest of [current] as its [readMeUrl] and the same file as its
    [jsonUrl] and its [path]: a file reached through references is charged
    to the manifest of the root it was reached from.  So every finding of
    [validateInputFiles] is a [JSON_PARSE] error or names the manifest of
    one of the Specifications it was given. *)
Theorem walker_findings_name_the_manifest (env : Environment) (fuel : nat) :
  (∀ current st,
     Forall (foundUnder (readMePath current))
       (emitted (DFSTraversalValidate env fuel current st)))
  ∧ (∀ inputFileSet allInputFileSet,
       Forall (λ e, ∃ spec, spec ∈ inputFileSet ++ allInputFileSet
                      ∧ foundUnder (readMePath spec) e)
         (emitted (validateInputFiles env fuel inputFileSet
                     allInputFileSet))).
Proof.
  split; [intros current st; apply foundUnder_DFSTraversalValidate|].
  intros inputFileSet allInputFileSet. unfold validateInputFiles.
  apply andThen_emitted.
  - unfold traverseRoots. generalize emptySets.
    assert (∀ todo, (∀ root, root ∈ todo → root ∈ inputFileSet) →
      ∀ st, Forall (λ e, ∃ spec, spec ∈ inputFileSet ++ allInputFileSet
                      ∧ foundUnder (readMePath spec) e)
              (emitted (Gen.forEach (DFSTraversalValidate env fuel) todo st)))
      as Hroots; [|by apply Hroots].
    induction todo as [|root todo IH]; intros Hin st; [constructor|].
    rewrite forEach_cons. apply andThen_emitted.
    + eapply Forall_impl; [apply foundUnder_DFSTraversalValidate|].
      intros e He. exists root. split; [|done].
      apply elem_of_app. left. apply Hin. by left.
    + intros _. apply IH. intros r Hr. apply Hin. by right.
  - intros _. unfold reportUnreferenced, Gen.yieldAll. simpl.
    apply Forall_forall. intros e (spec & -> & Hspec)%elem_of_map.
    apply list_elem_of_filter in Hspec as [_ Hspec].
    exists spec. split; [apply elem_of_app; by right|]. done.
Qed.

(** ** Files the walker does not look into *)

(** X18.  An example file and a file whose JSON document is [null] are
    leaves of the traversal: the visit of such a file, when it can be read,
    yields the parse errors of the file and nothing else, follows none of
    its references whatever the document holds, and ends with the file
    black and not gray, the other paths coloured as they were. *)
Theorem DFSTraversalValidate_leaf (env : Environment) (fuel : nat)
    (current : Specification) (file : string) (st : WalkState) :
  readFile env (path current) = Some file →
  kind current = EXAMPLE ∨ (jsonParse env (path current) file).2 = JNull →
  DFSTraversalValidate env (S fuel) current st
  = MkOutcome Finished
      {| graySet := graySet st ∖ {[path current]};
         blackSet := blackSet st ∪ {[path current]} |}
      (jsonParse env (path current) file).1.
Proof.
  intros Hread Hleaf.
  rewrite (DFSTraversalValidate_readable _ _ _ file) by done.
  assert (Hown : ownFindings env current file
                 = Some (jsonParse env (path current) file).1).
  { unfold ownFindings.
    destruct (jsonParse env (path current) file) as [errors document].
    simpl in *. destruct Hleaf as [->| ->]; [done|].
    by rewrite andb_false_r. }
  assert (Hrefs : followed env current file = []).
  { unfold followed. destruct Hleaf as [->| ->]; [done|].
    by destruct (isSwagger (kind current)). }
  unfold Gen.andThen. rewrite walkDocument_cases, Hown, Hrefs. simpl.
  rewrite !app_nil_r. f_equal. unfold entered, moveTo.
  case_bool_decide; simpl; f_equal; apply set_eq; intros p;
    destruct (decide (p = path current)); set_solver.
Qed.

(** ** The entry point *)

(** X19.  [avocado] without a pull request runs on one directory,
    [config.args.dir] resolved against [config.cwd], or [.] resolved
    against it when no directory, or an empty one, is given.  When it
    finishes, what it yields are the findings of the map of that run, so
    no two of them have the same correlation key, none has a path that an
    entry of [config.args.excludePaths] matches, and each was found by
    [validateFolder] in that directory.  With a pull request it yields
    what [avocadoForDevOps] yields, and [config.args.dir] plays no part. *)
Theorem avocado_runs_one_of_two (env : Environment) (fuel : nat)
    (createPullRequestProperties :
       Config → Result (option PullRequestProperties))
    (config : Config) :
  let run := avocado env fuel createPullRequestProperties config in
  let dir := pathResolve env [config_cwd config; dirOf config] in
  (createPullRequestProperties config = Ok None →
   status run = Finished →
   (∃ result,
      avocadoForDir env fuel dir (excludeOf config) = Ok result
      ∧ emitted run = ErrorMap.values result)
   ∧ NoDup (map (errorCorrelationId env) (emitted run))
   ∧ (∀ e item, e ∈ emitted run → item ∈ excludeOf config →
        stringSearch env (Err.path e) item = Some (-1)%Z)
   ∧ (∀ e, e ∈ emitted run → e ∈ emitted (validateFolder env fuel dir)))
  ∧ (∀ pr, createPullRequestProperties config = Ok (Some pr) →
       status run = status (avocadoForDevOps env fuel pr (excludeOf config))
       ∧ emitted run
         = emitted (avocadoForDevOps env fuel pr (excludeOf config)))
  ∧ (config_args config = None → dirOf config = "." ∧ excludeOf config = [])
  ∧ (∀ args, config_args config = Some args →
       args_dir args = None ∨ args_dir args = Some "" → dirOf config = ".").
Proof.
  intros run dir. subst run. unfold avocado. split_and!.
  - intros -> Hfin. simpl in *. fold dir in Hfin |- *.
    destruct (avocadoForDir env fuel dir (excludeOf config))
      as [result| |] eqn:Hrun; try done.
    simpl.
    pose proof (avocadoForDir_NoDup _ _ _ _ _ Hrun) as Hdup.
    destruct (avocadoForDir_collected _ _ _ _ _ Hrun)
      as (collected & Hrm & _ & Hfound).
    pose proof (removeExcluded_elem_of env (excludeOf config) _ _ _ Hrm)
      as [_ Hkept].
    assert (Hkeys : map (errorCorrelationId env) (ErrorMap.values result)
                    = ErrorMap.keys result).
    { unfold ErrorMap.values, ErrorMap.keys. rewrite map_map.
      apply map_ext_in. intros [k e] Hke%list_elem_of_In. simpl.
      apply Hkept in Hke as [Hke _]. by destruct (Hfound k e Hke) as [-> _]. }
    split_and!.
    + by exists result.
    + by rewrite Hkeys.
    + intros e item ([k e'] & -> & Hke)%elem_of_map Hitem. simpl.
      apply Hkept in Hke as [Hke Hout].
      by apply (isExcluded_false env (excludeOf config)); [apply (Hout e')|].
    + intros e ([k e'] & -> & Hke)%elem_of_map. simpl.
      apply Hkept in Hke as [Hke _]. by destruct (Hfound k e' Hke) as (_&_&_&?).
  - by intros pr ->.
  - unfold dirOf, excludeOf. by intros ->.
  - unfold dirOf. by intros args -> [-> | ->].
Qed.

(** ** The default tag is a value that counts as true *)

Lemma definitionTag_truthy latestDefinition tag :
  definitionTag latestDefinition = Some tag →
  JsonOps.truthy tag = true
  ∧ ∃ definition, latestDefinition = Some definition
      ∧ JsonOps.getProp definition "tag" = Some tag.
Proof.
  unfold definitionTag. destruct latestDefinition as [d|]; [|done].
  destruct (JsonOps.truthy d); [|done].
  destruct (JsonOps.getProp d "tag") as [t|] eqn:Htag; [|done].
  destruct (JsonOps.truthy t) eqn:Ht; [|done].
  intros [= <-]. split; [done|]. by exists d.
Qed.

Lemma yamlBlockTag_literal env markDown idx tag :
  yamlBlockTag env markDown idx = Some tag →
  ∃ block literal,
    blockOf (getCodeBlocksAndHeadings env markDown) idx = Some block
    ∧ Md.literal block = Some literal ∧ literal ≠ ""
    ∧ definitionTag (safeLoad env literal) = Some tag.
Proof.
  unfold yamlBlockTag.
  destruct (blockOf _ idx) as [block|]; [|done].
  destruct (truthyString (Md.info block)); [|done].
  destruct (Md.literal block) as [literal|] eqn:Hliteral; [|done]. simpl.
  destruct (String.eqb_spec literal ""); [done|]. simpl.
  destruct (isYamlOrJson _); [|done]. intros Htag.
  exists block, literal. by rewrite Hliteral.
Qed.

Lemma getDefaultTag_source env markDown tag :
  getDefaultTag env markDown = Some tag →
  ∃ idx block literal,
    blockOf (getCodeBlocksAndHeadings env markDown) idx = Some block
    ∧ Md.literal block = Some literal ∧ literal ≠ ""
    ∧ definitionTag (safeLoad env literal) = Some tag.
Proof.
  unfold getDefaultTag.
  destruct (blockOf _ "Basic Information") as [block|] eqn:Hblock.
  - destruct (Md.literal block) as [literal|] eqn:Hliteral; simpl.
    + destruct (String.eqb_spec literal "") as [->|Hne]; simpl.
      * intros (pre & idx & post & _ & Htag & _)%firstTaggedBlock_first.
        apply yamlBlockTag_literal in Htag as (b & l & ?). by exists idx, b, l.
      * destruct (definitionTag (safeLoad env literal)) as [t|] eqn:Ht.
        -- intros [= <-]. exists "Basic Information", block, literal.
           by rewrite Hliteral.
        -- intros (pre & idx & post & _ & Htag & _)%firstTaggedBlock_first.
           apply yamlBlockTag_literal in Htag as (b & l & ?).
           by exists idx, b, l.
    + intros (pre & idx & post & _ & Htag & _)%firstTaggedBlock_first.
      apply yamlBlockTag_literal in Htag as (b & l & ?). by exists idx, b, l.
  - intros (pre & idx & post & _ & Htag & _)%firstTaggedBlock_first.
    apply yamlBlockTag_literal in Htag as (b & l & ?). by exists idx, b, l.
Qed.

(** X20.  The default tag [getDefaultTag] returns is never a value that
    counts as false: not the empty string, not [null], [false] or [0].  It
    is the [tag] property of what the YAML loader made of the text of one
    of the code blocks of the manifest, a text that is not empty and that
    the loader did not reject.  So the tag a [MULTIPLE_API_VERSION] finding
    names is always there. *)
Theorem getDefaultTag_truthy (env : Environment) (markDown : MdNode) :
  (∀ tag, getDefaultTag env markDown = Some tag →
     JsonOps.truthy tag = true ∧ tag ≠ JString "" ∧ tag ≠ JNull
     ∧ ∃ idx block literal definition,
         blockOf (getCodeBlocksAndHeadings env markDown) idx = Some block
         ∧ Md.literal block = Some literal ∧ literal ≠ ""
         ∧ yamlSafeLoad env literal = Some (Some definition)
         ∧ JsonOps.getProp definition "tag" = Some tag)
  ∧ (isContainsMultiVersion env markDown = true →
     ∃ tag, getDefaultTag env markDown = Some tag
       ∧ JsonOps.truthy tag = true).
Proof.
  assert (Htruthy : ∀ tag, getDefaultTag env markDown = Some tag →
            JsonOps.truthy tag = true
            ∧ ∃ idx block literal definition,
                blockOf (getCodeBlocksAndHeadings env markDown) idx
                = Some block
                ∧ Md.literal block = Some literal ∧ literal ≠ ""
                ∧ yamlSafeLoad env literal = Some (Some definition)
                ∧ JsonOps.getProp definition "tag" = Some tag).
  { intros tag (idx & block & literal & Hblock & Hliteral & Hne & Htag)
      %getDefaultTag_source.
    apply definitionTag_truthy in Htag as [Htruthy (d & Hload & Htag)].
    split; [done|]. exists idx, block, literal, d.
    split_and!; [done..| |done].
    unfold safeLoad in Hload.
    by destruct (yamlSafeLoad env literal) as [[]|]; simplify_eq. }
  split.
  - intros tag Htag. destruct (Htruthy tag Htag) as [Ht Hsource].
    split_and!; [done| | |done]; by intros ->.
  - unfold isContainsMultiVersion.
    destruct (getDefaultTag env markDown) as [tag|] eqn:Htag; [|done].
    intros _. exists tag. split; [done|]. by apply Htruthy.
Qed.

(** ** The validation of a folder *)

Section Folder.

Context (env : Environment).

Lemma validateReadMeFile_cases readMePath st :
  validateReadMeFile env readMePath st
  = match readFile env readMePath with
    | None => MkOutcome Threw st []
    | Some file =>
        MkOutcome Finished st
          ((if negb (isAutoRestMd (mdParse env file)) then
              [NotAutoRestMarkDown
                 "The `readme.md` is not an AutoRest markdown file."
                 readMePath LevelError readMePath
                 "http://azure.github.io/autorest/user/literate-file-formats/configuration.html#the-file-format"]
            else [])
           ++ (if isContainsMultiVersion env (mdParse env file) then
                 [MultipleApiVersion
                    "The default tag contains multiple API versions swaggers."
                    readMePath (getDefaultTag env (mdParse env file))
                    readMePath LevelWarning]
               else []))
    end.
Proof.
  unfold validateReadMeFile. destruct (readFile env readMePath); [|done].
  by destruct (negb _), (isContainsMultiVersion _ _).
Qed.

Lemma validateReadMeFile_forEach readMes :
  ∀ st,
  let run := Gen.forEach (validateReadMeFile env) readMes st in
  final run = st
  ∧ Forall (λ e, Err.code e = NOT_AUTOREST_MARKDOWN
                 ∨ Err.code e = MULTIPLE_API_VERSION) (emitted run)
  ∧ (status run = Finished
     ↔ ∀ readMe, readMe ∈ readMes → is_Some (readFile env readMe))
  ∧ (status run = Threw
     ↔ ∃ readMe, readMe ∈ readMes ∧ readFile env readMe = None).
Proof.
  induction readMes as [|readMe readMes IH]; intros st run; subst run.
  { simpl. split_and!; [done|constructor| |].
    - split; [|done]. by intros _ readMe ?%elem_of_nil.
    - split; [done|]. by intros (readMe & ?%elem_of_nil & _). }
  rewrite forEach_cons.
  pose proof (validateReadMeFile_cases readMe st) as Hstep.
  destruct (readFile env readMe) as [file|] eqn:Hread.
  - erewrite andThen_outcome by done. simpl.
    destruct (IH st) as (Hfinal & Hcodes & Hfin & Hthrew).
    split_and!; [done| | |].
    + apply Forall_app. split; [|done]. apply Forall_app.
      split.
      * destruct (negb _); [|constructor]. constructor; [by left|constructor].
      * destruct (isContainsMultiVersion _ _); [|constructor].
        constructor; [by right|constructor].
    + rewrite Hfin. split.
      * intros Hall r [->|Hr]%elem_of_cons; [by eexists|by apply Hall].
      * intros Hall r Hr. apply Hall. by right.
    + rewrite Hthrew. split.
      * intros (r & Hr & Hnone). exists r. split; [by right|done].
      * intros (r & [->|Hr]%elem_of_cons & Hnone); [congruence|].
        by exists r.
  - rewrite andThen_stopped by (by rewrite Hstep). rewrite Hstep. simpl.
    split_and!; [done|constructor| |].
    + split; [done|]. intros Hall.
      destruct (Hall readMe) as [? ?]; [by left|congruence].
    + split; [|done]. intros _. exists readMe. split; [by left|done].
Qed.

Lemma collectSpecifications_elem_of
    (f : string → Result (list Specification)) readMes specs :
  collectSpecifications f readMes = Ok specs →
  ∀ spec, spec ∈ specs
    ↔ ∃ readMe found, readMe ∈ readMes ∧ f readMe = Ok found ∧ spec ∈ found.
Proof.
  revert specs. induction readMes as [|readMe readMes IH]; intros specs; simpl.
  { intros [= <-] spec. split; [by intros ?%elem_of_nil|].
    by intros (? & ? & ?%elem_of_nil & _). }
  destruct (f readMe) as [found| |] eqn:Hfound; try done. simpl.
  destruct (collectSpecifications f readMes) as [more| |]; try done. simpl.
  intros [= <-] spec. rewrite elem_of_app, (IH more eq_refl). split.
  - intros [Hspec|(r & fs & Hr & Hfs & Hspec)].
    + exists readMe, found. split; [by left|done].
    + exists r, fs. split; [by right|done].
  - intros (r & fs & [->|Hr]%elem_of_cons & Hfs & Hspec).
    + left. congruence.
    + right. by exists r, fs.
Qed.

Lemma getInputFilesFromReadme_kinds readMe specs :
  getInputFilesFromReadme env readMe = Ok specs →
  Forall (λ spec, kind spec = kindOf env (path spec)
                  ∧ readMePath spec = readMe) specs.
Proof.
  unfold getInputFilesFromReadme.
  destruct (readFile env readMe); [|done]. intros [= <-].
  apply Forall_forall. by intros spec (f & -> & _)%elem_of_map.
Qed.

Lemma collectSpecifications_all
    (f : string → Result (list Specification)) readMes specs :
  collectSpecifications f readMes = Ok specs →
  ∀ readMe, readMe ∈ readMes → ∃ found, f readMe = Ok found.
Proof.
  revert specs. induction readMes as [|readMe readMes IH]; intros specs; simpl.
  { by intros _ readMe ?%elem_of_nil. }
  destruct (f readMe) as [found| |] eqn:Hfound; try done. simpl.
  destruct (collectSpecifications f readMes) as [more| |]; try done.
  intros _ r [->|Hr]%elem_of_cons; [by exists found|]. by eapply IH.
Qed.

Lemma foldSpecifications_Ok
    (f : string → Result (list Specification)) (readMes : Listing) specs :
  foldSpecifications f readMes = Ok specs
  ↔ collectSpecifications f (yielded readMes) = Ok specs
    ∧ rejects readMes = false.
Proof.
  unfold foldSpecifications.
  destruct (collectSpecifications f (yielded readMes)) as [found| |]; simpl;
    [|naive_solver..].
  destruct (rejects readMes); naive_solver.
Qed.

Lemma getAllInputFilesUnderReadme_elem_of readMe specs :
  getAllInputFilesUnderReadme env readMe = Ok specs →
  ∀ spec, spec ∈ specs
    ↔ ∃ f, spec = specificationOf env readMe f
        ∧ f ∈ yielded (recursiveReaddir env (pathDirname env readMe))
        ∧ pathExtname env f = ".json".
Proof.
  unfold getAllInputFilesUnderReadme. simpl.
  destruct (rejects _); [done|]. intros [= <-] spec. rewrite elem_of_map.
  split; intros (f & -> & Hf); exists f; (split; [done|]).
  - apply list_elem_of_In, filter_In in Hf as [Hf Hext].
    split; [by apply list_elem_of_In|by apply String.eqb_eq].
  - destruct Hf as [Hf Hext]. apply list_elem_of_In, filter_In.
    split; [by apply list_elem_of_In|by apply String.eqb_eq].
Qed.

(** The sequence of manifests [validateFolder] goes through. *)
Lemma allReadMeFiles_yielded dir :
  yielded
    (Listing.filter
       (λ f, String.eqb (Js.toLowerCase (pathBasename env f)) "readme.md")
       (recursiveReaddir env dir))
  = allReadMeFilesOf env dir.
Proof. done. Qed.

(** The parts of a run of [validateFolder] that finishes. *)
Lemma validateFolder_finished fuel dir :
  status (validateFolder env fuel dir) = Finished →
  let checked := validateRPFolderMustContainReadme env fuel dir ∅ in
  let manifests :=
    Gen.forEach (validateReadMeFile env) (allReadMeFilesOf env dir) tt in
  ∃ referencedFiles allFiles,
    collectSpecifications (getInputFilesFromReadme env)
      (allReadMeFilesOf env dir) = Ok referencedFiles
    ∧ collectSpecifications (getAllInputFilesUnderReadme env)
        (allReadMeFilesOf env dir) = Ok allFiles
    ∧ rejects (recursiveReaddir env dir) = false
    ∧ status checked = Finished
    ∧ status manifests = Finished
    ∧ status (validateInputFiles env fuel referencedFiles allFiles) = Finished
    ∧ emitted (validateFolder env fuel dir)
      = emitted checked ++ emitted manifests
        ++ emitted (validateInputFiles env fuel referencedFiles allFiles).
Proof.
  intros Hfin checked manifests. unfold validateFolder in *.
  apply andThen_status in Hfin as [Hchecked Hrest].
  apply andThen_status in Hrest as [Hmanifests Hrest].
  rewrite andThen_finished by done. rewrite andThen_finished by done.
  cbn [Gen.delegate final emitted status] in *.
  set (readMes := Listing.filter _ (recursiveReaddir env dir)) in *.
  destruct (forAwait_outcome (validateReadMeFile env) readMes tt)
    as (Hfinal & Hemitted & _).
  apply forAwait_finished in Hmanifests as [Hrounds Hends].
  destruct (validateReadMeFile_forEach (yielded readMes) tt)
    as (Hunit & _).
  rewrite Hfinal, Hemitted, Hunit in *.
  destruct (foldSpecifications (getInputFilesFromReadme env) readMes)
    as [referencedFiles| |] eqn:Hreferenced; try done.
  destruct (foldSpecifications (getAllInputFilesUnderReadme env) readMes)
    as [allFiles| |] eqn:Hall; try done.
  apply foldSpecifications_Ok in Hreferenced as [Hreferenced _].
  apply foldSpecifications_Ok in Hall as [Hall _].
  exists referencedFiles, allFiles. simpl in *. done.
Qed.

End Folder.

Lemma validateInputFiles_unreferenced_origin (env : Environment) fuel
    inputFileSet allInputFileSet e :
  e ∈ emitted (validateInputFiles env fuel inputFileSet allInputFileSet) →
  Err.code e = UNREFERENCED_JSON_FILE →
  ∃ spec, spec ∈ allInputFileSet ∧ e = unreferencedJsonFile spec.
Proof.
  unfold validateInputFiles. intros He Hcode.
  pose proof (walked_codes env _ _
                (Walked_traverseRoots env fuel inputFileSet emptySets))
    as Hcodes.
  rewrite Forall_forall in Hcodes.
  destruct (decide (status (traverseRoots env fuel inputFileSet emptySets)
                    = Finished)) as [Hfin|Hfin].
  - rewrite andThen_finished in He by done. simpl in He.
    apply elem_of_app in He as [He|He]; [by destruct (Hcodes e He)|].
    unfold reportUnreferenced, Gen.yieldAll in He. simpl in He.
    apply elem_of_map in He as (spec & -> & Hspec).
    apply list_elem_of_filter in Hspec as [_ Hspec]. by exists spec.
  - rewrite andThen_stopped in He by done. by destruct (Hcodes e He).
Qed.

(** X21.  A manifest that cannot be read stops the validation of the
    folder.  When the check of the resource-provider folders has finished
    and one of the [readme.md] files below [dir] cannot be read,
    [validateFolder] throws: it has yielded [MISSING_README],
    [NOT_AUTOREST_MARKDOWN] and [MULTIPLE_API_VERSION] findings only, and
    [avocadoForDir] returns no map for [dir], whatever the exclusion list
    holds. *)
Theorem validateFolder_unreadable_manifest (env : Environment) (fuel : nat)
    (dir readMe : string) :
  status (validateRPFolderMustContainReadme env fuel dir ∅) = Finished →
  readMe ∈ allReadMeFilesOf env dir →
  readFile env readMe = None →
  status (validateFolder env fuel dir) = Threw
  ∧ Forall (λ e, Err.code e = MISSING_README
                 ∨ Err.code e = NOT_AUTOREST_MARKDOWN
                 ∨ Err.code e = MULTIPLE_API_VERSION)
      (emitted (validateFolder env fuel dir))
  ∧ (existsSync env dir = true →
     ∀ exclude, avocadoForDir env fuel dir exclude = Exception).
Proof.
  intros Hchecked HreadMe Hnone.
  destruct (validateReadMeFile_forEach env (allReadMeFilesOf env dir) tt)
    as (_ & Hcodes & _ & Hthrew).
  assert (Hrounds :
    status (Gen.forEach (validateReadMeFile env) (allReadMeFilesOf env dir) tt)
    = Threw) by (apply Hthrew; by exists readMe).
  set (readMes :=
    Listing.filter
      (λ f, String.eqb (Js.toLowerCase (pathBasename env f)) "readme.md")
      (recursiveReaddir env dir)).
  destruct (forAwait_outcome (validateReadMeFile env) readMes tt)
    as (_ & Hemitted & Hstatus).
  change (yielded readMes) with (allReadMeFilesOf env dir) in Hemitted, Hstatus.
  rewrite Hrounds in Hstatus.
  assert (Hrun : validateFolder env fuel dir
    = MkOutcome Threw
        (final (Gen.forAwait (validateReadMeFile env) readMes tt))
        (emitted (validateRPFolderMustContainReadme env fuel dir ∅)
         ++ emitted (Gen.forEach (validateReadMeFile env)
                       (allReadMeFilesOf env dir) tt))).
  { unfold validateFolder. fold readMes.
    rewrite andThen_finished by done. cbn [Gen.delegate final emitted].
    rewrite andThen_stopped by (by rewrite Hstatus).
    by rewrite Hstatus, Hemitted. }
  split_and!.
  - by rewrite Hrun.
  - rewrite Hrun. simpl. apply Forall_app. split.
    + destruct (validateRPFolderMustContainReadme_rounds env fuel dir)
        as (_ & -> & _).
      destruct (checkFolder_forEach env fuel (allJsonDirOf env dir) ∅)
        as (_ & _ & _ & Hsound & _).
      apply Forall_forall. intros e He.
      apply Hsound in He as (item & _ & _ & -> & _). by left.
    + eapply Forall_impl; [done|]. intros e He. by right.
  - intros Hexists exclude. unfold avocadoForDir.
    by rewrite Hexists, Hrun.
Qed.

(** X22.  Which files the validation of a folder reports as
    unreferenced.  When [validateFolder] finishes, the input files of all
    the manifests below [dir] have been collected, each with the kind its
    path gives it, and a [.json] file found below the directory of a
    manifest gets an [UNREFERENCED_JSON_FILE] finding under that manifest
    when it is not reachable from the collected input files; a readable
    one gets it only then.  So a file that one manifest lists is not
    reported under another manifest whose directory holds it.  No other
    file is reported as unreferenced: a JSON file that lies below no
    directory of a manifest is never reported. *)
Theorem validateFolder_unreferenced (env : Environment) (fuel : nat)
    (dir : string) :
  status (validateFolder env fuel dir) = Finished →
  ∃ referencedFiles,
    collectSpecifications (getInputFilesFromReadme env)
      (allReadMeFilesOf env dir) = Ok referencedFiles
    ∧ Forall (λ spec, kind spec = kindOf env (path spec)
                      ∧ readMePath spec ∈ allReadMeFilesOf env dir)
        referencedFiles
    ∧ (∀ readMe f,
        readMe ∈ allReadMeFilesOf env dir →
        f ∈ yielded (recursiveReaddir env (pathDirname env readMe)) →
        pathExtname env f = ".json" →
        let finding := unreferencedJsonFile (specificationOf env readMe f) in
        (¬ reachable env referencedFiles f →
         finding ∈ emitted (validateFolder env fuel dir))
        ∧ (is_Some (readFile env f) →
           finding ∈ emitted (validateFolder env fuel dir) →
           ¬ reachable env referencedFiles f))
    ∧ (∀ e, e ∈ emitted (validateFolder env fuel dir) →
         Err.code e = UNREFERENCED_JSON_FILE →
         ∃ readMe f,
           readMe ∈ allReadMeFilesOf env dir
           ∧ f ∈ yielded (recursiveReaddir env (pathDirname env readMe))
           ∧ pathExtname env f = ".json"
           ∧ e = unreferencedJsonFile (specificationOf env readMe f)).
Proof.
  intros Hfin.
  destruct (validateFolder_finished env fuel dir Hfin)
    as (referencedFiles & allFiles & Hcollect & Hall & _ & _ & _ & Hinputs
        & Hemitted).
  exists referencedFiles.
  assert (Hkinds : Forall (λ spec, kind spec = kindOf env (path spec)
                      ∧ readMePath spec ∈ allReadMeFilesOf env dir)
                     referencedFiles).
  { apply Forall_forall. intros spec Hspec.
    apply (collectSpecifications_elem_of _ _ _ Hcollect) in Hspec
      as (readMe & found & HreadMe & Hfound & Hspec).
    apply getInputFilesFromReadme_kinds in Hfound.
    rewrite Forall_forall in Hfound.
    by destruct (Hfound spec Hspec) as [-> ->]. }
  assert (Hparts : ∀ e, e ∈ emitted (validateFolder env fuel dir) →
    Err.code e = UNREFERENCED_JSON_FILE →
    e ∈ emitted (validateInputFiles env fuel referencedFiles allFiles)).
  { intros e He Hcode. rewrite Hemitted in He.
    apply elem_of_app in He as [Hchecked|He].
    { exfalso.
      destruct (validateRPFolderMustContainReadme_rounds env fuel dir)
        as (_ & Hrounds & _).
      rewrite Hrounds in Hchecked.
      destruct (checkFolder_forEach env fuel (allJsonDirOf env dir) ∅)
        as (_ & _ & _ & Hsound & _).
      by apply Hsound in Hchecked as (item & _ & _ & -> & _). }
    apply elem_of_app in He as [Hmanifests|He]; [|done].
    exfalso.
    destruct (validateReadMeFile_forEach env (allReadMeFilesOf env dir) tt)
      as (_ & Hcodes & _).
    rewrite Forall_forall in Hcodes.
    destruct (Hcodes _ Hmanifests); congruence. }
  split_and!; [done..| |].
  - intros readMe f HreadMe Hf Hext finding.
    destruct (validateInputFiles_unreferenced env fuel referencedFiles
                allFiles (specificationOf env readMe f)) as [Hout Hin];
      [|done|].
    { eapply Forall_impl; [done|]. by intros spec [? _]. }
    split.
    + intros Hunreachable. rewrite Hemitted.
      apply elem_of_app. right. apply elem_of_app. right.
      apply Hout; [|done].
      destruct (collectSpecifications_all _ _ _ Hall readMe HreadMe)
        as [found Hfound].
      apply (collectSpecifications_elem_of _ _ _ Hall).
      exists readMe, found. split_and!; [done..|].
      apply (getAllInputFilesUnderReadme_elem_of env _ _ Hfound).
      by exists f.
    + intros Hread Hfound. apply Hin; [done|]. by apply Hparts.
  - intros e He Hcode.
    destruct (validateInputFiles_unreferenced_origin env fuel _ _ e
                (Hparts e He Hcode) Hcode) as (spec & Hspec & ->).
    apply (collectSpecifications_elem_of _ _ _ Hall) in Hspec
      as (readMe & found & HreadMe & Hfound & Hspec).
    apply (getAllInputFilesUnderReadme_elem_of env _ _ Hfound) in Hspec
      as (f & -> & Hf & Hext).
    by exists readMe, f.
Qed.

(** ** Every finding is well formed *)

Section WellFormed.

Context (env : Environment).

Lemma ownFindings_wellFormed current file found :
  ownFindings env current file = Some found → Forall wellFormed found.
Proof.
  unfold ownFindings, jsonParse.
  destruct (jsonParserParse env (path current) file) as [reported document].
  assert (Forall wellFormed
            (map (λ e, JsonParseError "The file is not a valid JSON file." e
                         LevelError (path current)) reported)) as Hparse.
  { apply Forall_forall. by intros e (pe & -> & _)%elem_of_map. }
  destruct (_ && _); [|by intros [= <-]].
  destruct (validateSpecificationAPIVersion current document) as [rules|]
    eqn:Hrules; [|done].
  intros [= <-]. apply Forall_app. split; [done|]. apply Forall_app. split.
  - unfold validateSpecificationAPIVersion in Hrules.
    destruct (JsonOps.getProp document "info") as [info|];
      [|injection Hrules as <-; constructor].
    destruct info; try done;
      (destruct (negb _); injection Hrules as <-; by repeat constructor).
  - unfold validateFileLocation.
    destruct (JsonOps.getProp document "host") as [[]|]; try constructor.
    destruct (String.eqb _ _); simpl; [|constructor].
    destruct (Js.includes (path current) "resource-manager") eqn:Hrm; simpl;
      by repeat constructor.
Qed.

Lemma validateInputFiles_wellFormed fuel inputFileSet allInputFileSet :
  Forall wellFormed
    (emitted (validateInputFiles env fuel inputFileSet allInputFileSet)).
Proof.
  unfold validateInputFiles. apply andThen_emitted.
  - apply (findings_traverseRoots env (λ _, wellFormed)); [| | | | |by auto].
    + apply ownFindings_wellFormed.
    + intros current file. unfold jsonParse.
      destruct (jsonParserParse env (path current) file) as [reported d].
      apply Forall_forall. by intros e (pe & -> & _)%elem_of_map.
    + intros current. by repeat constructor.
    + intros current. by repeat constructor.
    + done.
  - intros _. unfold reportUnreferenced, Gen.yieldAll. simpl.
    apply Forall_forall. intros e (spec & -> & _)%elem_of_map.
    by repeat constructor.
Qed.

Lemma isContainsMultiVersion_tag markDown :
  isContainsMultiVersion env markDown = true →
  ∃ tag, getDefaultTag env markDown = Some tag ∧ JsonOps.truthy tag = true.
Proof.
  unfold isContainsMultiVersion.
  destruct (getDefaultTag env markDown) as [tag|] eqn:Htag; [|done].
  intros _. exists tag. split; [done|].
  apply getDefaultTag_source in Htag as (idx & block & literal & _ & _ & _ & Htag).
  by apply definitionTag_truthy in Htag as [? _].
Qed.

Lemma validateReadMeFile_wellFormed readMes :
  ∀ st, Forall wellFormed
          (emitted (Gen.forEach (validateReadMeFile env) readMes st)).
Proof.
  induction readMes as [|readMe readMes IH]; intros st; [constructor|].
  rewrite forEach_cons. apply andThen_emitted; [|by intros _].
  rewrite validateReadMeFile_cases.
  destruct (readFile env readMe) as [file|]; [|constructor]. simpl.
  apply Forall_app. split.
  - destruct (negb _); by repeat constructor.
  - destruct (isContainsMultiVersion env (mdParse env file)) eqn:Hmulti;
      [|constructor].
    apply isContainsMultiVersion_tag in Hmulti as (tag & -> & Htag).
    repeat constructor. by exists tag.
Qed.

Lemma validateFolder_wellFormed fuel dir :
  Forall wellFormed (emitted (validateFolder env fuel dir)).
Proof.
  unfold validateFolder. apply andThen_emitted.
  { cbn [Gen.delegate emitted].
    destruct (validateRPFolderMustContainReadme_rounds env fuel dir)
      as (_ & -> & _).
    destruct (checkFolder_forEach env fuel (allJsonDirOf env dir) ∅)
      as (_ & _ & _ & Hsound & _).
    apply Forall_forall. intros e (item & _ & _ & -> & _)%Hsound.
    by repeat constructor. }
  intros _. apply andThen_emitted.
  { match goal with
    | |- context [Gen.forAwait ?body ?xs ?st] =>
        destruct (forAwait_outcome body xs st) as (_ & -> & _)
    end.
    apply validateReadMeFile_wellFormed. }
  intros _.
  destruct (foldSpecifications (getInputFilesFromReadme env) _)
    as [referencedFiles| |]; [|constructor..].
  destruct (foldSpecifications (getAllInputFilesUnderReadme env) _)
    as [allFiles| |]; [|constructor..].
  apply validateInputFiles_wellFormed.
Qed.

End WellFormed.

Lemma avocadoForDir_wellFormed env fuel dir exclude result :
  avocadoForDir env fuel dir exclude = Ok result →
  Forall wellFormed (ErrorMap.values result).
Proof.
  intros Hrun.
  destruct (avocadoForDir_collected _ _ _ _ _ Hrun)
    as (collected & Hrm & _ & Hfound).
  pose proof (validateFolder_wellFormed env fuel dir) as Hall.
  rewrite Forall_forall in Hall.
  apply Forall_forall. intros e ([k e'] & -> & Hke)%elem_of_map. simpl.
  apply (removeExcluded_elem_of env exclude _ _ _ Hrm) in Hke as [Hke _].
  apply Hall. by destruct (Hfound k e' Hke) as (_ & _ & _ & ?).
Qed.

Lemma compareBranches_wellFormed {S : Type} env fuel pr exclude dir (st : S) :
  Forall wellFormed (emitted (compareBranches env fuel pr exclude dir st)).
Proof.
  unfold compareBranches.
  destruct (avocadoForDir (checkout pr (targetBranch pr)) fuel _ exclude)
    as [targetMap| |] eqn:Htarget; [|constructor..].
  simpl.
  destruct (avocadoForDir (checkout pr (sourceBranch pr)) fuel _ exclude)
    as [sourceMap| |] eqn:Hsource; [|constructor..].
  simpl. pose proof (avocadoForDir_wellFormed _ _ _ _ _ Hsource) as Hall.
  rewrite Forall_forall in Hall.
  unfold removeExistingErrors.
  rewrite (removeExistingErrors_filter env (diff pr))
    by (by eapply avocadoForDir_NoDup).
  apply Forall_forall. intros e ([k e'] & -> & Hke)%elem_of_map.
  apply list_elem_of_filter in Hke as [_ Hke]. apply Hall.
  apply elem_of_map. by exists (k, e').
Qed.

Lemma compareBranches_forEach_wellFormed {S : Type} env fuel pr exclude dirs :
  ∀ st : S,
  Forall wellFormed
    (emitted (Gen.forEach (compareBranches env fuel pr exclude) dirs st)).
Proof.
  induction dirs as [|dir dirs IH]; intros st; [constructor|].
  rewrite forEach_cons. apply andThen_emitted; [|by intros _].
  apply compareBranches_wellFormed.
Qed.

Lemma avocadoForDevOps_wellFormed env fuel pr exclude :
  Forall wellFormed (emitted (avocadoForDevOps env fuel pr exclude)).
Proof.
  unfold avocadoForDevOps. apply andThen_emitted.
  - destruct (locateReadme_forEach env fuel pr exclude
                (swaggerParentDirs env pr) [] ltac:(constructor))
      as (_ & _ & Hsound & _).
    apply Forall_forall. intros e (item & _ & -> & _)%Hsound.
    by repeat constructor.
  - intros _. apply compareBranches_forEach_wellFormed.
Qed.

(** X23.  Every finding is well formed.  Whatever [validateFolder], a
    single-directory run, the run for a pull request and [avocado] itself
    yield, each finding has the level of its code ([CIRCULAR_REFERENCE],
    [MULTIPLE_API_VERSION] and [INVALID_FILE_LOCATION] are warnings, every
    other code an error), and the url it carries is its path: the JSON url
    of a finding about a JSON file, the manifest url of a finding about a
    manifest, the folder url of a [MISSING_README].  An
    [INVALID_FILE_LOCATION] finding is never about a path that contains
    [resource-manager], and a [MULTIPLE_API_VERSION] finding always names
    its tag. *)
Theorem findings_are_well_formed (env : Environment) (fuel : nat) :
  (∀ dir, Forall wellFormed (emitted (validateFolder env fuel dir)))
  ∧ (∀ dir exclude result,
       avocadoForDir env fuel dir exclude = Ok result →
       Forall wellFormed (ErrorMap.values result))
  ∧ (∀ pr exclude,
       Forall wellFormed (emitted (avocadoForDevOps env fuel pr exclude)))
  ∧ (∀ createPullRequestProperties config,
       Forall wellFormed
         (emitted (avocado env fuel createPullRequestProperties config))).
Proof.
  split_and!.
  - apply validateFolder_wellFormed.
  - apply avocadoForDir_wellFormed.
  - apply avocadoForDevOps_wellFormed.
  - intros create config. unfold avocado.
    destruct (create config) as [[pr|]| |]; simpl; [| |constructor..].
    + apply avocadoForDevOps_wellFormed.
    + destruct (avocadoForDir env fuel _ _) as [result| |] eqn:Hrun;
        simpl; [|constructor..].
      by eapply avocadoForDir_wellFormed.
Qed.

(** ** No reachable file escapes validation *)

Section Validated.

Context (env : Environment).

Lemma validatedIn_mono es es' p :
  (∀ e, e ∈ es → e ∈ es') → validatedIn env es p → validatedIn env es' p.
Proof.
  intros Hsub Hp file Hread. destruct (Hp file Hread) as (r & found & ? & ?).
  exists r, found. split; [done|]. auto.
Qed.

(** Every path a run has coloured was coloured before or was validated. *)
Let accounted (st : WalkState) (o : Outcome WalkState) : Prop :=
  status o = Finished →
  ∀ p, p ∈ coloured (final o) →
    p ∈ coloured st ∨ validatedIn env (emitted o) p.

Lemma accounted_andThen (m1 m2 : Gen WalkState) st :
  accounted st (m1 st) →
  (status (m1 st) = Finished → accounted (final (m1 st)) (m2 (final (m1 st)))) →
  accounted st ((m1 ;; m2) st).
Proof.
  intros H1 H2 [Hfin1 Hfin2]%andThen_status.
  rewrite andThen_finished by done. simpl. intros p Hp.
  destruct (H2 Hfin1 Hfin2 p Hp) as [Hp1|Hp1].
  - destruct (H1 Hfin1 p Hp1) as [?|Hv]; [by left|]. right.
    eapply validatedIn_mono; [|done]. intros e He. apply elem_of_app. by left.
  - right. eapply validatedIn_mono; [|done]. intros e He.
    apply elem_of_app. by right.
Qed.

Lemma accounted_visitReference recur current t st :
  (∀ spec st', kind spec = kindOf env (path spec) →
     accounted st' (recur spec st')) →
  accounted st (visitReference env recur current t st).
Proof.
  intros Hrecur.
  destruct (decide (t ∈ graySet st)) as [Hgray|Hgray].
  { rewrite visitReference_gray by done. intros _ p Hp. left.
    unfold coloured in *. simpl in Hp. set_solver. }
  destruct (decide (t ∈ blackSet st)) as [Hblack|Hblack].
  { rewrite visitReference_black by done. intros _ p Hp. by left. }
  rewrite visitReference_fresh by done. by apply Hrecur.
Qed.

Lemma accounted_forEach recur current refs :
  (∀ spec st', kind spec = kindOf env (path spec) →
     accounted st' (recur spec st')) →
  ∀ st, accounted st
          (Gen.forEach (visitReference env recur current) refs st).
Proof.
  intros Hrecur. induction refs as [|t refs IH]; intros st.
  { intros _ p Hp. by left. }
  rewrite forEach_cons. apply accounted_andThen; [|by intros _].
  by apply accounted_visitReference.
Qed.

Lemma accounted_DFSTraversalValidate fuel :
  ∀ current st,
    kind current = kindOf env (path current) →
    accounted st (DFSTraversalValidate env fuel current st).
Proof.
  induction fuel as [|fuel IH]; intros current st Hkind; [done|].
  pose proof (coloured_entered current st) as Hentered.
  destruct (readFile env (path current)) as [file|] eqn:Hread.
  - rewrite (DFSTraversalValidate_readable _ _ _ file) by done.
    intros [Hdoc _]%andThen_status. rewrite andThen_finished by done.
    apply walkDocument_finished in Hdoc as (found & Hown & Hloop & ->).
    cbn [final emitted]. rewrite app_nil_r. intros p.
    rewrite coloured_moveToBlack. intros Hp.
    assert (Hcurrent : validatedIn env
              (found ++ emitted
                 (Gen.forEach
                    (visitReference env (DFSTraversalValidate env fuel)
                       current)
                    (followed env current file) (entered current st)))
              (path current)).
    { intros file' Hread'. exists (readMePath current), found.
      rewrite <- Hkind. assert (file' = file) as -> by congruence.
      split; [by destruct current|].
      intros e He. apply elem_of_app. by left. }
    apply elem_of_union in Hp as [Hp| ->%elem_of_singleton]; [|by right].
    destruct (accounted_forEach (DFSTraversalValidate env fuel) current
                (followed env current file) IH (entered current st) Hloop p Hp)
      as [Hbefore|Hvalid].
    + rewrite Hentered in Hbefore.
      apply elem_of_union in Hbefore as [?| ->%elem_of_singleton];
        [by left|by right].
    + right. eapply validatedIn_mono; [|done]. intros e He.
      apply elem_of_app. by right.
  - rewrite DFSTraversalValidate_unreadable by done. intros _ p. simpl.
    rewrite Hentered. intros [?| ->%elem_of_singleton]%elem_of_union;
      [by left|].
    right. intros file Hfile. congruence.
Qed.

Lemma accounted_traverseRoots fuel roots :
  Forall (λ root, kind root = kindOf env (path root)) roots →
  ∀ st, accounted st (traverseRoots env fuel roots st).
Proof.
  unfold traverseRoots. induction roots as [|root roots IH]; intros Hkinds st.
  { intros _ p Hp. by left. }
  apply Forall_cons in Hkinds as [Hkind Hkinds].
  rewrite forEach_cons. apply accounted_andThen; [|intros _; by apply IH].
  by apply accounted_DFSTraversalValidate.
Qed.

End Validated.

(** X24.  No reachable file escapes validation.  When the roots have the
    kind their path gives them and the traversal from empty sets finishes,
    every readable file that is a root or is reached from one has been
    visited: the findings of a visit for the file itself, its parse errors
    and, for a file that is no example and whose document is not [null],
    the findings of the version rule and of the location rule, made under
    one of the manifests, are all among the findings of the traversal. *)
Theorem reachable_files_are_validated (env : Environment) (fuel : nat)
    (roots : list Specification) :
  Forall (λ root, kind root = kindOf env (path root)) roots →
  let run := traverseRoots env fuel roots emptySets in
  status run = Finished →
  ∀ p file, reachable env roots p → readFile env p = Some file →
    ∃ readMe found,
      ownFindings env
        {| path := p; readMePath := readMe; kind := kindOf env p |} file
      = Some found
      ∧ ∀ e, e ∈ found → e ∈ emitted run.
Proof.
  intros Hkinds run Hfin p file Hreach Hread.
  destruct (traverseRoots_coloured env roots fuel Hkinds Hfin)
    as (Hcoloured & _).
  apply Hcoloured in Hreach.
  destruct (accounted_traverseRoots env fuel roots Hkinds emptySets Hfin p
              Hreach) as [Hempty|Hvalid].
  - unfold coloured in Hempty. simpl in Hempty. set_solver.
  - by apply Hvalid.
Qed.

(** ** When a single-directory run returns a map *)

Section Returns.

Context (env : Environment) (exclude : list string).

(** Every entry of [exclude] is a regular expression. *)
Hypothesis patterns : ∀ subject item,
  item ∈ exclude → is_Some (stringSearch env subject item).

Lemma isExcluded_returns subject : ∃ b, isExcluded env exclude subject = Ok b.
Proof.
  unfold isExcluded.
  assert (Hsome : ∀ items, (∀ item, item ∈ items → item ∈ exclude) →
    ∃ b, Result.some
           (λ item, match stringSearch env subject item with
                    | Some i => Ok (negb (i =? -1)%Z)
                    | None => Exception
                    end) items = Ok b); [|by apply Hsome].
  induction items as [|item items IH]; intros Hin; simpl; [by eexists|].
  destruct (patterns subject item) as [i ->]; [apply Hin; by left|].
  simpl. destruct (negb _); [by eexists|].
  apply IH. intros it Hit. apply Hin. by right.
Qed.

Lemma removeExcluded_filter entries :
  ∀ map : list (string * Error),
  removeExcluded env exclude entries map
  = Ok (filter
          (λ kv, Forall (λ kv', kv'.1 = kv.1 →
                           isExcluded env exclude (Err.path kv'.2) = Ok false)
                   entries) map).
Proof.
  induction entries as [|[k v] entries IH]; intros map; simpl.
  { f_equal. symmetry. apply filter_all, Forall_forall. by intros kv _. }
  destruct (isExcluded_returns (Err.path v)) as [b Hb]. rewrite Hb. simpl.
  rewrite IH. f_equal. destruct b.
  - rewrite delete_filter, list_filter_filter. apply filter_ext_in.
    intros kv _. rewrite Forall_cons. simpl. rewrite Hb. split.
    + intros [Hrest Hne]. split; [|done]. intros Heq. by destruct Hne.
    + intros [Hk Hrest]. split; [done|]. intros Heq.
      by specialize (Hk (eq_sym Heq)).
  - apply filter_ext_in. intros kv _. rewrite Forall_cons. simpl.
    rewrite Hb. naive_solver.
Qed.

Lemma removeExcluded_own (map : list (string * Error)) :
  NoDup (ErrorMap.keys map) →
  removeExcluded env exclude map map
  = Ok (filter (λ kv, isExcluded env exclude (Err.path kv.2) = Ok false) map).
Proof.
  intros Hdup. rewrite removeExcluded_filter. f_equal.
  apply filter_ext_in. intros [k v] Hkv. rewrite Forall_forall. simpl. split.
  - intros Hall. by apply (Hall (k, v)).
  - intros Hv [k' v'] Hkv' Hk. simpl in *. subst k'.
    by rewrite (NoDup_keys_eq _ _ _ _ Hdup Hkv' Hkv).
Qed.

End Returns.

(** X25.  When a single-directory run returns a map.  When every entry
    of the exclusion list is a regular expression, a run on a directory
    that does not exist returns the empty map, and a run on a directory
    whose validation finishes returns the map of the findings of the
    folder without the findings whose path an entry matches, the others in
    the order in which their keys were first found.  A validation that
    throws makes the run throw. *)
Theorem avocadoForDir_returns (env : Environment) (fuel : nat)
    (dir : string) (exclude : list string) :
  (∀ subject item, item ∈ exclude → is_Some (stringSearch env subject item)) →
  (existsSync env dir = false → avocadoForDir env fuel dir exclude = Ok [])
  ∧ (existsSync env dir = true →
     status (validateFolder env fuel dir) = Finished →
     avocadoForDir env fuel dir exclude
     = Ok (filter
             (λ kv, isExcluded env exclude (Err.path kv.2) = Ok false)
             (collectErrors env (emitted (validateFolder env fuel dir)))))
  ∧ (existsSync env dir = true →
     status (validateFolder env fuel dir) = Threw →
     avocadoForDir env fuel dir exclude = Exception).
Proof.
  intros Hpatterns. unfold avocadoForDir. split_and!.
  - by intros ->.
  - intros -> ->. simpl. apply removeExcluded_own; [done|].
    apply collectErrors_NoDup.
  - by intros -> ->.
Qed.

(** ** The AutoRest marker of a manifest *)

Lemma isAutoRestMd_marker (m : MdNode) :
  isAutoRestMd m = true
  ↔ ∃ quote paragraph text,
      quote ∈ Md.children m
      ∧ Md.type quote = "block_quote"
      ∧ Md.firstChild quote = Some paragraph
      ∧ Md.type paragraph = "paragraph"
      ∧ Md.firstChild paragraph = Some text
      ∧ Md.type text = "text"
      ∧ Md.literal text = Some "see https://aka.ms/autorest".
Proof.
  unfold isAutoRestMd, markDownIterate. rewrite existsb_exists. split.
  - intros (quote & Hquote%list_elem_of_In & Hmarker).
    destruct (String.eqb_spec (Md.type quote) "block_quote"); [|done].
    destruct (Md.firstChild quote) as [paragraph|] eqn:Hp; [|done].
    destruct (String.eqb_spec (Md.type paragraph) "paragraph"); [|done].
    destruct (Md.firstChild paragraph) as [text|] eqn:Ht; [|done].
    destruct (String.eqb_spec (Md.type text) "text"); [|done].
    destruct (Md.literal text) as [literal|] eqn:Hl; [|done].
    simpl in Hmarker. apply String.eqb_eq in Hmarker as ->.
    by exists quote, paragraph, text.
  - intros (quote & paragraph & text & Hquote & Hq & Hp & Hpt & Ht & Htt & Hl).
    exists quote. split; [by apply list_elem_of_In|].
    rewrite Hq, Hp, Hpt, Ht, Htt, Hl. done.
Qed.

(** X26.  When [NOT_AUTOREST_MARKDOWN] is reported.  A manifest that can
    be read is an AutoRest manifest exactly when one of its top-level
    nodes, at any place among them, is a block quote whose first child is a
    paragraph whose first child is the text [see https://aka.ms/autorest],
    letter for letter; the marker in a later paragraph of the quote, after
    other text of the paragraph, or in a quote inside another node does not
    count.  [validateReadMeFile] finishes on such a manifest, yields one
    [NOT_AUTOREST_MARKDOWN] error for the manifest when the marker is
    missing and none when it is there, and yields it before any
    [MULTIPLE_API_VERSION] finding. *)
Theorem not_autorest_markdown_without_marker (env : Environment)
    (readMePath file : string) :
  readFile env readMePath = Some file →
  let m := mdParse env file in
  let run := validateReadMeFile env readMePath tt in
  let notAutoRest :=
    NotAutoRestMarkDown "The `readme.md` is not an AutoRest markdown file."
      readMePath LevelError readMePath
      "http://azure.github.io/autorest/user/literate-file-formats/configuration.html#the-file-format" in
  (isAutoRestMd m = true
   ↔ ∃ quote paragraph text,
       quote ∈ Md.children m
       ∧ Md.type quote = "block_quote"
       ∧ Md.firstChild quote = Some paragraph
       ∧ Md.type paragraph = "paragraph"
       ∧ Md.firstChild paragraph = Some text
       ∧ Md.type text = "text"
       ∧ Md.literal text = Some "see https://aka.ms/autorest")
  ∧ status run = Finished
  ∧ (∃ multiple,
       emitted run = (if isAutoRestMd m then [] else [notAutoRest])
                     ++ multiple
       ∧ Forall (λ e, Err.code e = MULTIPLE_API_VERSION) multiple
       ∧ length multiple ≤ 1).
Proof.
  intros Hread m run notAutoRest. split; [apply isAutoRestMd_marker|].
  subst run. rewrite validateReadMeFile_cases, Hread. fold m.
  split; [done|]. cbn [emitted].
  exists (if isContainsMultiVersion env m
          then [MultipleApiVersion
                  "The default tag contains multiple API versions swaggers."
                  readMePath (getDefaultTag env m) readMePath LevelWarning]
          else []).
  split_and!.
  - by destruct (isAutoRestMd m).
  - destruct (isContainsMultiVersion env m); by repeat constructor.
  - destruct (isContainsMultiVersion env m); simpl; lia.
Qed.

(** ** The validation of a folder ends *)

Lemma findTheNearestReadme_fuel env cwd n :
  ∀ m p, n ≤ m → findTheNearestReadme env n cwd p ≠ NoFuel →
    findTheNearestReadme env m cwd p = findTheNearestReadme env n cwd p.
Proof.
  induction n as [|n IH]; intros [|m] p Hle; simpl; try done; try lia.
  destruct (String.eqb p cwd); [done|].
  destruct (containsReadme env p); [done|].
  apply IH. lia.
Qed.

Lemma checkFolder_fuel env n m item allJsonSet :
  n ≤ m → status (checkFolder env n item allJsonSet) ≠ OutOfFuel →
  checkFolder env m item allJsonSet = checkFolder env n item allJsonSet.
Proof.
  intros Hle. destruct (decide (item ∈ allJsonSet)) as [Hseen|Hnew].
  { intros _. by rewrite !checkFolder_seen. }
  rewrite !checkFolder_new by done. intros Hstatus.
  rewrite (findTheNearestReadme_fuel env (processCwd env) n m item Hle);
    [done|].
  intros Hnone. by rewrite Hnone in Hstatus.
Qed.

Lemma validateInputFiles_fuel env n m inputFileSet allInputFileSet :
  n ≤ m →
  status (validateInputFiles env n inputFileSet allInputFileSet) ≠ OutOfFuel →
  validateInputFiles env m inputFileSet allInputFileSet
  = validateInputFiles env n inputFileSet allInputFileSet.
Proof.
  intros Hle. unfold validateInputFiles. apply andThen_agree; [|done].
  by apply traverseRoots_fuel.
Qed.

Lemma validateFolder_fuel env n m dir :
  n ≤ m → status (validateFolder env n dir) ≠ OutOfFuel →
  validateFolder env m dir = validateFolder env n dir.
Proof.
  intros Hle. unfold validateFolder. apply andThen_agree.
  - unfold Gen.delegate. simpl. intros Hstatus.
    assert (Hsame : validateRPFolderMustContainReadme env m dir ∅
                    = validateRPFolderMustContainReadme env n dir ∅);
      [|by rewrite Hsame].
    rewrite !validateRPFolderMustContainReadme_loop in *.
    unfold Gen.forAwait in *. apply andThen_agree; [|done..].
    apply forEach_agree. intros item st. by apply checkFolder_fuel.
  - intros st. apply andThen_agree; [done|]. intros st'.
    destruct (foldSpecifications (getInputFilesFromReadme env) _)
      as [referencedFiles| |]; [|done..].
    destruct (foldSpecifications (getAllInputFilesUnderReadme env) _)
      as [allFiles| |]; [|done..].
    unfold Result.await, Gen.delegate. simpl. intros Hstatus.
    by rewrite (validateInputFiles_fuel env n m).
Qed.

Lemma forEach_in_budget_all {S A} (body : A → Gen S) (xs : list A) :
  (∀ x st, x ∈ xs → status (body x st) ≠ OutOfFuel) →
  ∀ st, status (Gen.forEach body xs st) ≠ OutOfFuel.
Proof.
  induction xs as [|x xs IH]; intros Hbody st; [done|].
  rewrite forEach_cons. apply andThen_in_budget.
  - apply Hbody. by left.
  - intros _. apply IH. intros y st' Hy. apply Hbody. by right.
Qed.

Lemma foldSpecifications_in_budget
    (f : string → Result (list Specification)) (readMes : Listing) :
  (∀ readMe, f readMe ≠ NoFuel) → foldSpecifications f readMes ≠ NoFuel.
Proof.
  intros Hf. unfold foldSpecifications.
  assert (Hcollect : collectSpecifications f (yielded readMes) ≠ NoFuel).
  { induction (yielded readMes) as [|readMe rest IH]; simpl; [done|].
    pose proof (Hf readMe) as HreadMe.
    destruct (f readMe); [|done..]. simpl.
    by destruct (collectSpecifications f rest). }
  destruct (collectSpecifications f (yielded readMes)); [|done..].
  simpl. by destruct (rejects readMes).
Qed.

Lemma getInputFilesFromReadme_in_budget env readMe :
  getInputFilesFromReadme env readMe ≠ NoFuel.
Proof.
  unfold getInputFilesFromReadme. by destruct (readFile env readMe).
Qed.

Lemma getAllInputFilesUnderReadme_in_budget env readMe :
  getAllInputFilesUnderReadme env readMe ≠ NoFuel.
Proof.
  unfold getAllInputFilesUnderReadme. by destruct (rejects _).
Qed.

Lemma validateReadMeFile_in_budget env readMes st :
  status (Gen.forEach (validateReadMeFile env) readMes st) ≠ OutOfFuel.
Proof.
  apply forEach_in_budget_all. intros readMe st' _.
  rewrite validateReadMeFile_cases. by destruct (readFile env readMe).
Qed.

Lemma validateFolder_in_budget env fuel dir :
  status (validateRPFolderMustContainReadme env fuel dir ∅) ≠ OutOfFuel →
  (∀ inputFileSet allInputFileSet,
     status (validateInputFiles env fuel inputFileSet allInputFileSet)
     ≠ OutOfFuel) →
  status (validateFolder env fuel dir) ≠ OutOfFuel.
Proof.
  intros Hfolders Hwalk. unfold validateFolder.
  apply andThen_in_budget; [done|]. intros _.
  set (readMes := Listing.filter _ (recursiveReaddir env dir)).
  apply andThen_in_budget.
  { match goal with
    | |- context [Gen.forAwait ?body ?xs ?st] =>
        destruct (forAwait_outcome body xs st) as (_ & _ & ->);
        pose proof (validateReadMeFile_in_budget env (yielded xs) st)
    end.
    destruct (status (Gen.forEach _ _ _)); [by destruct (rejects _)|done..]. }
  intros _.
  pose proof (foldSpecifications_in_budget _ readMes
                (getInputFilesFromReadme_in_budget env)) as Hreferenced.
  pose proof (foldSpecifications_in_budget _ readMes
                (getAllInputFilesUnderReadme_in_budget env)) as Hall.
  destruct (foldSpecifications (getInputFilesFromReadme env) readMes)
    as [referencedFiles| |]; [|done..].
  destruct (foldSpecifications (getAllInputFilesUnderReadme env) readMes)
    as [allFiles| |]; [|done..].
  apply Hwalk.
Qed.

(** One budget for all the climbs of a list of directories. *)
Lemma findTheNearestReadme_budget env cwd (items : list string) :
  (∀ item, item ∈ items →
     ∃ n, ancestor env n item = cwd
          ∨ containsReadme env (ancestor env n item) = true) →
  ∃ budget, ∀ item, item ∈ items →
    findTheNearestReadme env budget cwd item ≠ NoFuel.
Proof.
  induction items as [|item items IH]; intros Hstops.
  { exists 0. by intros item ?%elem_of_nil. }
  destruct IH as [budget Hbudget].
  { intros it Hit. apply Hstops. by right. }
  destruct (Hstops item) as [n Hn]; [by left|].
  exists (S n `max` budget). intros it [->|Hit]%elem_of_cons.
  - destruct (findTheNearestReadme_stops env cwd n item (S n `max` budget) Hn)
      as (result & -> & _); [lia|done].
  - rewrite (findTheNearestReadme_fuel env cwd budget); [by apply Hbudget|lia|].
    by apply Hbudget.
Qed.

Lemma isExcluded_in_budget env exclude subject :
  isExcluded env exclude subject ≠ NoFuel.
Proof.
  unfold isExcluded. induction exclude as [|item exclude IH]; simpl; [done|].
  destruct (stringSearch env subject item) as [i|]; [|done]. simpl.
  by destruct (negb _).
Qed.

Lemma removeExcluded_in_budget env exclude entries :
  ∀ map, removeExcluded env exclude entries map ≠ NoFuel.
Proof.
  induction entries as [|[k v] entries IH]; intros map; simpl; [done|].
  pose proof (isExcluded_in_budget env exclude (Err.path v)) as Hexcluded.
  destruct (isExcluded env exclude (Err.path v)) as [b| |]; [|done..].
  simpl. apply IH.
Qed.

(** X28.  The validation of a folder ends.  When only finitely many files
    can be read, and the climb from the directory of every resource-provider
    [.json] file below [dir] meets the process working directory or a
    directory with a [readme.md], [validateFolder] and [avocadoForDir] end:
    there is a budget from which a run never stops for lack of budget and
    gives the same findings and the same result whatever the budget. *)
Theorem validateFolder_terminates (env : Environment) (dir : string)
    (files : list string) :
  (∀ p, is_Some (readFile env p) → p ∈ files) →
  (∀ f, f ∈ yielded (recursiveReaddir env dir) →
     isRPJsonFile env f = true →
     ∃ n, ancestor env n (pathDirname env f) = processCwd env
          ∨ containsReadme env (ancestor env n (pathDirname env f)) = true) →
  ∃ budget, ∀ fuel, budget ≤ fuel →
    status (validateFolder env fuel dir) ≠ OutOfFuel
    ∧ validateFolder env fuel dir = validateFolder env budget dir
    ∧ ∀ exclude,
        avocadoForDir env fuel dir exclude ≠ NoFuel
        ∧ avocadoForDir env fuel dir exclude
          = avocadoForDir env budget dir exclude.
Proof.
  intros Hfiles Hclimbs.
  destruct (findTheNearestReadme_budget env (processCwd env)
              (allJsonDirOf env dir)) as [climb Hclimb].
  { intros item (f & -> & Hf)%elem_of_map.
    apply list_elem_of_In, filter_In in Hf as [Hf%list_elem_of_In Hrp].
    by apply Hclimbs. }
  set (walk := S (size (referenceUniverse env files))).
  assert (Hbudget : status (validateFolder env (climb `max` walk) dir)
                    ≠ OutOfFuel).
  { apply validateFolder_in_budget.
    - destruct (validateRPFolderMustContainReadme_rounds env
                  (climb `max` walk) dir) as (_ & _ & ->).
      cut (status (Gen.forEach (checkFolder env (climb `max` walk))
                     (allJsonDirOf env dir) ∅) ≠ OutOfFuel).
      { destruct (status (Gen.forEach _ _ _)); [by destruct (rejects _)|done..]. }
      apply forEach_in_budget_all. intros item st Hitem.
      destruct (decide (item ∈ st)) as [Hseen|Hnew].
      { by rewrite checkFolder_seen. }
      rewrite checkFolder_new by done.
      pose proof (Hclimb item Hitem) as Hends.
      rewrite (findTheNearestReadme_fuel env (processCwd env) climb)
        by (done || lia).
      pose proof (findTheNearestReadme_no_exception env climb (processCwd env)
                    item) as Hexception.
      by destruct (findTheNearestReadme env climb (processCwd env) item)
        as [[d|]| |].
    - intros inputFileSet allInputFileSet. unfold validateInputFiles.
      apply andThen_in_budget.
      + apply (traverseRoots_in_budget env (referenceUniverse env files)).
        * by apply referenceUniverse_closed.
        * subst walk. lia.
      + intros _. done. }
  exists (climb `max` walk). intros fuel Hfuel.
  pose proof (validateFolder_fuel env _ fuel dir Hfuel Hbudget) as Hsame.
  split; [by rewrite Hsame|]. split; [done|]. intros exclude.
  unfold avocadoForDir. rewrite Hsame. split; [|done].
  destruct (existsSync env dir); simpl; [|done].
  destruct (status (validateFolder env (climb `max` walk) dir)); simpl;
    [apply removeExcluded_in_budget|done..].
Qed.

(** ** What the diff engine yields when nothing is new *)

Lemma locateReadme_finishes env fuel pr exclude items :
  (∀ subject item, item ∈ exclude → is_Some (stringSearch env subject item)) →
  (∀ item, item ∈ items →
     findTheNearestReadme env fuel (workingDir pr) item ≠ NoFuel) →
  ∀ readmeDirs : list string,
    status (Gen.forEach (locateReadme env fuel pr exclude) items readmeDirs)
    = Finished.
Proof.
  intros Hpatterns. induction items as [|item items IH];
    intros Hbudget readmeDirs; [done|].
  rewrite forEach_cons.
  pose proof (locateReadme_cases env fuel pr exclude item readmeDirs) as Hstep.
  pose proof (Hbudget item ltac:(by left)) as Hitem.
  pose proof (findTheNearestReadme_no_exception env fuel (workingDir pr) item)
    as Hexception.
  destruct (isExcluded_returns env exclude Hpatterns item) as [b Hb].
  rewrite Hb in Hstep.
  assert (Hrest : ∀ dirs : list string,
    status (Gen.forEach (locateReadme env fuel pr exclude) items dirs)
    = Finished).
  { apply IH. intros it Hit. apply Hbudget. by right. }
  destruct (findTheNearestReadme env fuel (workingDir pr) item)
    as [[d|]| |]; [| |done..].
  - erewrite andThen_outcome by done. apply Hrest.
  - destruct b; erewrite andThen_outcome by done; apply Hrest.
Qed.

(** C4.  When, for every manifest directory the diff engine locates above
    a changed directory, the runs on the target branch and on the source
    branch return maps with the same correlation keys and
    [devOps.isPRRelatedError] finds no finding of the source map related to
    the changed files, the engine yields none of these findings: it
    finishes, and what it yields are the [MISSING_README] findings of its
    first loop, one for every changed directory, other than the working
    directory, above which no manifest is found below the working
    directory and which no exclusion entry matches; it yields nothing when
    there is no such directory. *)
Theorem diff_engine_suppresses_unrelated (env : Environment) (fuel : nat)
    (pr : PullRequestProperties) (exclude : list string) :
  let nearest item := findTheNearestReadme env fuel (workingDir pr) item in
  let run := avocadoForDevOps env fuel pr exclude in
  (∀ subject item, item ∈ exclude → is_Some (stringSearch env subject item)) →
  (∀ item, item ∈ swaggerParentDirs env pr → nearest item ≠ NoFuel) →
  (∀ item dir,
     item ∈ swaggerParentDirs env pr → nearest item = Ok (Some dir) →
     ∃ targetMap sourceMap,
       avocadoForDir (checkout pr (targetBranch pr)) fuel
         (pathResolve env [workingDir pr; dir]) exclude = Ok targetMap
       ∧ avocadoForDir (checkout pr (sourceBranch pr)) fuel
           (pathResolve env [workingDir pr; dir]) exclude = Ok sourceMap
       ∧ (∀ k, k ∈ ErrorMap.keys sourceMap ↔ k ∈ ErrorMap.keys targetMap)
       ∧ (∀ k error, (k, error) ∈ sourceMap →
            isPRRelatedError env (diff pr) error = false)) →
  status run = Finished
  ∧ (∀ e, e ∈ emitted run
       ↔ ∃ item, item ∈ swaggerParentDirs env pr
           ∧ nearest item = Ok None
           ∧ isExcluded env exclude item = Ok false
           ∧ e = missingReadme item)
  ∧ ((∀ item, item ∈ swaggerParentDirs env pr → nearest item = Ok None →
        isExcluded env exclude item = Ok true) →
     emitted run = []).
Proof.
  intros nearest run Hpatterns Hbudget Hsame.
  pose proof (locateReadme_finishes env fuel pr exclude
                (swaggerParentDirs env pr) Hpatterns Hbudget []) as Hlocated.
  destruct (locateReadme_forEach env fuel pr exclude
              (swaggerParentDirs env pr) [] ltac:(constructor))
    as (_ & Hdirs & Hsound & Hall).
  assert (Hrun : run
    = MkOutcome Finished
        (final (Gen.forEach (locateReadme env fuel pr exclude)
                  (swaggerParentDirs env pr) []))
        (emitted (Gen.forEach (locateReadme env fuel pr exclude)
                    (swaggerParentDirs env pr) []))).
  { apply avocadoForDevOps_suppresses; [done|].
    intros dir [?%elem_of_nil|(item & Hitem & Hnearest)]%Hdirs; [done|].
    by apply (Hsame item). }
  assert (Hiff : ∀ e, e ∈ emitted run
    ↔ ∃ item, item ∈ swaggerParentDirs env pr
        ∧ nearest item = Ok None
        ∧ isExcluded env exclude item = Ok false
        ∧ e = missingReadme item).
  { intros e. rewrite Hrun. simpl. split.
    - intros (item & Hitem & -> & Hnone & Hex)%Hsound. by exists item.
    - intros (item & Hitem & Hnone & Hex & ->).
      specialize (Hall Hlocated item Hitem). fold (nearest item) in Hall.
      rewrite Hnone in Hall. by apply Hall. }
  split_and!; [by rewrite Hrun|done|].
  intros Hnone. destruct (emitted run) as [|e rest] eqn:Hemitted; [done|].
  exfalso.
  destruct (proj1 (Hiff e) ltac:(by left)) as (item & Hitem & Hnear & Hex & _).
  specialize (Hnone item Hitem Hnear). congruence.
Qed.

(** ** Examples on the sample trees, continued *)

Lemma isExample_whole_segment_witness :
  Forall (freeOf "/") [""; "s"; "examples"; "e.json"]
  ∧ isExample Trees.withExample "/s/examples/e.json" = true
  ∧ isExample Trees.withExample "/s/Examples/e.json" = false.
Proof.
  assert (Hfree : Forall (freeOf "/") [""; "s"; "examples"; "e.json"])
    by (repeat constructor).
  assert (Hfree' : Forall (freeOf "/") [""; "s"; "Examples"; "e.json"])
    by (repeat constructor).
  pose proof (isExample_whole_segment Trees.withExample _ Hfree) as Hyes.
  pose proof (isExample_whole_segment Trees.withExample _ Hfree') as Hno.
  split_and!; [done|exact Hyes|exact Hno].
Defined.

Lemma findTheNearestReadme_nearest_witness :
  findTheNearestReadme Sample.repo 5 "/repo" "/repo/rm/2020-01-01"
  = Ok (Some "/repo/rm")
  ∧ ∃ k, climbs Sample.repo "/repo" "/repo/rm/2020-01-01" k
      ∧ "/repo/rm" = ancestor Sample.repo k "/repo/rm/2020-01-01"
      ∧ "/repo/rm" ≠ "/repo"
      ∧ containsReadme Sample.repo "/repo/rm" = true.
Proof.
  assert (Hrun : findTheNearestReadme Sample.repo 5 "/repo"
                   "/repo/rm/2020-01-01" = Ok (Some "/repo/rm"))
    by (vm_compute; reflexivity).
  split; [done|].
  exact (findTheNearestReadme_nearest Sample.repo 5 "/repo"
           "/repo/rm/2020-01-01" (Some "/repo/rm") Hrun).
Defined.

Lemma findTheNearestReadme_ends_at_cwd_or_manifest_witness :
  (∃ result,
     findTheNearestReadme Sample.repo 7 "/repo" "/repo/rm/2020-01-01"
     = Ok result
     ∧ findTheNearestReadme Sample.repo 2 "/repo" "/repo/rm/2020-01-01"
       = Ok result)
  ∧ findTheNearestReadme Sample.repo 1000 "/repo" "/other/rm/2020-01-01"
    = NoFuel.
Proof.
  destruct (findTheNearestReadme_ends_at_cwd_or_manifest Sample.repo "/repo"
              "/repo/rm/2020-01-01") as [Hends _].
  destruct (findTheNearestReadme_ends_at_cwd_or_manifest Sample.repo "/repo"
              "/other/rm/2020-01-01") as [_ Hendless].
  split.
  - apply (Hends 1 7); [right; vm_compute; reflexivity|lia].
  - apply Hendless. intros k.
    destruct k as [|[|[|[|k]]]]; try (vm_compute; split; [discriminate|reflexivity]).
    assert (Hroot : ancestor Sample.repo (S (S (S (S k))))
                      "/other/rm/2020-01-01" = "").
    { induction k as [|k IH]; [vm_compute; reflexivity|].
      change (ancestor Sample.repo (S (S (S (S (S k))))) "/other/rm/2020-01-01")
        with (pathDirname Sample.repo
                (ancestor Sample.repo (S (S (S (S k))))
                   "/other/rm/2020-01-01")).
      rewrite IH. vm_compute. reflexivity. }
    rewrite Hroot. vm_compute. split; [discriminate|reflexivity].
Defined.

Lemma avocadoForDir_map_of_findings_witness :
  let orphan :=
    JsonFileError UnreferencedJsonFile
      "The swagger JSON file is not referenced from the readme file."
      "/repo/rm/readme.md" LevelError "/repo/rm/2020-01-01/orphan.json"
      "/repo/rm/2020-01-01/orphan.json" in
  avocadoForDir Sample.repo 3 "/repo/rm" []
  = Ok [(errorCorrelationId Sample.repo orphan, orphan)]
  ∧ orphan ∈ emitted (validateFolder Sample.repo 3 "/repo/rm")
  ∧ avocadoForDir Sample.repo 3 "/nowhere" ["orphan"] = Ok [].
Proof.
  intros orphan.
  assert (Hrun : avocadoForDir Sample.repo 3 "/repo/rm" []
            = Ok [(errorCorrelationId Sample.repo orphan, orphan)])
    by (vm_compute; reflexivity).
  assert (Hnone : avocadoForDir Sample.repo 3 "/nowhere" ["orphan"] = Ok [])
    by (vm_compute; reflexivity).
  destruct (avocadoForDir_map_of_findings _ _ _ _ _ Hrun)
    as (_ & _ & Hfound & _).
  split_and!; [done| |done].
  by destruct (Hfound _ orphan ltac:(by left)) as (_ & _ & _ & ?).
Defined.

Lemma compareBranches_new_or_related_witness :
  let orphan :=
    JsonFileError UnreferencedJsonFile
      "The swagger JSON file is not referenced from the readme file."
      "/repo/rm/readme.md" LevelError "/repo/rm/2020-01-01/orphan.json"
      "/repo/rm/2020-01-01/orphan.json" in
  avocadoForDir Sample.repo 3 "/repo/rm" []
  = Ok [(errorCorrelationId Sample.repo orphan, orphan)]
  ∧ isPRRelatedError Sample.repo (diff Trees.orphanChanged) orphan = true
  ∧ compareBranches Sample.repo 3 Trees.orphanChanged [] "/repo/rm" tt
    = MkOutcome Finished tt [orphan].
Proof.
  intros orphan.
  assert (Hrun : avocadoForDir Sample.repo 3 "/repo/rm" []
            = Ok [(errorCorrelationId Sample.repo orphan, orphan)])
    by (vm_compute; reflexivity).
  split_and!; [done|vm_compute; reflexivity|].
  destruct (compareBranches_new_or_related Sample.repo 3 Trees.orphanChanged
              [] "/repo/rm" _ _ tt Hrun Hrun) as (_ & Hcompared & _).
  etrans; [exact Hcompared|]. vm_compute. reflexivity.
Defined.

Lemma avocadoForDevOps_nothing_to_check_witness :
  (∀ change, change ∈ diff Trees.licenseChanged →
     pathDirname Sample.repo
       (pathResolve Sample.repo
          [workingDir Trees.licenseChanged; fc_path change])
     = workingDir Trees.licenseChanged)
  ∧ avocadoForDevOps Sample.repo 3 Trees.licenseChanged []
    = MkOutcome Finished [] [].
Proof.
  assert (Hflat : ∀ change, change ∈ diff Trees.licenseChanged →
     pathDirname Sample.repo
       (pathResolve Sample.repo
          [workingDir Trees.licenseChanged; fc_path change])
     = workingDir Trees.licenseChanged).
  { intros change ->%list_elem_of_singleton. vm_compute. reflexivity. }
  split; [done|].
  exact (proj2 (avocadoForDevOps_nothing_to_check Sample.repo 3
                  Trees.licenseChanged [] Hflat)).
Defined.

Lemma walker_colours_what_is_reachable_witness :
  let roots := [Sample.swagger "/s/A.json"] in
  let run := traverseRoots Trees.chain 3 roots emptySets in
  Forall (λ root, kind root = kindOf Trees.chain (path root)) roots
  ∧ status run = Finished
  ∧ reachable Trees.chain roots "/s/B.json"
  ∧ "/s/B.json" ∈ blackSet (final run).
Proof.
  intros roots run.
  assert (Hkinds : Forall (λ root, kind root = kindOf Trees.chain (path root))
                     roots) by (repeat constructor).
  assert (Hfin : status run = Finished) by (vm_compute; reflexivity).
  assert (Hreach : reachable Trees.chain roots "/s/B.json").
  { apply reachable_ref with "/s/A.json".
    - apply (reachable_root Trees.chain roots (Sample.swagger "/s/A.json")).
      by left.
    - vm_compute. by left. }
  split_and!; [done..|].
  destruct (walker_colours_what_is_reachable Trees.chain 3 roots Hkinds Hfin)
    as (_ & Hblack & _).
  apply Hblack; [done|]. by eexists.
Defined.

Lemma unreferenced_exactly_when_unreachable_witness :
  let a := {| path := "/repo/rm/2020-01-01/a.json";
              readMePath := "/repo/rm/readme.md"; kind := SWAGGER |} in
  let orphan := {| path := "/repo/rm/2020-01-01/orphan.json";
                   readMePath := "/repo/rm/readme.md"; kind := SWAGGER |} in
  let run := validateInputFiles Sample.repo 2 [a] [a; orphan] in
  Forall (λ root, kind root = kindOf Sample.repo (path root)) [a]
  ∧ status run = Finished
  ∧ unreferencedJsonFile orphan ∈ emitted run
  ∧ ¬ reachable Sample.repo [a] "/repo/rm/2020-01-01/orphan.json"
  ∧ reachable Sample.repo [a] "/repo/rm/2020-01-01/a.json".
Proof.
  intros a orphan run.
  assert (Hkinds : Forall (λ root, kind root = kindOf Sample.repo (path root))
                     [a]) by (repeat constructor).
  assert (Hfin : status run = Finished) by (vm_compute; reflexivity).
  assert (Hfound : unreferencedJsonFile orphan ∈ emitted run)
    by (vm_compute; by left).
  split_and!; [done..| |].
  - destruct (unreferenced_exactly_when_unreachable Sample.repo 2 [a]
                [a; orphan] Hkinds Hfin orphan) as [_ Hunreachable].
    { right. by left. }
    apply Hunreachable; [by eexists|done].
  - apply (reachable_root Sample.repo [a] a). by left.
Defined.

Lemma chain_reachable p :
  reachable Trees.chain [Sample.swagger "/s/A.json"] p →
  p = "/s/A.json" ∨ p = "/s/B.json".
Proof.
  induction 1 as [root Hroot|q r _ IH Hr].
  - apply list_elem_of_singleton in Hroot as ->. by left.
  - destruct IH as [-> | ->].
    + right. vm_compute in Hr. by apply list_elem_of_singleton in Hr.
    + vm_compute in Hr. by apply elem_of_nil in Hr.
Qed.

Lemma no_cycle_no_circular_reference_witness :
  let roots := [Sample.swagger "/s/A.json"] in
  Forall (λ root, kind root = kindOf Trees.chain (path root)) roots
  ∧ refsOf Trees.chain "/s/A.json" = ["/s/B.json"]
  ∧ refsOf Trees.chain "/s/B.json" = []
  ∧ status (validateInputFiles Trees.chain 3 roots []) = Finished
  ∧ Forall (λ e, Err.code e ≠ CIRCULAR_REFERENCE)
      (emitted (validateInputFiles Trees.chain 3 roots [])).
Proof.
  intros roots.
  assert (Hkinds : Forall (λ root, kind root = kindOf Trees.chain (path root))
                     roots) by (repeat constructor).
  assert (HA : refsOf Trees.chain "/s/A.json" = ["/s/B.json"])
    by (vm_compute; reflexivity).
  assert (HB : refsOf Trees.chain "/s/B.json" = [])
    by (vm_compute; reflexivity).
  split_and!; [done..|vm_compute; reflexivity|].
  assert (Hread : ∀ p, reachable Trees.chain roots p →
            is_Some (readFile Trees.chain p))
    by (intros p [-> | ->]%chain_reachable; by eexists).
  destruct (no_cycle_no_circular_reference Trees.chain 3 roots [] Hkinds
              Hread) as [_ Hquiet].
  apply Hquiet.
  intros p [-> | ->]%chain_reachable Hcycle.
  - inversion Hcycle as [? ? Hstep|? y ? Hstep Hrest]; subst;
      unfold refersTo in Hstep; rewrite HA in Hstep;
      apply list_elem_of_singleton in Hstep; [done|subst y].
    inversion Hrest as [? ? Hstep|? y ? Hstep _]; subst;
      unfold refersTo in Hstep; rewrite HB in Hstep;
      by apply elem_of_nil in Hstep.
  - inversion Hcycle as [? ? Hstep|? y ? Hstep _]; subst;
      unfold refersTo in Hstep; rewrite HB in Hstep;
      by apply elem_of_nil in Hstep.
Defined.

Lemma pair_reachable p :
  reachable Sample.pair [Sample.swagger "/s/A.json"] p →
  p = "/s/A.json" ∨ p = "/s/B.json".
Proof.
  induction 1 as [root Hroot|q r _ IH Hr].
  - apply list_elem_of_singleton in Hroot as ->. by left.
  - destruct IH as [-> | ->]; vm_compute in Hr;
      apply list_elem_of_singleton in Hr as ->; [by right|by left].
Qed.

Lemma cycle_is_reported_witness :
  let roots := [Sample.swagger "/s/A.json"] in
  let run := traverseRoots Sample.pair 3 roots emptySets in
  Forall (λ root, kind root = kindOf Sample.pair (path root)) roots
  ∧ status run = Finished
  ∧ tc (refersTo Sample.pair) "/s/A.json" "/s/A.json"
  ∧ ∃ e, e ∈ emitted run ∧ Err.code e = CIRCULAR_REFERENCE.
Proof.
  intros roots run.
  assert (Hkinds : Forall (λ root, kind root = kindOf Sample.pair (path root))
                     roots) by (repeat constructor).
  assert (Hread : ∀ p, reachable Sample.pair roots p →
            is_Some (readFile Sample.pair p))
    by (intros p [-> | ->]%pair_reachable; by eexists).
  assert (Hfin : status run = Finished) by (vm_compute; reflexivity).
  assert (Hcycle : tc (refersTo Sample.pair) "/s/A.json" "/s/A.json").
  { apply tc_l with "/s/B.json"; [|apply tc_once];
      unfold refersTo; vm_compute; by left. }
  split_and!; [done..|].
  destruct (cycle_is_reported Sample.pair 3 roots Hkinds Hread Hfin)
    as [_ Hfound].
  apply (Hfound "/s/A.json"); [|done].
  apply (reachable_root Sample.pair roots (Sample.swagger "/s/A.json")).
  by left.
Defined.

Lemma DFSTraversalValidate_leaf_witness :
  let example := {| path := "/s/examples/e.json";
                    readMePath := "/s/readme.md"; kind := EXAMPLE |} in
  readFile Trees.withExample "/s/examples/e.json" = Some "text of e"
  ∧ getReferencedFileNames Trees.withExample "/s/examples/e.json"
      (jsonParse Trees.withExample "/s/examples/e.json" "text of e").2
    = ["/s/examples/e.json"]
  ∧ DFSTraversalValidate Trees.withExample 1 example
      {| graySet := {["/s/A.json"]}; blackSet := ∅ |}
    = MkOutcome Finished
        {| graySet := {["/s/A.json"]} ∖ {["/s/examples/e.json"]};
           blackSet := ∅ ∪ {["/s/examples/e.json"]} |}
        [].
Proof.
  intros example.
  assert (Hread : readFile Trees.withExample (path example)
                  = Some "text of e") by reflexivity.
  split_and!; [done|vm_compute; reflexivity|].
  exact (DFSTraversalValidate_leaf Trees.withExample 0 example "text of e"
           {| graySet := {["/s/A.json"]}; blackSet := ∅ |} Hread
           (or_introl eq_refl)).
Defined.

Lemma validateFolder_unreadable_manifest_witness :
  status (validateRPFolderMustContainReadme Trees.locked 3 "/repo/rm" ∅)
  = Finished
  ∧ "/repo/rm/readme.md" ∈ allReadMeFilesOf Trees.locked "/repo/rm"
  ∧ readFile Trees.locked "/repo/rm/readme.md" = None
  ∧ status (validateFolder Trees.locked 3 "/repo/rm") = Threw
  ∧ avocadoForDir Trees.locked 3 "/repo/rm" [] = Exception.
Proof.
  assert (Hchecked :
    status (validateRPFolderMustContainReadme Trees.locked 3 "/repo/rm" ∅)
    = Finished) by (vm_compute; reflexivity).
  assert (HreadMe : "/repo/rm/readme.md"
                      ∈ allReadMeFilesOf Trees.locked "/repo/rm")
    by (vm_compute; by left).
  assert (Hnone : readFile Trees.locked "/repo/rm/readme.md" = None)
    by reflexivity.
  destruct (validateFolder_unreadable_manifest Trees.locked 3 "/repo/rm"
              "/repo/rm/readme.md" Hchecked HreadMe Hnone)
    as (Hthrew & _ & Hrejects).
  split_and!; [done..|]. apply Hrejects. vm_compute. reflexivity.
Defined.

Lemma validateFolder_unreferenced_witness :
  let finding f :=
    unreferencedJsonFile
      (specificationOf Sample.repo "/repo/rm/readme.md" f) in
  status (validateFolder Sample.repo 3 "/repo/rm") = Finished
  ∧ finding "/repo/rm/2020-01-01/orphan.json"
      ∈ emitted (validateFolder Sample.repo 3 "/repo/rm")
  ∧ ∃ referencedFiles,
      collectSpecifications (getInputFilesFromReadme Sample.repo)
        (allReadMeFilesOf Sample.repo "/repo/rm") = Ok referencedFiles
      ∧ ¬ reachable Sample.repo referencedFiles
            "/repo/rm/2020-01-01/orphan.json".
Proof.
  intros finding.
  assert (Hfin : status (validateFolder Sample.repo 3 "/repo/rm") = Finished)
    by (vm_compute; reflexivity).
  assert (Hfound : finding "/repo/rm/2020-01-01/orphan.json"
                     ∈ emitted (validateFolder Sample.repo 3 "/repo/rm"))
    by (vm_compute; by left).
  split_and!; [done..|].
  destruct (validateFolder_unreferenced Sample.repo 3 "/repo/rm" Hfin)
    as (referencedFiles & Hcollect & _ & Hfiles & _).
  exists referencedFiles. split; [done|].
  destruct (Hfiles "/repo/rm/readme.md" "/repo/rm/2020-01-01/orphan.json")
    as [_ Hunreachable].
  - vm_compute. by left.
  - vm_compute. right. right. by left.
  - reflexivity.
  - apply Hunreachable; [by eexists|done].
Defined.

Lemma avocado_runs_one_of_two_witness :
  let run := avocado Sample.repo 3 Trees.noPullRequest Trees.checkRm in
  status run = Finished
  ∧ emitted run
    = [JsonFileError UnreferencedJsonFile
         "The swagger JSON file is not referenced from the readme file."
         "/repo/rm/readme.md" LevelError "/repo/rm/2020-01-01/orphan.json"
         "/repo/rm/2020-01-01/orphan.json"]
  ∧ NoDup (map (errorCorrelationId Sample.repo) (emitted run)).
Proof.
  intros run.
  assert (Hfin : status run = Finished) by (vm_compute; reflexivity).
  split_and!; [done|vm_compute; reflexivity|].
  destruct (avocado_runs_one_of_two Sample.repo 3 Trees.noPullRequest
              Trees.checkRm) as (Hsingle & _).
  by destruct (Hsingle eq_refl Hfin) as (_ & Hdup & _).
Defined.

Lemma reachable_files_are_validated_witness :
  let roots := [Sample.swagger "/s/A.json"] in
  let run := traverseRoots Trees.chain 3 roots emptySets in
  Forall (λ root, kind root = kindOf Trees.chain (path root)) roots
  ∧ status run = Finished
  ∧ reachable Trees.chain roots "/s/B.json"
  ∧ readFile Trees.chain "/s/B.json" = Some "text of B"
  ∧ ∃ readMe found,
      ownFindings Trees.chain
        {| path := "/s/B.json"; readMePath := readMe;
           kind := kindOf Trees.chain "/s/B.json" |} "text of B"
      = Some found
      ∧ ∀ e, e ∈ found → e ∈ emitted run.
Proof.
  intros roots run.
  assert (Hkinds : Forall (λ root, kind root = kindOf Trees.chain (path root))
                     roots) by (repeat constructor).
  assert (Hfin : status run = Finished) by (vm_compute; reflexivity).
  assert (Hreach : reachable Trees.chain roots "/s/B.json").
  { apply reachable_ref with "/s/A.json".
    - apply (reachable_root Trees.chain roots (Sample.swagger "/s/A.json")).
      by left.
    - vm_compute. by left. }
  assert (Hread : readFile Trees.chain "/s/B.json" = Some "text of B")
    by reflexivity.
  split_and!; [done..|].
  exact (reachable_files_are_validated Trees.chain 3 roots Hkinds Hfin
           "/s/B.json" "text of B" Hreach Hread).
Defined.

Lemma avocadoForDir_returns_witness :
  (∀ subject item, item ∈ ["a.json"] →
     is_Some (stringSearch Sample.repo subject item))
  ∧ existsSync Sample.repo "/repo/rm" = true
  ∧ status (validateFolder Sample.repo 3 "/repo/rm") = Finished
  ∧ avocadoForDir Sample.repo 3 "/repo/rm" ["a.json"]
    = Ok (filter
            (λ kv, isExcluded Sample.repo ["a.json"] (Err.path kv.2)
                   = Ok false)
            (collectErrors Sample.repo
               (emitted (validateFolder Sample.repo 3 "/repo/rm")))).
Proof.
  assert (Hpatterns : ∀ subject item, item ∈ ["a.json"] →
            is_Some (stringSearch Sample.repo subject item))
    by (intros subject item _; by eexists).
  assert (Hexists : existsSync Sample.repo "/repo/rm" = true)
    by (vm_compute; reflexivity).
  assert (Hfin : status (validateFolder Sample.repo 3 "/repo/rm") = Finished)
    by (vm_compute; reflexivity).
  split_and!; [done..|].
  destruct (avocadoForDir_returns Sample.repo 3 "/repo/rm" ["a.json"]
              Hpatterns) as (_ & Hreturns & _).
  by apply Hreturns.
Defined.

Lemma not_autorest_markdown_without_marker_witness :
  readFile Sample.repo "/repo/rm/readme.md" = Some "manifest"
  ∧ isAutoRestMd (mdParse Sample.repo "manifest") = true
  ∧ status (validateReadMeFile Sample.repo "/repo/rm/readme.md" tt)
    = Finished
  ∧ readFile Sample.tree "/s/A.json" = Some "text of A"
  ∧ isAutoRestMd (mdParse Sample.tree "text of A") = false
  ∧ ∃ multiple,
      emitted (validateReadMeFile Sample.tree "/s/A.json" tt)
      = [NotAutoRestMarkDown
           "The `readme.md` is not an AutoRest markdown file." "/s/A.json"
           LevelError "/s/A.json"
           "http://azure.github.io/autorest/user/literate-file-formats/configuration.html#the-file-format"]
        ++ multiple.
Proof.
  assert (Hrepo : readFile Sample.repo "/repo/rm/readme.md" = Some "manifest")
    by reflexivity.
  assert (Htree : readFile Sample.tree "/s/A.json" = Some "text of A")
    by reflexivity.
  destruct (not_autorest_markdown_without_marker Sample.repo _ _ Hrepo)
    as (_ & Hfin & _).
  destruct (not_autorest_markdown_without_marker Sample.tree _ _ Htree)
    as (_ & _ & multiple & Hemitted & _).
  split_and!; [done|vm_compute; reflexivity|done|done|vm_compute; reflexivity|].
  exists multiple. exact Hemitted.
Defined.

Lemma validateFolder_terminates_witness :
  let readme := "/repo/specification/compute/resource-manager/readme.md" in
  let api := "/repo/specification/compute/resource-manager/stable/api.json" in
  (∀ p, is_Some (readFile Trees.provider p) → p ∈ [readme; api])
  ∧ List.filter (isRPJsonFile Trees.provider)
      (yielded (recursiveReaddir Trees.provider "/repo/specification"))
    = [api]
  ∧ containsReadme Trees.provider (pathDirname Trees.provider api) = false
  ∧ containsReadme Trees.provider
      (ancestor Trees.provider 1 (pathDirname Trees.provider api)) = true
  ∧ ∃ budget, ∀ fuel, budget ≤ fuel →
      status (validateFolder Trees.provider fuel "/repo/specification")
      ≠ OutOfFuel
      ∧ validateFolder Trees.provider fuel "/repo/specification"
        = validateFolder Trees.provider budget "/repo/specification".
Proof.
  intros readme api.
  assert (Hfiles : ∀ p, is_Some (readFile Trees.provider p) →
            p ∈ [readme; api])
    by (intros p Hp; by apply sample_lookup_is_Some in Hp).
  assert (Hlist : yielded (recursiveReaddir Trees.provider
                             "/repo/specification")
                  = [readme; api]) by (vm_compute; reflexivity).
  assert (Hup : containsReadme Trees.provider
                  (ancestor Trees.provider 1 (pathDirname Trees.provider api))
                = true) by (vm_compute; reflexivity).
  split_and!; [done|vm_compute; reflexivity|vm_compute; reflexivity|done|].
  destruct (validateFolder_terminates Trees.provider "/repo/specification"
              [readme; api] Hfiles) as [budget Hbudget].
  { intros f Hf Hrp. rewrite Hlist in Hf.
    apply elem_of_cons in Hf as [->|Hf]; [by vm_compute in Hrp|].
    apply list_elem_of_singleton in Hf as ->. exists 1. by right. }
  exists budget. intros fuel Hfuel.
  destruct (Hbudget fuel Hfuel) as (Hstatus & Hsame & _). by split.
Defined.

(** C4 as stated fails on [Sample.repo] with the same tree on both
    branches.  The runs over the manifest directory [/repo/rm] return the
    same map, with one finding, about [orphan.json], which is not related
    to the changed files [docs/notes.txt] and [a.json]; yet the engine
    yields a finding: [MISSING_README] for [/repo/docs], the directory of a
    changed file above which there is no manifest. *)
Lemma diff_engine_suppresses_unrelated_counterexample :
  let pr := Trees.notesChanged in
  let orphan :=
    JsonFileError UnreferencedJsonFile
      "The swagger JSON file is not referenced from the readme file."
      "/repo/rm/readme.md" LevelError "/repo/rm/2020-01-01/orphan.json"
      "/repo/rm/2020-01-01/orphan.json" in
  let findings :=
    [("UNREFERENCED_JSON_FILE|/repo/rm/2020-01-01/orphan.json|", orphan)] in
  map (λ change, pathResolve Sample.repo [workingDir pr; fc_path change])
    (diff pr)
  = ["/repo/docs/notes.txt"; "/repo/rm/2020-01-01/a.json"]
  ∧ swaggerParentDirs Sample.repo pr = ["/repo/docs"; "/repo/rm/2020-01-01"]
  ∧ findTheNearestReadme Sample.repo 3 "/repo" "/repo/docs" = Ok None
  ∧ findTheNearestReadme Sample.repo 3 "/repo" "/repo/rm/2020-01-01"
    = Ok (Some "/repo/rm")
  ∧ avocadoForDir (checkout pr (targetBranch pr)) 3
      (pathResolve Sample.repo ["/repo"; "/repo/rm"]) [] = Ok findings
  ∧ avocadoForDir (checkout pr (sourceBranch pr)) 3
      (pathResolve Sample.repo ["/repo"; "/repo/rm"]) [] = Ok findings
  ∧ isPRRelatedError Sample.repo (diff pr) orphan = false
  ∧ avocadoForDevOps Sample.repo 3 pr []
    = MkOutcome Finished ["/repo/rm"]
        [MissingReadme LevelError
           "Can not find readme.md in the folder. If no readme.md file, it will block SDK generation."
           "/repo/docs" "/repo/docs"].
Proof. vm_compute. repeat split. Qed.

Lemma diff_engine_suppresses_unrelated_witness :
  let pr := Sample.pullRequest in
  let orphan :=
    JsonFileError UnreferencedJsonFile
      "The swagger JSON file is not referenced from the readme file."
      "/repo/rm/readme.md" LevelError "/repo/rm/2020-01-01/orphan.json"
      "/repo/rm/2020-01-01/orphan.json" in
  swaggerParentDirs Sample.repo pr = ["/repo/rm/2020-01-01"]
  ∧ findTheNearestReadme Sample.repo 3 "/repo" "/repo/rm/2020-01-01"
    = Ok (Some "/repo/rm")
  ∧ avocadoForDir Sample.repo 3 "/repo/rm" []
    = Ok [("UNREFERENCED_JSON_FILE|/repo/rm/2020-01-01/orphan.json|", orphan)]
  ∧ isPRRelatedError Sample.repo (diff pr) orphan = false
  ∧ status (avocadoForDevOps Sample.repo 3 pr []) = Finished
  ∧ emitted (avocadoForDevOps Sample.repo 3 pr []) = [].
Proof.
  intros pr orphan.
  assert (Hdirs : swaggerParentDirs Sample.repo pr = ["/repo/rm/2020-01-01"])
    by (vm_compute; reflexivity).
  assert (Hnearest : findTheNearestReadme Sample.repo 3 (workingDir pr)
                       "/repo/rm/2020-01-01" = Ok (Some "/repo/rm"))
    by (vm_compute; reflexivity).
  assert (Hrun : avocadoForDir Sample.repo 3 "/repo/rm" []
            = Ok [("UNREFERENCED_JSON_FILE|/repo/rm/2020-01-01/orphan.json|",
                   orphan)]) by (vm_compute; reflexivity).
  destruct (diff_engine_suppresses_unrelated Sample.repo 3 pr [])
    as (Hfin & _ & Hnone).
  - by intros subject item ?%elem_of_nil.
  - rewrite Hdirs. intros item ->%list_elem_of_singleton. by rewrite Hnearest.
  - rewrite Hdirs. intros item dir ->%list_elem_of_singleton.
    rewrite Hnearest. intros [= <-]. eexists _, _.
    split_and!; [exact Hrun|exact Hrun|done|].
    by intros k error [= -> ->]%list_elem_of_singleton.
  - split_and!; [done..|vm_compute; reflexivity|done|]. apply Hnone.
    rewrite Hdirs. intros item ->%list_elem_of_singleton.
    by rewrite Hnearest.
Defined.
